(** * Order / inventory consistency engine and service scheduler

    A shallow embedding of the decision logic of
    [backend/src/controllers/orderController.js] (createOrder,
    updateOrderStatus, cancelOrder, getOrderStats), of the spare-part,
    service and car controllers (adjustStock, createService, updateService,
    cancelService, deleteServiceType, updateCar) and of the auth controller
    with the authenticate middleware (signup, login, forgotPassword,
    resetPassword, changePassword), together with the Sequelize models they
    read and write.

    Conventions of the embedding:
    - a table is a finite map from its auto-increment primary key (a
      [positive]) to its rows; [order_items] is the list of its rows in
      insertion order (the controllers never address an item by its own id);
    - an identifier that is absent or falsy in JavaScript is [None];
    - integers (stock, quantity of an order item) are [Z], without the
      bounds of their 32-bit columns; a JavaScript
      number that need not be whole (money, the quantity of a stock
      adjustment) is the rational [Q] it denotes, and the arithmetic on such
      numbers rounds as an instance of the class [Rounding] says; dates are
      milliseconds since the epoch, in [Z];
    - a request is [req.body] as the handler reads it: the [trim()] of the
      route has been applied to notes, reasons and tracking numbers; the
      two addresses of an order are trimmed by the embedding, because the
      rule after their [trim()] decides on the answer;
    - a column of an ENUM type is an inductive type;
    - [Date.now()], [new Date()] and [Math.random()] are read by the caller
      and passed in;
    - a database transaction is a snapshot of the database at [begin] and the
      working copy the statements of the transaction act on. *)

From Stdlib Require Import ZArith QArith Qround String List Lia.
From stdpp Require Import gmap strings list fin_maps sorting.

(** ** JavaScript helpers *)

(** The line feed of the template literals. *)
Definition nl : string := String (Ascii.ascii_of_nat 10) EmptyString.

(** Truthiness of a value that is a string, [null] or [undefined]. *)
Definition truthy (s : option string) : bool :=
  match s with
  | Some s => negb (String.eqb s "")
  | None => false
  end.

(** Truthiness of a number. *)
Definition truthyQ (q : Q) : bool := negb (Qeq_bool q 0).
Definition truthyZ (z : Z) : bool := negb (z =? 0)%Z.

(** [value || fallback] on strings. *)
Definition or_else (s : option string) (fallback : string) : string :=
  match s with
  | Some s => if String.eqb s "" then fallback else s
  | None => fallback
  end.

(** The text of a nullable TEXT column. *)
Definition text (s : option string) : string := default ""%string s.

(** A character of the class [\s], among those below 128. *)
Definition white_space (c : Ascii.ascii) : bool :=
  let n := Ascii.nat_of_ascii c in
  (n =? 32) || ((9 <=? n) && (n <=? 13)).

Fixpoint trimStart (s : string) : string :=
  match s with
  | String c rest => if white_space c then trimStart rest else s
  | EmptyString => EmptyString
  end.

(** The sanitizer [trim()] of a validation chain. *)
Definition trim (s : string) : string :=
  String.rev (trimStart (String.rev (trimStart s))).

(** ** Numbers *)

(** A number of the JavaScript code is a double, and the operations on
    doubles round their results; a DECIMAL(10,2) column rounds what is
    written to it to two decimals, an INT column to an integer, and either
    refuses what it cannot hold, or clamps it, as the mode of the server
    has it. The embedding leaves all of this open: the roundings are the
    fields of a class, a handler that computes with numbers takes an
    instance of it, and what is proved of the handler is proved for every
    instance, the doubles and the columns of MySQL among them. A column
    gives [None] when it refuses the number and the statement throws. All
    that is assumed is that an INT column stores no negative integer for a
    number that is not negative. *)
Class Rounding := {
  js_add : Q → Q → Q;
  js_sub : Q → Q → Q;
  js_mul : Q → Q → Q;
  DECIMAL : Q → option Q;
  INT : Q → option Z;
  INT_nonneg : ∀ q z, (0 <= q)%Q → INT q = Some z → (0 ≤ z)%Z
}.

(** The INT column of MySQL rounds a number to the nearest integer, a half
    away from zero, *)
Definition round_half_away (q : Q) : Z :=
  if Qle_bool 0 q then Qfloor (q + (1 # 2)) else Qceiling (q - (1 # 2)).

(** and refuses, in the strict mode that MySQL 8 runs in, what then lies
    outside its 32 bits. *)
Definition INT_column (q : Q) : option Z :=
  let z := round_half_away q in
  if (-2147483648 <=? z)%Z && (z <=? 2147483647)%Z then Some z else None.

(** ** Models *)

Module Car.
Inductive Status := AVAILABLE | SOLD | RESERVED | MAINTENANCE.

#[global] Instance CarStatus_eq_dec : EqDecision Status.
Proof. solve_decision. Defined.

Record t := { status : Status }.

Definition name (s : Status) : string :=
  match s with
  | AVAILABLE => "AVAILABLE"
  | SOLD => "SOLD"
  | RESERVED => "RESERVED"
  | MAINTENANCE => "MAINTENANCE"
  end.

End Car.

Module SparePart.
Record t := { stock : Z; minStockLevel : Z }.

(** [stock: { validate: { min: 0 } }], run by [instance.update]. *)
Definition validate (p : t) : bool := (0 <=? stock p)%Z.

Definition with_stock (p : t) (s : Z) : t :=
  {| stock := s; minStockLevel := minStockLevel p |}.

(** [sparePart.update({ stock })]: [None] when validation throws. *)
Definition update (p : t) (s : Z) : option t :=
  let p' := with_stock p s in
  if validate p' then Some p' else None.

(** [sparePart.update({ stock })] with a number that need not be whole:
    the validator reads the number, the column stores what INT makes of
    it. *)
Definition update_number `{Rounding} (p : t) (s : Q) : option t :=
  if Qle_bool 0 s then with_stock p <$> INT s else None.

(** [SparePart.increment({ stock: by })]: an UPDATE statement, which runs
    no validation. *)
Definition increment (by_ : Z) (p : t) : t := with_stock p (stock p + by_)%Z.
End SparePart.

Module Order.
Inductive Status := PENDING | PROCESSING | SHIPPED | DELIVERED | CANCELLED.
Inductive PaymentStatus := UNPAID | PARTIAL | PAID | REFUNDED.

#[global] Instance OrderStatus_eq_dec : EqDecision Status.
Proof. solve_decision. Defined.

#[global] Instance PaymentStatus_eq_dec : EqDecision PaymentStatus.
Proof. solve_decision. Defined.

Definition name (s : Status) : string :=
  match s with
  | PENDING => "PENDING"
  | PROCESSING => "PROCESSING"
  | SHIPPED => "SHIPPED"
  | DELIVERED => "DELIVERED"
  | CANCELLED => "CANCELLED"
  end.

(** [a === b] on two status values. *)
Definition eqb (a b : Status) : bool := String.eqb (name a) (name b).

Definition payment_name (s : PaymentStatus) : string :=
  match s with
  | UNPAID => "UNPAID"
  | PARTIAL => "PARTIAL"
  | PAID => "PAID"
  | REFUNDED => "REFUNDED"
  end.

Definition payment_eqb (a b : PaymentStatus) : bool :=
  String.eqb (payment_name a) (payment_name b).

Record t := {
  userId : positive;
  orderNumber : string;
  carId : option positive;
  totalAmount : Q;
  status : Status;
  paymentStatus : PaymentStatus;
  paymentMethod : option string;
  shippingAddress : option string;
  billingAddress : option string;
  shippingMethod : option string;
  trackingNumber : option string;
  notes : option string;
  discountAmount : Q;
  taxAmount : Q;
  shippingCost : Q
}.

(** The [validate: { min: 0 }] rules of the model. *)
Definition validate (o : t) : bool :=
  Qle_bool 0 (totalAmount o) && Qle_bool 0 (discountAmount o)
  && Qle_bool 0 (taxAmount o) && Qle_bool 0 (shippingCost o).

(** The object handed to [order.update]: a field is present when the
    controller assigned it. *)
Record UpdateData := {
  u_status : option Status;
  u_paymentStatus : option PaymentStatus;
  u_trackingNumber : option string;
  u_notes : option string
}.

(** [Object.keys(updateData).length > 0] *)
Definition has_keys (d : UpdateData) : bool :=
  match u_status d, u_paymentStatus d, u_trackingNumber d, u_notes d with
  | None, None, None, None => false
  | _, _, _, _ => true
  end.

(** [order.update(updateData)] *)
Definition update (o : t) (d : UpdateData) : t :=
  {| userId := userId o;
     orderNumber := orderNumber o;
     carId := carId o;
     totalAmount := totalAmount o;
     status := default (status o) (u_status d);
     paymentStatus := default (paymentStatus o) (u_paymentStatus d);
     paymentMethod := paymentMethod o;
     shippingAddress := shippingAddress o;
     billingAddress := billingAddress o;
     shippingMethod := shippingMethod o;
     trackingNumber :=
       match u_trackingNumber d with
       | Some n => Some n
       | None => trackingNumber o
       end;
     notes :=
       match u_notes d with Some n => Some n | None => notes o end;
     discountAmount := discountAmount o;
     taxAmount := taxAmount o;
     shippingCost := shippingCost o |}.
End Order.

Module OrderItem.
Record t := {
  orderId : positive;
  sparePartId : option positive;
  quantity : Z;
  unitPrice : Q;
  totalPrice : Q;
  discount : Q
}.

(** The [beforeValidate] hook: the total is recomputed when unit price and
    quantity are both truthy. *)
Definition beforeValidate `{Rounding} (i : t) : t :=
  if truthyQ (unitPrice i) && truthyZ (quantity i) then
    {| orderId := orderId i;
       sparePartId := sparePartId i;
       quantity := quantity i;
       unitPrice := unitPrice i;
       totalPrice := js_sub (js_mul (unitPrice i) (inject_Z (quantity i))) (discount i);
       discount := discount i |}
  else i.

(** quantity min 1; unitPrice, totalPrice and discount min 0. *)
Definition validate (i : t) : bool :=
  (1 <=? quantity i)%Z && Qle_bool 0 (unitPrice i)
  && Qle_bool 0 (totalPrice i) && Qle_bool 0 (discount i).

(** The row [OrderItem.create] inserts, its amounts as the DECIMAL(10,2)
    columns store them, or [None] when validation or a column throws. *)
Definition create `{Rounding} (i : t) : option t :=
  let i' := beforeValidate i in
  if validate i' then
    match DECIMAL (unitPrice i'), DECIMAL (totalPrice i'), DECIMAL (discount i') with
    | Some unitPrice', Some totalPrice', Some discount' =>
        Some {| orderId := orderId i';
                sparePartId := sparePartId i';
                quantity := quantity i';
                unitPrice := unitPrice';
                totalPrice := totalPrice';
                discount := discount' |}
    | _, _, _ => None
    end
  else None.
End OrderItem.

Module ServiceType.
Record t := { basePrice : Q }.
End ServiceType.

Module Service.
Inductive Status := SCHEDULED | IN_PROGRESS | COMPLETED | CANCELLED.

#[global] Instance ServiceStatus_eq_dec : EqDecision Status.
Proof. solve_decision. Defined.

Definition name (s : Status) : string :=
  match s with
  | SCHEDULED => "SCHEDULED"
  | IN_PROGRESS => "IN_PROGRESS"
  | COMPLETED => "COMPLETED"
  | CANCELLED => "CANCELLED"
  end.

Definition eqb (a b : Status) : bool := String.eqb (name a) (name b).

(** Modelled from the spec: the Service model file is not among the
    sources; the record holds the columns the service controller reads and
    writes, with the four statuses of the scheduler state machine. *)
Record t := {
  userId : positive;
  carId : positive;
  serviceTypeId : positive;
  scheduledDate : Z;
  status : Status;
  notes : option string;
  estimatedCost : Q;
  completedDate : option Z;
  actualCost : option Q;
  technicianNotes : option string
}.

Record UpdateData := {
  u_scheduledDate : option Z;
  u_serviceTypeId : option positive;
  u_estimatedCost : option Q;
  u_status : option Status;
  u_completedDate : option Z;
  u_actualCost : option Q;
  u_notes : option string;
  u_technicianNotes : option string
}.

(** [Object.keys(updateData).length > 0] *)
Definition has_keys (d : UpdateData) : bool :=
  match u_scheduledDate d, u_serviceTypeId d, u_estimatedCost d, u_status d with
  | None, None, None, None =>
      match u_completedDate d, u_actualCost d, u_notes d, u_technicianNotes d with
      | None, None, None, None => false
      | _, _, _, _ => true
      end
  | _, _, _, _ => true
  end.

Definition keep {A} (new : option A) (old : option A) : option A :=
  match new with Some x => Some x | None => old end.

(** [service.update(updateData)] *)
Definition update (s : t) (d : UpdateData) : t :=
  {| userId := userId s;
     carId := carId s;
     serviceTypeId := default (serviceTypeId s) (u_serviceTypeId d);
     scheduledDate := default (scheduledDate s) (u_scheduledDate d);
     status := default (status s) (u_status d);
     notes := keep (u_notes d) (notes s);
     estimatedCost := default (estimatedCost s) (u_estimatedCost d);
     completedDate := keep (u_completedDate d) (completedDate s);
     actualCost := keep (u_actualCost d) (actualCost s);
     technicianNotes := keep (u_technicianNotes d) (technicianNotes s) |}.
End Service.

(** ** The database and its transactions *)

Record DB := {
  users : gset positive;
  cars : gmap positive Car.t;
  spareParts : gmap positive SparePart.t;
  orders : gmap positive Order.t;
  orderItems : list OrderItem.t;
  serviceTypes : gmap positive ServiceType.t;
  services : gmap positive Service.t
}.

Definition with_cars (f : gmap positive Car.t → gmap positive Car.t) (db : DB) : DB :=
  {| users := users db; cars := f (cars db); spareParts := spareParts db;
     orders := orders db; orderItems := orderItems db;
     serviceTypes := serviceTypes db; services := services db |}.

Definition with_spareParts
    (f : gmap positive SparePart.t → gmap positive SparePart.t) (db : DB) : DB :=
  {| users := users db; cars := cars db; spareParts := f (spareParts db);
     orders := orders db; orderItems := orderItems db;
     serviceTypes := serviceTypes db; services := services db |}.

Definition with_orders (f : gmap positive Order.t → gmap positive Order.t) (db : DB) : DB :=
  {| users := users db; cars := cars db; spareParts := spareParts db;
     orders := f (orders db); orderItems := orderItems db;
     serviceTypes := serviceTypes db; services := services db |}.

Definition with_orderItems (f : list OrderItem.t → list OrderItem.t) (db : DB) : DB :=
  {| users := users db; cars := cars db; spareParts := spareParts db;
     orders := orders db; orderItems := f (orderItems db);
     serviceTypes := serviceTypes db; services := services db |}.

Definition with_services
    (f : gmap positive Service.t → gmap positive Service.t) (db : DB) : DB :=
  {| users := users db; cars := cars db; spareParts := spareParts db;
     orders := orders db; orderItems := orderItems db;
     serviceTypes := serviceTypes db; services := f (services db) |}.

(** [sequelize.transaction()], [transaction.rollback()],
    [transaction.commit()]: statements run against [current]; a rollback
    gives back the database as it was at [begin], a commit the working
    copy. *)
Record Transaction := { snapshot : DB; current : DB }.

Definition begin (db : DB) : Transaction := {| snapshot := db; current := db |}.
Definition rollback (tx : Transaction) : DB := snapshot tx.
Definition commit (tx : Transaction) : DB := current tx.
Definition exec (f : DB → DB) (tx : Transaction) : Transaction :=
  {| snapshot := snapshot tx; current := f (current tx) |}.

(** [Car.update({ status }, { where: { id } })] *)
Definition Car_update (s : Car.Status) (id : positive) : DB → DB :=
  with_cars (alter (λ _, {| Car.status := s |}) id).

(** [SparePart.increment({ stock: by }, { where: { id } })] *)
Definition SparePart_increment (by_ : Z) (id : positive) : DB → DB :=
  with_spareParts (alter (SparePart.increment by_) id).

(** ** Responses *)

Inductive Response :=
| OrderCreated (id : positive)                         (* 201 *)
| OrderUpdated                                         (* 200 *)
| OrderCancelled                                       (* 200 *)
| StockAdjusted (previousStock currentStock : Q)         (* 200 *)
| ServiceCreated (id : positive)                       (* 201 *)
| ServiceUpdated                                       (* 200 *)
| ServiceCancelled                                     (* 200 *)
| CarUpdated                                           (* 200 *)
| ValidationFailed                                     (* 400, errors.array() *)
| UserNotFound                                         (* 404 *)
| CarNotFound                                          (* 404 *)
| CarNotAvailable (current : Car.Status)               (* 400 *)
| SparePartNotFound                                    (* 404 *)
| NotEnoughStock (available requested : Z)             (* 400 *)
| NotEnoughToSubtract (current : Z)                    (* 400 *)
| OrderNotFound                                        (* 404 *)
| CannotCancelOrder (current : Order.Status)           (* 400 *)
| BadOperation                                         (* 400 *)
| BadQuantity                                          (* 400 *)
| ServiceNotFound                                      (* 404 *)
| ServiceTypeNotFound                                  (* 404 *)
| DateNotInFuture                                      (* 400 *)
| ScheduleConflict                                     (* 400 *)
| CannotTransition (current requested : Service.Status) (* 400 *)
| CannotCancelService (current : Service.Status)       (* 400 *)
| ServerError                                          (* 500 *)
| NoResponse.          (* the handler throws out of its catch block *)

(** The status of an answer; [None] when nothing is sent. *)
Definition statusCode (r : Response) : option Z :=
  match r with
  | OrderCreated _ | ServiceCreated _ => Some 201
  | OrderUpdated | OrderCancelled | StockAdjusted _ _
  | ServiceUpdated | ServiceCancelled | CarUpdated => Some 200
  | UserNotFound | CarNotFound | SparePartNotFound | OrderNotFound
  | ServiceNotFound | ServiceTypeNotFound => Some 404
  | ServerError => Some 500
  | NoResponse => None
  | _ => Some 400
  end%Z.

(** A call fails when it answers with an error status. *)
Definition failed (r : Response) : bool :=
  match statusCode r with
  | Some code => (400 <=? code)%Z
  | None => false
  end.

(** ** Order controller *)

Module OrderReq.
(** One element of [req.body.items]. *)
Record item := {
  sparePartId : positive;
  quantity : Z;
  unitPrice : Q;
  discount : option Q
}.

(** [req.body] of POST /api/orders. *)
Record t := {
  userId : positive;
  carId : option positive;
  items : list item;
  totalAmount : Q;
  paymentMethod : option string;
  status : option Order.Status;
  paymentStatus : option Order.PaymentStatus;
  shippingAddress : option string;
  billingAddress : option string;
  shippingMethod : option string;
  notes : option string;
  discountAmount : option Q;
  taxAmount : option Q;
  shippingCost : option Q
}.

(** [isIn(['CREDIT_CARD', 'DEBIT_CARD', 'PAYPAL', 'BANK_TRANSFER', 'CASH'])] *)
Definition paymentMethods : list string :=
  ["CREDIT_CARD"; "DEBIT_CARD"; "PAYPAL"; "BANK_TRANSFER"; "CASH"]%string.

(** [optional().isString().trim().notEmpty()] *)
Definition address_ok (address : option string) : bool :=
  match address with
  | Some a => negb (String.eqb (trim a) "")
  | None => true
  end.

(** The rules of the route's validation chain: totalAmount isFloat min 0,
    paymentMethod one of the five when given, either address not empty
    once trimmed when given, items.*.quantity isInt min 1,
    items.*.unitPrice isFloat min 0. [true] when [errors.isEmpty()]. *)
Definition validationResult (r : t) : bool :=
  Qle_bool 0 (totalAmount r)
  && match paymentMethod r with
     | Some method => existsb (String.eqb method) paymentMethods
     | None => true
     end
  && address_ok (shippingAddress r)
  && address_ok (billingAddress r)
  && forallb (λ i, (1 <=? quantity i)%Z && Qle_bool 0 (unitPrice i)) (items r).
End OrderReq.

Module StatusReq.
(** [req.body] of PUT /api/orders/:id/status. *)
Record t := {
  status : option Order.Status;
  paymentStatus : option Order.PaymentStatus;
  trackingNumber : option string;
  notes : option string
}.
End StatusReq.

(** The unique index on [orderNumber]. *)
Definition orderNumber_taken (n : string) (db : DB) : bool :=
  existsb (λ kv, String.eqb (Order.orderNumber kv.2) n) (map_to_list (orders db)).

(** The row as the table stores it: the four amounts go through their
    DECIMAL(10,2) columns. *)
Definition Order_stored `{Rounding} (o : Order.t) : option Order.t :=
  match DECIMAL (Order.totalAmount o), DECIMAL (Order.discountAmount o),
        DECIMAL (Order.taxAmount o), DECIMAL (Order.shippingCost o) with
  | Some totalAmount, Some discountAmount, Some taxAmount, Some shippingCost =>
      Some {| Order.userId := Order.userId o;
              Order.orderNumber := Order.orderNumber o;
              Order.carId := Order.carId o;
              Order.totalAmount := totalAmount;
              Order.status := Order.status o;
              Order.paymentStatus := Order.paymentStatus o;
              Order.paymentMethod := Order.paymentMethod o;
              Order.shippingAddress := Order.shippingAddress o;
              Order.billingAddress := Order.billingAddress o;
              Order.shippingMethod := Order.shippingMethod o;
              Order.trackingNumber := Order.trackingNumber o;
              Order.notes := Order.notes o;
              Order.discountAmount := discountAmount;
              Order.taxAmount := taxAmount;
              Order.shippingCost := shippingCost |}
  | _, _, _, _ => None
  end.

(** [Order.create]: the new row gets the next free primary key; [None] when
    validation, the unique index or a column throws. *)
Definition Order_create `{Rounding} (o : Order.t) (db : DB) : option (positive * DB) :=
  if Order.validate o && negb (orderNumber_taken (Order.orderNumber o) db) then
    match Order_stored o with
    | Some row =>
        let id := fresh (dom (orders db)) in
        Some (id, with_orders (insert id row) db)
    | None => None
    end
  else None.

(** How a block of the handler ends: it runs to its end, it returns a
    response (after the rollback written before the [return]), or it throws
    into the handler's [catch]. *)
Inductive Flow :=
| Completed (tx : Transaction)
| Returned (r : Response) (db : DB)
| Thrown (tx : Transaction).

(** The [for (const item of items)] loop of createOrder. *)
Fixpoint createOrder_items `{Rounding} (orderId : positive)
    (items : list OrderReq.item) (transaction : Transaction) : Flow :=
  match items with
  | [] => Completed transaction
  | item :: rest =>
      let sparePartId := OrderReq.sparePartId item in
      let quantity := OrderReq.quantity item in
      let unitPrice := OrderReq.unitPrice item in
      let discount := default 0%Q (OrderReq.discount item) in
      match spareParts (current transaction) !! sparePartId with
      | None => Returned SparePartNotFound (rollback transaction)
      | Some sparePart =>
          if (SparePart.stock sparePart <? quantity)%Z then
            Returned (NotEnoughStock (SparePart.stock sparePart) quantity)
                     (rollback transaction)
          else
            let totalPrice := js_sub (js_mul unitPrice (inject_Z quantity)) discount in
            match OrderItem.create
                    {| OrderItem.orderId := orderId;
                       OrderItem.sparePartId := Some sparePartId;
                       OrderItem.quantity := quantity;
                       OrderItem.unitPrice := unitPrice;
                       OrderItem.totalPrice := totalPrice;
                       OrderItem.discount := discount |} with
            | None => Thrown transaction
            | Some row =>
                let tx1 := exec (with_orderItems (λ l, l ++ [row])) transaction in
                match SparePart.update sparePart (SparePart.stock sparePart - quantity) with
                | None => Thrown tx1
                | Some sparePart' =>
                    createOrder_items orderId rest
                      (exec (with_spareParts (insert sparePartId sparePart')) tx1)
                end
            end
      end
  end.

(** The car check of createOrder: the response it returns, if any. *)
Definition createOrder_car (carId : option positive) (transaction : Transaction)
    : option Response :=
  match carId with
  | None => None
  | Some carId =>
      match cars (current transaction) !! carId with
      | None => Some CarNotFound
      | Some car =>
          if negb (String.eqb (Car.name (Car.status car)) "AVAILABLE") then
            Some (CarNotAvailable (Car.status car))
          else None
      end
  end.

(** POST /api/orders. [orderNumber] is the generated
    [ORD-<last 8 digits of Date.now()>-<3 random digits>]. *)
Definition createOrder `{Rounding} (req : OrderReq.t) (orderNumber : string)
    (db : DB) : Response * DB :=
  let transaction := begin db in
  if negb (OrderReq.validationResult req) then (ValidationFailed, db)
  else if negb (bool_decide (OrderReq.userId req ∈ users (current transaction))) then
    (UserNotFound, rollback transaction)
  else
    match createOrder_car (OrderReq.carId req) transaction with
    | Some response => (response, rollback transaction)
    | None =>
        match Order_create
                {| Order.userId := OrderReq.userId req;
                   Order.orderNumber := orderNumber;
                   Order.carId := OrderReq.carId req;
                   Order.totalAmount := OrderReq.totalAmount req;
                   Order.status := default Order.PENDING (OrderReq.status req);
                   Order.paymentStatus :=
                     default Order.UNPAID (OrderReq.paymentStatus req);
                   Order.paymentMethod := OrderReq.paymentMethod req;
                   Order.shippingAddress := trim <$> OrderReq.shippingAddress req;
                   Order.billingAddress := trim <$> OrderReq.billingAddress req;
                   Order.shippingMethod := OrderReq.shippingMethod req;
                   Order.trackingNumber := None;
                   Order.notes := OrderReq.notes req;
                   Order.discountAmount := default 0%Q (OrderReq.discountAmount req);
                   Order.taxAmount := default 0%Q (OrderReq.taxAmount req);
                   Order.shippingCost := default 0%Q (OrderReq.shippingCost req) |}
                (current transaction) with
        | None => (ServerError, rollback transaction)
        | Some (orderId, db1) =>
            match createOrder_items orderId (OrderReq.items req)
                    (exec (λ _, db1) transaction) with
            | Returned response db' => (response, db')
            | Thrown tx => (ServerError, rollback tx)
            | Completed tx =>
                let tx' :=
                  match OrderReq.carId req with
                  | Some carId => exec (Car_update Car.RESERVED carId) tx
                  | None => tx
                  end in
                (OrderCreated orderId, commit tx')
            end
        end
    end.

(** The car status updateOrderStatus writes, [undefined] being [None]. *)
Definition carStatus_for (status previousStatus : Order.Status) : option Car.Status :=
  if String.eqb (Order.name status) "DELIVERED" then Some Car.SOLD
  else if String.eqb (Order.name status) "CANCELLED"
          && String.eqb (Order.name previousStatus) "RESERVED" then Some Car.AVAILABLE
  else None.

(** [OrderItem.findAll({ where: { orderId } })] *)
Definition OrderItem_findAll (orderId : positive) (db : DB) : list OrderItem.t :=
  filter (λ i, OrderItem.orderId i = orderId) (orderItems db).

(** The restock loop of updateOrderStatus. *)
Fixpoint restoreStock (items : list OrderItem.t) (db : DB) : DB :=
  match items with
  | [] => db
  | item :: rest =>
      restoreStock rest
        match OrderItem.sparePartId item with
        | Some sparePartId =>
            SparePart_increment (OrderItem.quantity item) sparePartId db
        | None => db
        end
  end.

(** [old ? `${old}\n\n${entry}` : entry] *)
Definition appendNote (old : option string) (entry : string) : string :=
  if truthy old then text old +:+ nl +:+ nl +:+ entry else entry.

(** The side effects of a status change in updateOrderStatus. *)
Definition statusChange_effects (id : positive) (order : Order.t)
    (status : Order.Status) (transaction : Transaction) : Transaction :=
  let previousStatus := Order.status order in
  let tx1 :=
    match Order.carId order with
    | Some carId =>
        match carStatus_for status previousStatus with
        | Some carStatus => exec (Car_update carStatus carId) transaction
        | None => transaction
        end
    | None => transaction
    end in
  if String.eqb (Order.name status) "CANCELLED"
     && (String.eqb (Order.name previousStatus) "PENDING"
         || String.eqb (Order.name previousStatus) "PROCESSING") then
    let orderItems := OrderItem_findAll id (current tx1) in
    exec (restoreStock orderItems) tx1
  else tx1.

(** PUT /api/orders/:id/status. [nowISO] is [new Date().toISOString()]. *)
Definition updateOrderStatus (id : positive) (req : StatusReq.t) (nowISO : string)
    (db : DB) : Response * DB :=
  let transaction := begin db in
  match orders (current transaction) !! id with
  | None => (OrderNotFound, rollback transaction)
  | Some order =>
      let previousStatus := Order.status order in
      let previousPaymentStatus := Order.paymentStatus order in
      let '(u_status, tx1) :=
        match StatusReq.status req with
        | Some status =>
            if negb (Order.eqb status previousStatus) then
              (Some status, statusChange_effects id order status transaction)
            else (None, transaction)
        | None => (None, transaction)
        end in
      let u_paymentStatus :=
        match StatusReq.paymentStatus req with
        | Some paymentStatus =>
            if negb (Order.payment_eqb paymentStatus previousPaymentStatus)
            then Some paymentStatus else None
        | None => None
        end in
      let u_trackingNumber :=
        if truthy (StatusReq.trackingNumber req)
        then StatusReq.trackingNumber req else None in
      let u_notes :=
        if truthy (StatusReq.notes req) then
          Some (appendNote (Order.notes order)
                  (nowISO +:+ ": " +:+ text (StatusReq.notes req)))
        else None in
      let updateData :=
        {| Order.u_status := u_status;
           Order.u_paymentStatus := u_paymentStatus;
           Order.u_trackingNumber := u_trackingNumber;
           Order.u_notes := u_notes |} in
      let tx2 :=
        if Order.has_keys updateData then
          exec (with_orders (alter (λ o, Order.update o updateData) id)) tx1
        else tx1 in
      (OrderUpdated, commit tx2)
  end.

(** The restock loop of cancelOrder, over the items as loaded with the
    order, each with its included spare part. *)
Fixpoint restoreStock_loaded (items : list (OrderItem.t * option SparePart.t))
    (db : DB) : DB :=
  match items with
  | [] => db
  | (item, sparePart) :: rest =>
      restoreStock_loaded rest
        match OrderItem.sparePartId item, sparePart with
        | Some sparePartId, Some _ =>
            SparePart_increment (OrderItem.quantity item) sparePartId db
        | _, _ => db
        end
  end.

(** The [include] of the order's items with their spare parts. *)
Definition load_items (orderId : positive) (db : DB)
    : list (OrderItem.t * option SparePart.t) :=
  map (λ i, (i, OrderItem.sparePartId i ≫= λ p, spareParts db !! p))
      (OrderItem_findAll orderId db).

(** POST /api/orders/:id/cancel *)
Definition cancelOrder (id : positive) (reason : option string) (nowISO : string)
    (db : DB) : Response * DB :=
  let transaction := begin db in
  match orders (current transaction) !! id with
  | None => (OrderNotFound, rollback transaction)
  | Some order =>
      let car := Order.carId order ≫= λ c, cars (current transaction) !! c in
      let items := load_items id (current transaction) in
      if String.eqb (Order.name (Order.status order)) "DELIVERED"
         || String.eqb (Order.name (Order.status order)) "CANCELLED" then
        (CannotCancelOrder (Order.status order), rollback transaction)
      else
        let updateData :=
          {| Order.u_status := Some Order.CANCELLED;
             Order.u_paymentStatus := None;
             Order.u_trackingNumber := None;
             Order.u_notes :=
               Some (appendNote (Order.notes order)
                       ("CANCELLED on " +:+ nowISO +:+ ": "
                        +:+ or_else reason "No reason provided")) |} in
        let tx1 :=
          exec (with_orders (alter (λ o, Order.update o updateData) id)) transaction in
        let tx2 :=
          match Order.carId order, car with
          | Some carId, Some _ => exec (Car_update Car.AVAILABLE carId) tx1
          | _, _ => tx1
          end in
        let tx3 :=
          if (0 <? Z.of_nat (length items))%Z
          then exec (restoreStock_loaded items) tx2 else tx2 in
        (OrderCancelled, commit tx3)
  end.

(** ** Spare-part controller *)

(** POST /api/spare-parts/:id/adjust-stock. The handler opens no
    transaction and does not read the result of the route's validation
    chain: [quantity] is any number, whole or not. *)
Definition adjustStock `{Rounding} (id : positive) (quantity : Q) (operation : string)
    (db : DB) : Response * DB :=
  if negb (String.eqb operation "add" || String.eqb operation "subtract") then
    (BadOperation, db)
  else if Qle_bool quantity 0 then (BadQuantity, db)
  else
    match spareParts db !! id with
    | None => (SparePartNotFound, db)
    | Some sparePart =>
        let stock := SparePart.stock sparePart in
        let newStock :=
          if String.eqb operation "add" then Some (js_add (inject_Z stock) quantity)
          else if negb (Qle_bool quantity (inject_Z stock)) then None
          else Some (js_sub (inject_Z stock) quantity) in
        match newStock with
        | None => (NotEnoughToSubtract stock, db)
        | Some newStock =>
            match SparePart.update_number sparePart newStock with
            | None => (ServerError, db)
            | Some sparePart' =>
                (StockAdjusted
                   (if String.eqb operation "add"
                    then js_sub newStock quantity else js_add newStock quantity)
                   newStock,
                 with_spareParts (insert id sparePart') db)
            end
        end
    end.

(** ** Service controller *)

Module ServiceReq.
(** [req.body] of POST /api/services; [scheduledDate] is the instant the
    ISO 8601 string denotes. *)
Record t := {
  userId : positive;
  carId : positive;
  serviceTypeId : positive;
  scheduledDate : Z;
  notes : option string;
  status : option Service.Status;
  estimatedCost : option Q
}.

(** estimatedCost isFloat min 0, when present. *)
Definition validationResult (r : t) : bool :=
  match estimatedCost r with Some c => Qle_bool 0 c | None => true end.
End ServiceReq.

Module ServiceUpdateReq.
(** [req.body] of PUT /api/services/:id. *)
Record t := {
  scheduledDate : option Z;
  status : option Service.Status;
  notes : option string;
  completedDate : option Z;
  actualCost : option Q;
  technicianNotes : option string;
  serviceTypeId : option positive
}.

(** actualCost isFloat min 0, when present. *)
Definition validationResult (r : t) : bool :=
  match actualCost r with Some c => Qle_bool 0 c | None => true end.
End ServiceUpdateReq.

(** [2 * 60 * 60 * 1000] milliseconds. *)
Definition twoHours : Z := 2 * 60 * 60 * 1000.

(** The [where] clause of the conflict query: [scheduledDate] between two
    hours before and two hours after [t] (both ends included), status
    SCHEDULED or IN_PROGRESS, and, in updateService, an id other than the
    service being updated. *)
Definition conflicts (exclude : option positive) (t : Z)
    (row : positive * Service.t) : bool :=
  match exclude with Some id => negb (Pos.eqb row.1 id) | None => true end
  && ((t - twoHours <=? Service.scheduledDate row.2)%Z
      && (Service.scheduledDate row.2 <=? t + twoHours)%Z)
  && (String.eqb (Service.name (Service.status row.2)) "SCHEDULED"
      || String.eqb (Service.name (Service.status row.2)) "IN_PROGRESS").

(** [Service.findOne({ where })] *)
Definition Service_findOne (where_ : positive * Service.t → bool) (db : DB)
    : option (positive * Service.t) :=
  List.find where_ (map_to_list (services db)).

(** [Service.create] *)
Definition Service_create (s : Service.t) (db : DB) : positive * DB :=
  let id := fresh (dom (services db)) in
  (id, with_services (insert id s) db).

(** The query that reads the appointment back for the answer,
    [Service.findByPk(id, { include: [user, car, serviceType] })]. Its
    include asks for the attribute [licensePlate] of Car, which neither the
    Car model nor the cars table has: the query is refused and the call
    throws, whatever the database holds. *)
Definition Service_findByPk_included (id : positive) (db : DB) : option Service.t :=
  None.

(** The end of createService and updateService, after the commit: the
    appointment is read back and sent with [success]. When the read throws,
    the catch block rolls back the transaction, which is committed already:
    the rollback throws in its turn, out of the handler, and nothing is
    sent. *)
Definition respond_with_service (id : positive) (success : Response) (db : DB)
    : Response * DB :=
  match Service_findByPk_included id db with
  | Some completeService => (success, db)
  | None => (NoResponse, db)
  end.

(** POST /api/services. [now] is [new Date()]. *)
Definition createService (req : ServiceReq.t) (now : Z) (db : DB) : Response * DB :=
  let transaction := begin db in
  if negb (ServiceReq.validationResult req) then (ValidationFailed, db)
  else if negb (bool_decide (ServiceReq.userId req ∈ users (current transaction))) then
    (UserNotFound, rollback transaction)
  else
    match cars (current transaction) !! ServiceReq.carId req with
    | None => (CarNotFound, rollback transaction)
    | Some car =>
        match serviceTypes (current transaction) !! ServiceReq.serviceTypeId req with
        | None => (ServiceTypeNotFound, rollback transaction)
        | Some serviceType =>
            let scheduledDateTime := ServiceReq.scheduledDate req in
            if (scheduledDateTime <? now)%Z then
              (DateNotInFuture, rollback transaction)
            else
              match Service_findOne (conflicts None scheduledDateTime)
                      (current transaction) with
              | Some conflictingService => (ScheduleConflict, rollback transaction)
              | None =>
                  let '(id, db1) :=
                    Service_create
                      {| Service.userId := ServiceReq.userId req;
                         Service.carId := ServiceReq.carId req;
                         Service.serviceTypeId := ServiceReq.serviceTypeId req;
                         Service.scheduledDate := scheduledDateTime;
                         Service.status :=
                           default Service.SCHEDULED (ServiceReq.status req);
                         Service.notes := ServiceReq.notes req;
                         Service.estimatedCost :=
                           match ServiceReq.estimatedCost req with
                           | Some c =>
                               if truthyQ c then c
                               else ServiceType.basePrice serviceType
                           | None => ServiceType.basePrice serviceType
                           end;
                         Service.completedDate := None;
                         Service.actualCost := None;
                         Service.technicianNotes := None |}
                      (current transaction) in
                  respond_with_service id (ServiceCreated id)
                    (commit (exec (λ _, db1) transaction))
              end
        end
    end.

(** The [validTransitions] table of updateService. *)
Definition validTransitions (s : Service.Status) : list Service.Status :=
  match s with
  | Service.SCHEDULED => [Service.IN_PROGRESS; Service.CANCELLED]
  | Service.IN_PROGRESS => [Service.COMPLETED; Service.CANCELLED]
  | Service.COMPLETED => []
  | Service.CANCELLED => []
  end.

(** [array.includes(status)] *)
Definition includes (l : list Service.Status) (s : Service.Status) : bool :=
  existsb (Service.eqb s) l.

(** The [if (scheduledDate)] block of updateService: a response, or the
    [scheduledDate] key of [updateData]. *)
Definition updateService_date (id : positive) (service : Service.t)
    (scheduledDate : option Z) (now : Z) (transaction : Transaction)
    : Response + option Z :=
  match scheduledDate with
  | None => inr None
  | Some scheduledDateTime =>
      let scheduled :=
        String.eqb (Service.name (Service.status service)) "SCHEDULED" in
      if (scheduledDateTime <? now)%Z && scheduled then inl DateNotInFuture
      else if scheduled then
        match Service_findOne (conflicts (Some id) scheduledDateTime)
                (current transaction) with
        | Some conflictingService => inl ScheduleConflict
        | None => inr (Some scheduledDateTime)
        end
      else inr (Some scheduledDateTime)
  end.

(** Truthiness of an amount read from a DECIMAL column. Sequelize hands
    such a column over as its text, 0 as ["0.00"], and a text that is not
    empty is truthy: only NULL reads as falsy, and the amounts of the
    embedding are never NULL. *)
Definition truthyDECIMAL (amount : Q) : bool := true.

(** The [if (serviceTypeId)] block: a response, or the [serviceTypeId] and
    [estimatedCost] keys of [updateData]. *)
Definition updateService_type (service : Service.t) (serviceTypeId : option positive)
    (transaction : Transaction) : Response + (option positive * option Q) :=
  match serviceTypeId with
  | None => inr (None, None)
  | Some serviceTypeId =>
      match serviceTypes (current transaction) !! serviceTypeId with
      | None => inl ServiceTypeNotFound
      | Some serviceType =>
          inr (Some serviceTypeId,
               if negb (truthyDECIMAL (Service.estimatedCost service))
               then Some (ServiceType.basePrice serviceType) else None)
      end
  end.

(** The [if (status)] block: a response, or the [status] and [completedDate]
    keys of [updateData]. *)
Definition updateService_status (service : Service.t)
    (status : option Service.Status) (completedDate : option Z) (now : Z)
    : Response + (option Service.Status * option Z) :=
  match status with
  | None => inr (None, None)
  | Some status =>
      if negb (includes (validTransitions (Service.status service)) status) then
        inl (CannotTransition (Service.status service) status)
      else
        inr (Some status,
             if String.eqb (Service.name status) "COMPLETED"
                && negb (bool_decide (is_Some completedDate))
             then Some now else None)
  end.

(** PUT /api/services/:id. [now] is [new Date()], [nowISO] its ISO string. *)
Definition updateService (id : positive) (req : ServiceUpdateReq.t)
    (now : Z) (nowISO : string) (db : DB) : Response * DB :=
  let transaction := begin db in
  if negb (ServiceUpdateReq.validationResult req) then (ValidationFailed, db)
  else
    match services (current transaction) !! id with
    | None => (ServiceNotFound, rollback transaction)
    | Some service =>
        match updateService_date id service (ServiceUpdateReq.scheduledDate req)
                now transaction with
        | inl response => (response, rollback transaction)
        | inr u_scheduledDate =>
            match updateService_type service (ServiceUpdateReq.serviceTypeId req)
                    transaction with
            | inl response => (response, rollback transaction)
            | inr (u_serviceTypeId, u_estimatedCost) =>
                match updateService_status service (ServiceUpdateReq.status req)
                        (ServiceUpdateReq.completedDate req) now with
                | inl response => (response, rollback transaction)
                | inr (u_status, stamped) =>
                    let updateData :=
                      {| Service.u_scheduledDate := u_scheduledDate;
                         Service.u_serviceTypeId := u_serviceTypeId;
                         Service.u_estimatedCost := u_estimatedCost;
                         Service.u_status := u_status;
                         Service.u_completedDate :=
                           Service.keep (ServiceUpdateReq.completedDate req) stamped;
                         Service.u_actualCost := ServiceUpdateReq.actualCost req;
                         Service.u_notes :=
                           if truthy (ServiceUpdateReq.notes req) then
                             Some (appendNote (Service.notes service)
                                     (nowISO +:+ ": "
                                      +:+ text (ServiceUpdateReq.notes req)))
                           else None;
                         Service.u_technicianNotes :=
                           if truthy (ServiceUpdateReq.technicianNotes req) then
                             Some (appendNote (Service.technicianNotes service)
                                     (nowISO +:+ ": "
                                      +:+ text (ServiceUpdateReq.technicianNotes req)))
                           else None |} in
                    let tx1 :=
                      if Service.has_keys updateData then
                        exec (with_services
                                (alter (λ s, Service.update s updateData) id))
                             transaction
                      else transaction in
                    respond_with_service id ServiceUpdated (commit tx1)
                end
            end
        end
    end.

(** POST /api/services/:id/cancel *)
Definition cancelService (id : positive) (reason : option string) (nowISO : string)
    (db : DB) : Response * DB :=
  let transaction := begin db in
  match services (current transaction) !! id with
  | None => (ServiceNotFound, rollback transaction)
  | Some service =>
      if String.eqb (Service.name (Service.status service)) "COMPLETED"
         || String.eqb (Service.name (Service.status service)) "CANCELLED" then
        (CannotCancelService (Service.status service), rollback transaction)
      else
        let updateData :=
          {| Service.u_scheduledDate := None;
             Service.u_serviceTypeId := None;
             Service.u_estimatedCost := None;
             Service.u_status := Some Service.CANCELLED;
             Service.u_completedDate := None;
             Service.u_actualCost := None;
             Service.u_notes :=
               Some (appendNote (Service.notes service)
                       ("CANCELLED on " +:+ nowISO +:+ ": "
                        +:+ or_else reason "No reason provided"));
             Service.u_technicianNotes := None |} in
        (ServiceCancelled,
         commit (exec (with_services (alter (λ s, Service.update s updateData) id))
                   transaction))
  end.

(** ** Car controller *)


(** ** Sequences of engine operations *)

Inductive Op :=
| CreateOrder (req : OrderReq.t) (orderNumber : string)
| UpdateOrderStatus (id : positive) (req : StatusReq.t) (nowISO : string)
| CancelOrder (id : positive) (reason : option string) (nowISO : string)
| AdjustStock (id : positive) (quantity : Q) (operation : string).

Definition step `{Rounding} (op : Op) (db : DB) : Response * DB :=
  match op with
  | CreateOrder req orderNumber => createOrder req orderNumber db
  | UpdateOrderStatus id req nowISO => updateOrderStatus id req nowISO db
  | CancelOrder id reason nowISO => cancelOrder id reason nowISO db
  | AdjustStock id quantity operation => adjustStock id quantity operation db
  end.

(** The database after each operation of a sequence, applied one at a
    time. *)
Fixpoint trace `{Rounding} (ops : list Op) (db : DB) : list DB :=
  match ops with
  | [] => []
  | op :: rest => let db' := (step op db).2 in db' :: trace rest db'
  end.

(** ** Sample data *)

(** The arithmetic of the samples is exact, with the INT column of MySQL:
    the numbers of the samples are whole or halves, and small, and on such
    numbers neither the doubles nor the DECIMAL(10,2) columns round. *)
Definition exact : Rounding.
Proof.
  refine {| js_add := Qplus; js_sub := Qminus; js_mul := Qmult; DECIMAL := Some;
            INT := INT_column |}.
  intros q z Hq. unfold INT_column, round_half_away.
  apply Qle_bool_iff in Hq as Hq'. rewrite Hq'.
  assert (Qfloor 0 ≤ Qfloor (q + (1 # 2)))%Z as Hfloor.
  { apply Qfloor_resp_le. apply Qle_trans with q; [done|].
    rewrite <- (Qplus_0_r q) at 1. by apply Qplus_le_r. }
  destruct (_ && _); [|done]. by intros [= <-].
Defined.

(** One customer, one available car, two spare parts (stock 5 and 2) and one
    service type. *)
Definition shop : DB :=
  {| users := {[ 1%positive ]};
     cars := {[ 1%positive := {| Car.status := Car.AVAILABLE |} ]};
     spareParts :=
       {[ 1%positive := {| SparePart.stock := 5; SparePart.minStockLevel := 5 |};
          2%positive := {| SparePart.stock := 2; SparePart.minStockLevel := 1 |} ]};
     orders := ∅;
     orderItems := [];
     serviceTypes := {[ 1%positive := {| ServiceType.basePrice := 50 |} ]};
     services := ∅ |}.

Definition carOrder : OrderReq.t :=
  {| OrderReq.userId := 1; OrderReq.carId := Some 1%positive; OrderReq.items := [];
     OrderReq.totalAmount := 20000; OrderReq.paymentMethod := None;
     OrderReq.status := None; OrderReq.paymentStatus := None;
     OrderReq.shippingAddress := None; OrderReq.billingAddress := None;
     OrderReq.shippingMethod := None; OrderReq.notes := None;
     OrderReq.discountAmount := None; OrderReq.taxAmount := None;
     OrderReq.shippingCost := None |}.

Definition item (sparePartId : positive) (quantity : Z) (unitPrice : Q) : OrderReq.item :=
  {| OrderReq.sparePartId := sparePartId; OrderReq.quantity := quantity;
     OrderReq.unitPrice := unitPrice; OrderReq.discount := None |}.

Definition partsOrder (items : list OrderReq.item) : OrderReq.t :=
  {| OrderReq.userId := 1; OrderReq.carId := None; OrderReq.items := items;
     OrderReq.totalAmount := 100; OrderReq.paymentMethod := None;
     OrderReq.status := None; OrderReq.paymentStatus := None;
     OrderReq.shippingAddress := None; OrderReq.billingAddress := None;
     OrderReq.shippingMethod := None; OrderReq.notes := None;
     OrderReq.discountAmount := None; OrderReq.taxAmount := None;
     OrderReq.shippingCost := None |}.

(** The order for the car, with a payment method and a shipping address. *)
Definition paidOrder (paymentMethod shippingAddress : string) : OrderReq.t :=
  {| OrderReq.userId := 1; OrderReq.carId := Some 1%positive; OrderReq.items := [];
     OrderReq.totalAmount := 20000; OrderReq.paymentMethod := Some paymentMethod;
     OrderReq.status := None; OrderReq.paymentStatus := None;
     OrderReq.shippingAddress := Some shippingAddress;
     OrderReq.billingAddress := None;
     OrderReq.shippingMethod := None; OrderReq.notes := None;
     OrderReq.discountAmount := None; OrderReq.taxAmount := None;
     OrderReq.shippingCost := None |}.

Definition setStatus (s : Order.Status) : StatusReq.t :=
  {| StatusReq.status := Some s; StatusReq.paymentStatus := None;
     StatusReq.trackingNumber := None; StatusReq.notes := None |}.

Definition booking (scheduledDate : Z) (status : option Service.Status) : ServiceReq.t :=
  {| ServiceReq.userId := 1; ServiceReq.carId := 1; ServiceReq.serviceTypeId := 1;
     ServiceReq.scheduledDate := scheduledDate; ServiceReq.notes := None;
     ServiceReq.status := status; ServiceReq.estimatedCost := None |}.



(** ** Predicates of the statements *)

(** An item is short on a parts table when its spare part is missing from it
    or holds less stock than the item asks for. *)
Definition short (parts : gmap positive SparePart.t) (i : OrderReq.item) : Prop :=
  match parts !! OrderReq.sparePartId i with
  | None => True
  | Some p => (SparePart.stock p < OrderReq.quantity i)%Z
  end.

(** No spare part has a negative stock. *)
Definition stock_nonneg (db : DB) : Prop :=
  ∀ id p, spareParts db !! id = Some p → (0 ≤ SparePart.stock p)%Z.

(** Every stored order item satisfies the [min: 1] rule of its quantity
    column. *)
Definition items_valid (db : DB) : Prop :=
  Forall (λ i, (1 ≤ OrderItem.quantity i)%Z) (orderItems db).

(** The sentence of the specification on stock, for the sequences of engine
    operations: from a database without negative stock, no operation of
    any sequence leaves a negative stock. *)
Definition spec_stock_never_negative `{Rounding} : Prop :=
  ∀ ops db, stock_nonneg db → Forall stock_nonneg (trace ops db).

(** The row is the one createOrder builds for the request item: of that
    order, with the item's spare part and quantity. *)
Definition built_from (orderId : positive) (i : OrderReq.item) (row : OrderItem.t)
    : Prop :=
  OrderItem.orderId row = orderId
  ∧ OrderItem.sparePartId row = Some (OrderReq.sparePartId i)
  ∧ OrderItem.quantity row = OrderReq.quantity i.

(** The quantity a list of order items holds of one spare part. *)
Fixpoint quantity_of (p : positive) (items : list OrderItem.t) : Z :=
  match items with
  | [] => 0
  | i :: rest =>
      ((if bool_decide (OrderItem.sparePartId i = Some p)
        then OrderItem.quantity i else 0)
       + quantity_of p rest)%Z
  end.

(** A change to [status] from [previousStatus] takes the restock branch of
    updateOrderStatus. *)
Definition restocks (status previousStatus : Order.Status) : bool :=
  match status, previousStatus with
  | Order.CANCELLED, (Order.PENDING | Order.PROCESSING) => true
  | _, _ => false
  end.

(** A request asks for a status other than the order's. *)
Definition changes_status (req : StatusReq.t) (o : Order.t) : bool :=
  match StatusReq.status req with
  | Some s => negb (Order.eqb s (Order.status o))
  | None => false
  end.

(** An order for the car and for three units of part 1 and one of part 2. *)
Definition mixedOrder : OrderReq.t :=
  {| OrderReq.userId := 1; OrderReq.carId := Some 1%positive;
     OrderReq.items := [item 1 3 10; item 2 1 5];
     OrderReq.totalAmount := 20035; OrderReq.paymentMethod := None;
     OrderReq.status := None; OrderReq.paymentStatus := None;
     OrderReq.shippingAddress := None; OrderReq.billingAddress := None;
     OrderReq.shippingMethod := None; OrderReq.notes := None;
     OrderReq.discountAmount := None; OrderReq.taxAmount := None;
     OrderReq.shippingCost := None |}.

(** The shop once [mixedOrder] is placed: order 1 is PENDING, the car
    RESERVED, the stocks 2 and 1. *)
Definition shop1 : DB := (@createOrder exact mixedOrder "ORD-00000001-042" shop).2.

Definition order1 : Order.t :=
  {| Order.userId := 1; Order.orderNumber := "ORD-00000001-042";
     Order.carId := Some 1%positive; Order.totalAmount := 20035;
     Order.status := Order.PENDING; Order.paymentStatus := Order.UNPAID;
     Order.paymentMethod := None; Order.shippingAddress := None;
     Order.billingAddress := None; Order.shippingMethod := None;
     Order.trackingNumber := None; Order.notes := None;
     Order.discountAmount := 0; Order.taxAmount := 0; Order.shippingCost := 0 |}.

Definition stamp : string := "2024-05-01T10:00:00.000Z".

(** A shop whose order 1, PENDING and without a car, holds one row of -3
    units of spare part 2: a row no handler writes, but one the table
    takes, [order_items.quantity] being an INT without a CHECK. *)
Definition returnsShop : DB :=
  {| users := users shop;
     cars := cars shop;
     spareParts := spareParts shop;
     orders :=
       {[ 1%positive :=
            {| Order.userId := 1; Order.orderNumber := "ORD-00000001-042";
               Order.carId := None; Order.totalAmount := 0;
               Order.status := Order.PENDING; Order.paymentStatus := Order.UNPAID;
               Order.paymentMethod := None; Order.shippingAddress := None;
               Order.billingAddress := None; Order.shippingMethod := None;
               Order.trackingNumber := None; Order.notes := None;
               Order.discountAmount := 0; Order.taxAmount := 0;
               Order.shippingCost := 0 |} ]};
     orderItems :=
       [{| OrderItem.orderId := 1; OrderItem.sparePartId := Some 2%positive;
           OrderItem.quantity := -3; OrderItem.unitPrice := 5;
           OrderItem.totalPrice := 0; OrderItem.discount := 15 |}];
     serviceTypes := serviceTypes shop;
     services := services shop |}.




(** The edges of the scheduler state machine as the specification lists
    them: SCHEDULED to IN_PROGRESS or CANCELLED, IN_PROGRESS to COMPLETED or
    CANCELLED. *)
Definition spec_edge (a b : Service.Status) : Prop :=
  (a = Service.SCHEDULED ∧ (b = Service.IN_PROGRESS ∨ b = Service.CANCELLED))
  ∨ (a = Service.IN_PROGRESS ∧ (b = Service.COMPLETED ∨ b = Service.CANCELLED)).

(** The sentence of the specification on creation: every appointment starts
    in SCHEDULED. *)
Definition spec_starts_scheduled : Prop :=
  ∀ req now db id s,
    services db !! id = None →
    services (createService req now db).2 !! id = Some s →
    Service.status s = Service.SCHEDULED.

(** An existing appointment is active and within two hours, 7200000
    milliseconds, of [t]. *)
Definition in_conflict (t : Z) (s : Service.t) : Prop :=
  (Service.status s = Service.SCHEDULED ∨ Service.status s = Service.IN_PROGRESS)
  ∧ (t - 7200000 ≤ Service.scheduledDate s ≤ t + 7200000)%Z.

Inductive ServiceOp :=
| CreateService (req : ServiceReq.t) (now : Z)
| UpdateService (id : positive) (req : ServiceUpdateReq.t) (now : Z) (nowISO : string)
| CancelService (id : positive) (reason : option string) (nowISO : string).

Definition service_step (op : ServiceOp) (db : DB) : Response * DB :=
  match op with
  | CreateService req now => createService req now db
  | UpdateService id req now nowISO => updateService id req now nowISO db
  | CancelService id reason nowISO => cancelService id reason nowISO db
  end.

(** A request that carries a status and nothing else. *)
Definition setServiceStatus (s : Service.Status) : ServiceUpdateReq.t :=
  {| ServiceUpdateReq.scheduledDate := None; ServiceUpdateReq.status := Some s;
     ServiceUpdateReq.notes := None; ServiceUpdateReq.completedDate := None;
     ServiceUpdateReq.actualCost := None; ServiceUpdateReq.technicianNotes := None;
     ServiceUpdateReq.serviceTypeId := None |}.

(** 2024-05-01T10:00:00.000Z in milliseconds. *)
Definition tenOClock : Z := 1714557600000.

(** ** Further predicates and samples *)

(** What appending an entry to a notes column gives: the entry alone when
    the column is empty or NULL, the old text, an empty line and the entry
    otherwise. *)
Definition note_after (old : option string) (entry : string) : string :=
  match old with
  | Some (String c rest) =>
      String c rest
      +:+ String (Ascii.ascii_of_nat 10) (String (Ascii.ascii_of_nat 10) entry)
  | _ => entry
  end.

(** The text of a cancellation entry. *)
Definition cancellation_entry (nowISO : string) (reason : option string) : string :=
  "CANCELLED on " +:+ nowISO +:+ ": "
  +:+ match reason with
      | Some (String c rest) => String c rest
      | _ => "No reason provided"
      end.

(** Whole numbers are exact: as long as they stay within 2^52, sums and
    differences of whole numbers are computed without rounding, as the
    doubles do, and an INT column stores a whole number from 0 to its
    maximum as it is. *)
Definition whole_numbers_exact `{Rounding} : Prop :=
  (∀ a b : Z,
     (Z.abs a ≤ 2 ^ 52)%Z → (Z.abs b ≤ 2 ^ 52)%Z →
     (js_add (inject_Z a) (inject_Z b) == inject_Z (a + b))%Q
     ∧ (js_sub (inject_Z a) (inject_Z b) == inject_Z (a - b))%Q)
  ∧ (∀ x z, (x == inject_Z z)%Q → (0 ≤ z ≤ 2147483647)%Z → INT x = Some z).

(** The quantity a request asks of one spare part, over all its items. *)
Fixpoint requested (p : positive) (items : list OrderReq.item) : Z :=
  match items with
  | [] => 0
  | i :: rest =>
      ((if bool_decide (OrderReq.sparePartId i = p) then OrderReq.quantity i else 0)
       + requested p rest)%Z
  end.

(** The foreign key of [order_items.orderId]: every stored item belongs to a
    stored order. *)
Definition items_reference_orders (db : DB) : Prop :=
  Forall (λ row, is_Some (orders db !! OrderItem.orderId row)) (orderItems db).

(** ** Sequences of scheduler operations *)

(** The database after a sequence of scheduler operations. *)
Fixpoint service_run (ops : list ServiceOp) (db : DB) : DB :=
  match ops with
  | [] => db
  | op :: rest => service_run rest (service_step op db).2
  end.

(** A request that carries a new date and nothing else. *)
Definition reschedule (t : Z) : ServiceUpdateReq.t :=
  {| ServiceUpdateReq.scheduledDate := Some t; ServiceUpdateReq.status := None;
     ServiceUpdateReq.notes := None; ServiceUpdateReq.completedDate := None;
     ServiceUpdateReq.actualCost := None; ServiceUpdateReq.technicianNotes := None;
     ServiceUpdateReq.serviceTypeId := None |}.

(** The shop with one appointment booked for eleven o'clock. *)
Definition bookedShop : DB :=
  (createService (booking (tenOClock + 3600000) None) tenOClock shop).2.

Definition booked1 : Service.t :=
  {| Service.userId := 1; Service.carId := 1; Service.serviceTypeId := 1;
     Service.scheduledDate := tenOClock + 3600000;
     Service.status := Service.SCHEDULED; Service.notes := None;
     Service.estimatedCost := 50; Service.completedDate := None;
     Service.actualCost := None; Service.technicianNotes := None |}.

(** ** Order statistics *)















(** ** Service types *)

Definition with_serviceTypes
    (f : gmap positive ServiceType.t → gmap positive ServiceType.t) (db : DB) : DB :=
  {| users := users db; cars := cars db; spareParts := spareParts db;
     orders := orders db; orderItems := orderItems db;
     serviceTypes := f (serviceTypes db); services := services db |}.

(** [Service.count({ where: { serviceTypeId } })] *)
Definition Service_count (serviceTypeId : positive) (db : DB) : nat :=
  length (List.filter (λ row, Pos.eqb (Service.serviceTypeId row.2) serviceTypeId)
            (map_to_list (services db))).

(** The answers of DELETE /api/services/types/:id. *)
Inductive ServiceTypeResponse :=
| ServiceTypeDeleted                          (* 200 *)
| NoSuchServiceType                           (* 404 *)
| ServiceTypeInUse (servicesCount : nat).     (* 400 *)

(** DELETE /api/services/types/:id. A destroyed row is no longer found by
    any query; [serviceTypes] holds the rows the queries find. *)
Definition deleteServiceType (id : positive) (db : DB) : ServiceTypeResponse * DB :=
  let transaction := begin db in
  match serviceTypes (current transaction) !! id with
  | None => (NoSuchServiceType, rollback transaction)
  | Some serviceType =>
      let servicesCount := Service_count id (current transaction) in
      if 0 <? servicesCount then (ServiceTypeInUse servicesCount, rollback transaction)
      else
        (ServiceTypeDeleted,
         commit (exec (with_serviceTypes (delete id)) transaction))
  end.

(** The scheduler's operations together with the deletion of service
    types. *)
Inductive SchedulerOp :=
| OnService (op : ServiceOp)
| DeleteServiceType (id : positive).

Definition scheduler_step (op : SchedulerOp) (db : DB) : DB :=
  match op with
  | OnService op => (service_step op db).2
  | DeleteServiceType id => (deleteServiceType id db).2
  end.

Definition scheduler_run (ops : list SchedulerOp) (db : DB) : DB :=
  foldl (λ db op, scheduler_step op db) db ops.

(** The foreign key of [services.serviceTypeId]: every appointment has its
    service type. *)
Definition services_typed (db : DB) : Prop :=
  ∀ id s, services db !! id = Some s →
          is_Some (serviceTypes db !! Service.serviceTypeId s).

(** ** Accounts

    The auth controller ([signup], [login], [forgotPassword],
    [resetPassword], [changePassword]), the [authenticate] middleware and the
    User model with its hooks. They read and write the [users] and [roles]
    tables only, which are kept here apart from the tables of the
    engine. Strings are compared as the character sequences they are. The
    tokens of the answers are left out; the secrets they are signed with
    are taken to be set, so that signing does not throw. No code of the
    application deletes a user, so every row is one the queries find. *)

(** The functions of bcrypt and validator.js the code calls. [bcrypt_hash]
    takes the salt [bcrypt.hash(data, 10)] draws. *)
Class Libraries := {
  bcrypt_hash : string → string → string;
  bcrypt_compare : string → string → bool;
  isEmail : string → bool
}.

Module Role.
Record t := { name : string }.
End Role.

Module User.
Record t := {
  name : string;
  email : string;
  password : string;
  roleId : positive;
  phone : option string;
  address : option string;
  isActive : bool;
  lastLogin : option Z;
  resetToken : option string;
  resetTokenExpiry : option Z
}.

(** [\s], [\t], [\r], [\n] *)
Definition is_space (c : Ascii.ascii) : bool :=
  let n := Ascii.nat_of_ascii c in
  (n =? 32) || ((9 <=? n) && (n <=? 13)).

(** [notEmpty: true]: the value is not made of white space only. *)
Definition notEmpty (s : string) : bool :=
  negb (forallb is_space (list_ascii_of_string s)).

(** A character of the class [[0-9\+\-\(\)]]. *)
Definition is_phone_char (c : Ascii.ascii) : bool :=
  let n := Ascii.nat_of_ascii c in
  ((48 <=? n) && (n <=? 57)) || (n =? 43) || (n =? 45) || (n =? 40) || (n =? 41).

(** [is: /^[0-9\+\-\(\)]+$/] *)
Definition is_phone (s : string) : bool :=
  negb (String.eqb s "") && forallb is_phone_char (list_ascii_of_string s).

(** The validators of the model; one of a column that holds no value is
    skipped. *)
Definition validate `{Libraries} (u : t) : bool :=
  notEmpty (name u) && isEmail (email u)
  && match phone u with Some p => is_phone p | None => true end.

(** The [beforeCreate] hook. *)
Definition beforeCreate `{Libraries} (hookSalt : string) (u : t) : t :=
  if truthy (Some (password u)) then
    {| name := name u; email := email u;
       password := bcrypt_hash hookSalt (password u);
       roleId := roleId u; phone := phone u; address := address u;
       isActive := isActive u; lastLogin := lastLogin u;
       resetToken := resetToken u; resetTokenExpiry := resetTokenExpiry u |}
  else u.

(** [user.checkPassword(password)] *)
Definition checkPassword `{Libraries} (u : t) (password_ : string) : bool :=
  bcrypt_compare password_ (password u).

Definition with_password (u : t) (hashed : string) : t :=
  {| name := name u; email := email u; password := hashed;
     roleId := roleId u; phone := phone u; address := address u;
     isActive := isActive u; lastLogin := lastLogin u;
     resetToken := resetToken u; resetTokenExpiry := resetTokenExpiry u |}.

Definition with_lastLogin (u : t) (now : Z) : t :=
  {| name := name u; email := email u; password := password u;
     roleId := roleId u; phone := phone u; address := address u;
     isActive := isActive u; lastLogin := Some now;
     resetToken := resetToken u; resetTokenExpiry := resetTokenExpiry u |}.

Definition with_resetToken (u : t) (token : string) (expiry : Z) : t :=
  {| name := name u; email := email u; password := password u;
     roleId := roleId u; phone := phone u; address := address u;
     isActive := isActive u; lastLogin := lastLogin u;
     resetToken := Some token; resetTokenExpiry := Some expiry |}.
End User.

Record Accounts := {
  roles : gmap positive Role.t;
  accounts : gmap positive User.t
}.

Definition with_accounts (f : gmap positive User.t → gmap positive User.t)
    (st : Accounts) : Accounts :=
  {| roles := roles st; accounts := f (accounts st) |}.

(** The answers of the auth routes. *)
Inductive AuthResponse :=
| SignedUp (id : positive) (role : string)     (* 201, with the two tokens *)
| LoggedIn (id : positive) (role : string)     (* 200, with the two tokens *)
| ResetRequested                               (* 200, the same for every email *)
| PasswordChanged                              (* 200 *)
| BadRequest                                   (* 400, errors.array() *)
| InvalidCredentials                           (* 401 *)
| NotAuthenticated                             (* 401, from authenticate *)
| CurrentPasswordIncorrect                     (* 401 *)
| AccountDisabled                              (* 403 *)
| EmailInUse                                   (* 409 *)
| DefaultRoleNotFound                          (* 500 *)
| Failed.                                      (* 500, from the catch block *)

(** [User.findOne({ where: { email } })] *)
Definition User_findOne (email : string) (st : Accounts) : option (positive * User.t) :=
  List.find (λ row, String.eqb (User.email row.2) email) (map_to_list (accounts st)).

(** [Role.findOne({ where: { name } })] *)
Definition Role_findOne (name : string) (st : Accounts) : option (positive * Role.t) :=
  List.find (λ row, String.eqb (Role.name row.2) name) (map_to_list (roles st)).

(** [User.create]: validation, then the [beforeCreate] hook, then the
    insert under the next free primary key; [None] when validation
    throws. *)
Definition User_create `{Libraries} (hookSalt : string) (u : User.t) (st : Accounts)
    : option (positive * Accounts) :=
  if User.validate u then
    let id := fresh (dom (accounts st)) in
    Some (id, with_accounts (insert id (User.beforeCreate hookSalt u)) st)
  else None.

(** [User.update(values, { where: { id } })]: a bulk update, which runs no
    instance hook. *)
Definition User_update (f : User.t → User.t) (id : positive) : Accounts → Accounts :=
  with_accounts (alter f id).

Module SignupReq.
Record t := {
  name : string;
  email : string;
  password : string;
  phone : option string;
  address : option string
}.

(** name notEmpty, email isEmail, password isLength min 6. *)
Definition validationResult `{Libraries} (r : t) : bool :=
  negb (String.eqb (name r) "") && isEmail (email r)
  && (6 <=? String.length (password r)).
End SignupReq.

(** POST /api/auth/signup. [salt] is the salt of the handler's
    [bcrypt.hash], [hookSalt] that of the model's hook. *)
Definition signup `{Libraries} (req : SignupReq.t) (salt hookSalt : string)
    (st : Accounts) : AuthResponse * Accounts :=
  if negb (SignupReq.validationResult req) then (BadRequest, st)
  else
    match User_findOne (SignupReq.email req) st with
    | Some existingUser => (EmailInUse, st)
    | None =>
        match Role_findOne "CUSTOMER" st with
        | None => (DefaultRoleNotFound, st)
        | Some customerRole =>
            let hashedPassword := bcrypt_hash salt (SignupReq.password req) in
            match
              User_create hookSalt
                {| User.name := SignupReq.name req;
                   User.email := SignupReq.email req;
                   User.password := hashedPassword;
                   User.roleId := customerRole.1;
                   User.phone := SignupReq.phone req;
                   User.address := SignupReq.address req;
                   User.isActive := true;
                   User.lastLogin := None;
                   User.resetToken := None;
                   User.resetTokenExpiry := None |}
                st
            with
            | None => (Failed, st)
            | Some (id, st') => (SignedUp id (Role.name customerRole.2), st')
            end
        end
    end.

(** POST /api/auth/login. [now] is [new Date()]. The role is read for the
    response after [lastLogin] is written. *)
Definition login `{Libraries} (email password : string) (now : Z) (st : Accounts)
    : AuthResponse * Accounts :=
  if negb (isEmail email && negb (String.eqb password "")) then (BadRequest, st)
  else
    match User_findOne email st with
    | None => (InvalidCredentials, st)
    | Some (id, user) =>
        if negb (User.isActive user) then (AccountDisabled, st)
        else if negb (User.checkPassword user password) then (InvalidCredentials, st)
        else
          let st' := User_update (λ u, User.with_lastLogin u now) id st in
          match roles st !! User.roleId user with
          | Some role => (LoggedIn id (Role.name role), st')
          | None => (Failed, st')
          end
    end.

(** POST /api/auth/forgot-password. [token] is
    [crypto.randomBytes(32).toString('hex')], [now] is [Date.now()]. The
    handler does not look at the validation result. *)
Definition forgotPassword (email token : string) (now : Z) (st : Accounts)
    : AuthResponse * Accounts :=
  match User_findOne email st with
  | None => (ResetRequested, st)
  | Some (id, user) =>
      (ResetRequested,
       User_update (λ u, User.with_resetToken u token (now + 3600000)) id st)
  end.

(** POST /api/auth/reset-password/:token. The [where] of the handler's
    first statement names [Op], which the controller neither imports nor
    declares: the statement throws before any query, and the catch block
    answers. *)
Definition resetPassword (token password : string) (st : Accounts)
    : AuthResponse * Accounts :=
  (Failed, st).

(** The [authenticate] middleware. [decoded] is the user id of the bearer
    token when the header holds a token that verifies, [None] otherwise.
    It hands the user it loaded to the handler. *)
Definition authenticate (decoded : option positive) (now : Z) (st : Accounts)
    : AuthResponse + (positive * User.t) * Accounts :=
  match decoded with
  | None => inl NotAuthenticated
  | Some id =>
      match accounts st !! id with
      | None => inl NotAuthenticated
      | Some user =>
          if negb (User.isActive user) then inl AccountDisabled
          else inr ((id, user), User_update (λ u, User.with_lastLogin u now) id st)
      end
  end.

(** The handler of POST /api/auth/change-password; [user] is [req.user].
    It does not look at the validation result. *)
Definition changePassword `{Libraries} (user : positive * User.t)
    (currentPassword newPassword salt : string) (st : Accounts)
    : AuthResponse * Accounts :=
  if negb (User.checkPassword user.2 currentPassword) then
    (CurrentPasswordIncorrect, st)
  else
    let hashedPassword := bcrypt_hash salt newPassword in
    (PasswordChanged, User_update (λ u, User.with_password u hashedPassword) user.1 st).

(** The route POST /api/auth/change-password: [authenticate], then the
    handler. *)
Definition change_password_route `{Libraries} (decoded : option positive)
    (currentPassword newPassword salt : string) (now : Z) (st : Accounts)
    : AuthResponse * Accounts :=
  match authenticate decoded now st with
  | inl response => (response, st)
  | inr (user, st') => changePassword user currentPassword newPassword salt st'
  end.

(** Calls that need no token. *)
Inductive PublicCall :=
| Login (email password : string) (now : Z)
| ForgotPassword (email token : string) (now : Z)
| ResetPassword (token password : string)
| Signup (req : SignupReq.t) (salt hookSalt : string).

Definition public_step `{Libraries} (call : PublicCall) (st : Accounts) : Accounts :=
  match call with
  | Login email password now => (login email password now st).2
  | ForgotPassword email token now => (forgotPassword email token now st).2
  | ResetPassword token password => (resetPassword token password st).2
  | Signup req salt hookSalt => (signup req salt hookSalt st).2
  end.

Definition public_run `{Libraries} (calls : list PublicCall) (st : Accounts) : Accounts :=
  foldl (λ st call, public_step call st) st calls.

(** The unique index on [users.email]. *)
Definition emails_unique (st : Accounts) : Prop :=
  ∀ i j u v, accounts st !! i = Some u → accounts st !! j = Some v →
             User.email u = User.email v → i = j.

(** What the code relies on from bcrypt: a password matches the hashes made
    of it, and no other. *)
Definition bcrypt_complete `{Libraries} : Prop :=
  ∀ salt data, bcrypt_compare data (bcrypt_hash salt data) = true.


(** A stand-in for the libraries, to run the handlers on sample data: the
    hash of a text is the text behind a mark, whatever the salt; an email
    is a text that holds an at sign. *)
Definition toy_hash (salt data : string) : string := "#" +:+ data.

Definition toy_isEmail (s : string) : bool :=
  existsb (λ c, Ascii.eqb c (Ascii.ascii_of_nat 64)) (list_ascii_of_string s).

Definition toy : Libraries :=
  {| bcrypt_hash := toy_hash;
     bcrypt_compare := λ data encrypted, String.eqb encrypted (toy_hash "" data);
     isEmail := toy_isEmail |}.

(** One role, CUSTOMER, and no account. *)
Definition office : Accounts :=
  {| roles := {[ 3%positive := {| Role.name := "CUSTOMER" |} ]}; accounts := ∅ |}.

Definition ada : SignupReq.t :=
  {| SignupReq.name := "Ada"; SignupReq.email := "ada@example.com";
     SignupReq.password := "lovelace"; SignupReq.phone := Some "+44(0)20"%string;
     SignupReq.address := None |}.

(** Two rows of [users] that agree on what decides a login. *)
Definition same_credentials (u v : User.t) : Prop :=
  User.email u = User.email v ∧ User.password u = User.password v
  ∧ User.roleId u = User.roleId v ∧ User.isActive u = User.isActive v.

(** An office with one member, whose password is hunter2. *)
Definition bob : User.t :=
  {| User.name := "Bob"; User.email := "bob@example.com";
     User.password := toy_hash "" "hunter2"; User.roleId := 3;
     User.phone := None; User.address := None; User.isActive := true;
     User.lastLogin := None; User.resetToken := None;
     User.resetTokenExpiry := None |}.

Definition club : Accounts :=
  {| roles := roles office; accounts := {[ 7%positive := bob ]} |}.

(** The samples of the statements are computed with the exact
    arithmetic. *)
#[global] Existing Instance exact | 100.
(** * Properties *)

(** ** Status names *)

Lemma Order_eqb_eq (a b : Order.Status) : Order.eqb a b = true ↔ a = b.
Proof. destruct a, b; vm_compute; split; congruence. Qed.

Lemma Order_eqb_refl (a : Order.Status) : Order.eqb a a = true.
Proof. by apply Order_eqb_eq. Qed.

(** No order status is spelled RESERVED: that is a status of cars. *)
Lemma order_status_never_RESERVED (s : Order.Status) :
  String.eqb (Order.name s) "RESERVED" = false.
Proof. by destruct s. Qed.

Lemma car_available_name (s : Car.Status) :
  String.eqb (Car.name s) "AVAILABLE" = true ↔ s = Car.AVAILABLE.
Proof. destruct s; vm_compute; split; congruence. Qed.

(** updateOrderStatus writes a car status only for DELIVERED, and then SOLD. *)
Lemma carStatus_for_spec (status previousStatus : Order.Status) :
  carStatus_for status previousStatus
  = match status with Order.DELIVERED => Some Car.SOLD | _ => None end.
Proof.
  unfold carStatus_for. rewrite order_status_never_RESERVED.
  by destruct status.
Qed.

(** ** Transactions *)

(** The item loop of createOrder never touches the snapshot; a response
    returned from inside the loop is an error and comes with the rolled-back
    database. *)
Lemma createOrder_items_snapshot `{rounding : Rounding}
    (orderId : positive) (items : list OrderReq.item) :
  ∀ tx,
    match createOrder_items orderId items tx with
    | Completed tx' => snapshot tx' = snapshot tx
    | Returned r db' => db' = snapshot tx ∧ failed r = true
    | Thrown tx' => snapshot tx' = snapshot tx
    end.
Proof.
  induction items as [|i rest IH]; intros tx; simpl; [done|].
  destruct (spareParts (current tx) !! OrderReq.sparePartId i) as [p|]; [|done].
  destruct (SparePart.stock p <? OrderReq.quantity i)%Z; [done|].
  destruct (OrderItem.create _) as [row|]; [|done].
  destruct (SparePart.update p _) as [p'|]; [|done].
  apply (IH (exec _ (exec _ tx))).
Qed.

Lemma short_after_decrement (parts : gmap positive SparePart.t) (id : positive)
    (p p' : SparePart.t) (q : Z) (j : OrderReq.item) :
  parts !! id = Some p → (0 ≤ q)%Z → SparePart.update p (SparePart.stock p - q) = Some p' →
  short parts j → short (<[id := p']> parts) j.
Proof.
  unfold short, SparePart.update. intros Hp Hq Hup Hj.
  destruct (SparePart.validate _); [|done]. injection Hup as <-.
  destruct (decide (id = OrderReq.sparePartId j)) as [Heq|Hne].
  - subst id. rewrite lookup_insert_eq. rewrite Hp in Hj. simpl. lia.
  - by rewrite lookup_insert_ne.
Qed.

(** With quantities of at least 1, the loop cannot complete when some item
    is short on the parts table it starts from. *)
Lemma createOrder_items_short `{rounding : Rounding}
    (orderId : positive) (items : list OrderReq.item) :
  ∀ tx,
    Forall (λ i, (1 ≤ OrderReq.quantity i)%Z) items →
    Exists (short (spareParts (current tx))) items →
    ∀ tx', createOrder_items orderId items tx ≠ Completed tx'.
Proof.
  induction items as [|i rest IH]; intros tx Hq Hex tx'; [by inversion Hex|].
  apply Forall_cons in Hq as [Hqi Hq]. simpl.
  destruct (spareParts (current tx) !! OrderReq.sparePartId i) as [p|] eqn:Hp; [|done].
  destruct (SparePart.stock p <? OrderReq.quantity i)%Z eqn:Hlt; [done|].
  destruct (OrderItem.create _) as [row|]; [|done].
  destruct (SparePart.update p _) as [p'|] eqn:Hup; [|done].
  apply IH; [done|]. simpl.
  apply Exists_cons in Hex as [Hi|Hrest].
  - unfold short in Hi. rewrite Hp in Hi. apply Z.ltb_ge in Hlt. lia.
  - eapply Exists_impl; [exact Hrest|]. intros j Hj.
    eapply short_after_decrement; eauto. lia.
Qed.

Lemma validationResult_quantities (req : OrderReq.t) :
  OrderReq.validationResult req = true →
  Forall (λ i, (1 ≤ OrderReq.quantity i)%Z) (OrderReq.items req).
Proof.
  unfold OrderReq.validationResult. intros [_ H]%andb_true_iff.
  rewrite forallb_forall in H. apply Forall_forall. intros i Hi.
  apply list_elem_of_In in Hi. apply H in Hi.
  apply andb_true_iff in Hi as [Hi _]. by apply Z.leb_le.
Qed.

(** The columns of an order that are no amounts are stored as given. *)
Lemma Order_stored_Some `{rounding : Rounding} (o row : Order.t) :
  Order_stored o = Some row →
  Order.userId row = Order.userId o
  ∧ Order.orderNumber row = Order.orderNumber o
  ∧ Order.carId row = Order.carId o
  ∧ Order.status row = Order.status o
  ∧ Order.paymentStatus row = Order.paymentStatus o.
Proof.
  unfold Order_stored.
  destruct (DECIMAL (Order.totalAmount o)); [|done].
  destruct (DECIMAL (Order.discountAmount o)); [|done].
  destruct (DECIMAL (Order.taxAmount o)); [|done].
  destruct (DECIMAL (Order.shippingCost o)); [|done].
  by intros [= <-].
Qed.

Lemma Order_create_spareParts `{rounding : Rounding}
    (o : Order.t) (db db1 : DB) (id : positive) :
  Order_create o db = Some (id, db1) →
  ∃ row,
    Order_stored o = Some row
    ∧ spareParts db1 = spareParts db ∧ cars db1 = cars db ∧ users db1 = users db
    ∧ orderItems db1 = orderItems db ∧ orders db1 = <[id := row]> (orders db)
    ∧ orders db !! id = None
    ∧ serviceTypes db1 = serviceTypes db ∧ services db1 = services db.
Proof.
  unfold Order_create. destruct (_ && _); [|done].
  destruct (Order_stored o) as [row|]; [|done].
  intros [= <- <-]. exists row. repeat split.
  apply not_elem_of_dom, is_fresh.
Qed.

Lemma createOrder_car_Some (carId : option positive) (tx : Transaction) (r : Response) :
  createOrder_car carId tx = Some r → failed r = true.
Proof.
  unfold createOrder_car. destruct carId as [c|]; [|done].
  destruct (cars (current tx) !! c) as [car|]; [|by intros [= <-]].
  destruct (negb _); [by intros [= <-]|done].
Qed.

Lemma createOrder_car_None (carId : option positive) (tx : Transaction) (c : positive) :
  createOrder_car carId tx = None → carId = Some c →
  cars (current tx) !! c = Some {| Car.status := Car.AVAILABLE |}.
Proof.
  unfold createOrder_car. intros H ->.
  destruct (cars (current tx) !! c) as [[s]|]; [|done]. simpl in H.
  destruct (String.eqb (Car.name s) "AVAILABLE") eqn:Hs; [|done].
  apply car_available_name in Hs. by subst.
Qed.

Lemma OrderItem_create_Some `{rounding : Rounding} (i row : OrderItem.t) :
  OrderItem.create i = Some row →
  OrderItem.orderId row = OrderItem.orderId i
  ∧ OrderItem.sparePartId row = OrderItem.sparePartId i
  ∧ OrderItem.quantity row = OrderItem.quantity i
  ∧ (1 ≤ OrderItem.quantity row)%Z.
Proof.
  unfold OrderItem.create.
  destruct (OrderItem.validate _) eqn:Hv; [|done].
  destruct (DECIMAL (OrderItem.unitPrice _)); [|done].
  destruct (DECIMAL (OrderItem.totalPrice _)); [|done].
  destruct (DECIMAL (OrderItem.discount _)); [|done].
  intros [= <-]. cbn [OrderItem.orderId OrderItem.sparePartId OrderItem.quantity].
  assert (1 ≤ OrderItem.quantity (OrderItem.beforeValidate i))%Z as Hq.
  { unfold OrderItem.validate in Hv.
    apply andb_true_iff in Hv as [Hv _]. apply andb_true_iff in Hv as [Hv _].
    apply andb_true_iff in Hv as [Hv _]. by apply Z.leb_le. }
  revert Hq. unfold OrderItem.beforeValidate.
  by destruct (_ && _).
Qed.

(** What the item loop of createOrder has done when it runs to its end: one
    row per request item, appended in order; nothing but order items and
    spare parts written; no stock below zero. *)
Lemma createOrder_items_completed `{rounding : Rounding}
    (orderId : positive) (items : list OrderReq.item) :
  ∀ tx tx',
    createOrder_items orderId items tx = Completed tx' →
    users (current tx') = users (current tx)
    ∧ cars (current tx') = cars (current tx)
    ∧ orders (current tx') = orders (current tx)
    ∧ serviceTypes (current tx') = serviceTypes (current tx)
    ∧ services (current tx') = services (current tx)
    ∧ (∃ rows,
         orderItems (current tx') = orderItems (current tx) ++ rows
         ∧ Forall2 (built_from orderId) items rows
         ∧ Forall (λ r, (1 ≤ OrderItem.quantity r)%Z) rows)
    ∧ (stock_nonneg (current tx) → stock_nonneg (current tx')).
Proof.
  induction items as [|i rest IH]; intros tx tx'; simpl.
  { intros [= <-]. repeat split; try done. exists []. by rewrite app_nil_r. }
  destruct (spareParts (current tx) !! OrderReq.sparePartId i) as [p|] eqn:Hp; [|done].
  destruct (SparePart.stock p <? OrderReq.quantity i)%Z; [done|].
  destruct (OrderItem.create _) as [row|] eqn:Hrow; [|done].
  destruct (SparePart.update p _) as [p'|] eqn:Hup; [|done].
  intros (Hu & Hc & Ho & Hst & Hsv & (rows & Hrows & Hbuilt & Hqty) & Hnn)%IH.
  simpl in *.
  apply OrderItem_create_Some in Hrow as (R1 & R2 & R3 & R6).
  simpl in *.
  repeat split; try done.
  - exists (row :: rows). rewrite Hrows, <- app_assoc. simpl.
    repeat split; try done.
    + by constructor.
    + by constructor.
  - intros Hdb. apply Hnn. intros id q. simpl.
    unfold SparePart.update in Hup.
    destruct (SparePart.validate _) eqn:Hv; [|done]. injection Hup as <-.
    destruct (decide (OrderReq.sparePartId i = id)) as [Heq|Hne].
    + subst id. rewrite lookup_insert_eq. intros [= <-].
      unfold SparePart.validate in Hv. by apply Z.leb_le.
    + rewrite lookup_insert_ne by done. apply Hdb.
Qed.

(** Every way createOrder can end: with an error and the database it was
    called on, or with the new order, its rows and the reserved car. *)
Lemma createOrder_cases `{rounding : Rounding}
    (req : OrderReq.t) (orderNumber : string) (db : DB) :
  let '(r, db') := createOrder req orderNumber db in
  (failed r = true ∧ db' = db)
  ∨ (∃ orderId o,
       r = OrderCreated orderId
       ∧ OrderReq.validationResult req = true
       ∧ OrderReq.userId req ∈ users db
       ∧ (∀ c, OrderReq.carId req = Some c →
               cars db !! c = Some {| Car.status := Car.AVAILABLE |})
       ∧ orders db !! orderId = None
       ∧ orders db' = <[orderId := o]> (orders db)
       ∧ Order.carId o = OrderReq.carId req
       ∧ Order.status o = default Order.PENDING (OrderReq.status req)
       ∧ users db' = users db
       ∧ cars db'
         = match OrderReq.carId req with
           | Some c => alter (λ _, {| Car.status := Car.RESERVED |}) c (cars db)
           | None => cars db
           end
       ∧ serviceTypes db' = serviceTypes db
       ∧ services db' = services db
       ∧ (∃ rows,
            orderItems db' = orderItems db ++ rows
            ∧ Forall2 (built_from orderId) (OrderReq.items req) rows
            ∧ Forall (λ r, (1 ≤ OrderItem.quantity r)%Z) rows)
       ∧ (stock_nonneg db → stock_nonneg db')
       ∧ ¬ Exists (short (spareParts db)) (OrderReq.items req)).
Proof.
  unfold createOrder.
  destruct (OrderReq.validationResult req) eqn:Hval; simpl; [|by left].
  case_bool_decide as Huser; simpl; [|by left].
  destruct (createOrder_car _ _) as [r|] eqn:Hcar.
  { left. split; [|done]. by eapply createOrder_car_Some. }
  destruct (Order_create _ db) as [[oid db1]|] eqn:Hcreate; [|by left].
  apply Order_create_spareParts in Hcreate
    as (row & Hrow & Hparts & Hcars & Husers & Hitems & Horders & Hfresh & Hty & Hsvc).
  apply Order_stored_Some in Hrow as (_ & _ & Hrowcar & Hrowstatus & _).
  cbn [Order.carId Order.status] in Hrowcar, Hrowstatus.
  pose proof (createOrder_items_snapshot oid (OrderReq.items req)
                (exec (λ _, db1) (begin db))) as Hsnap.
  pose proof (createOrder_items_short oid (OrderReq.items req)
                (exec (λ _, db1) (begin db))
                (validationResult_quantities _ Hval)) as Hshort.
  pose proof (createOrder_items_completed oid (OrderReq.items req)
                (exec (λ _, db1) (begin db))) as Hdone.
  destruct (createOrder_items _ _ _) as [tx'|r db'|tx']; simpl in *.
  - right. destruct (Hdone tx' eq_refl) as (Hu & Hc & Ho & Hst & Hsv & Hrows & Hnn).
    eexists oid, _. split; [done|]. split; [done|]. split; [done|].
    split. { intros c Hc'. eapply createOrder_car_None in Hcar; eauto. }
    split; [done|].
    assert (Hfin : ∀ tx'' : Transaction,
               tx'' = match OrderReq.carId req with
                      | Some carId => exec (Car_update Car.RESERVED carId) tx'
                      | None => tx'
                      end →
               users (commit tx'') = users (current tx')
               ∧ orders (commit tx'') = orders (current tx')
               ∧ orderItems (commit tx'') = orderItems (current tx')
               ∧ spareParts (commit tx'') = spareParts (current tx')
               ∧ serviceTypes (commit tx'') = serviceTypes (current tx')
               ∧ services (commit tx'') = services (current tx')
               ∧ cars (commit tx'')
                 = match OrderReq.carId req with
                   | Some c => alter (λ _, {| Car.status := Car.RESERVED |}) c
                                 (cars (current tx'))
                   | None => cars (current tx')
                   end).
    { intros tx'' ->. by destruct (OrderReq.carId req). }
    destruct (Hfin _ eq_refl) as (F1 & F2 & F3 & F4 & F5 & F6 & F7).
    rewrite F1, F2, F3, F5, F6, F7, Hu, Hc, Ho, Hst, Hsv, Horders, Husers, Hcars, Hty, Hsvc.
    split; [reflexivity|]. split; [exact Hrowcar|]. split; [exact Hrowstatus|].
    split; [done|]. split; [done|]. split; [done|]. split; [done|].
    split. { rewrite <- Hitems. exact Hrows. }
    split.
    + intros Hdb. unfold stock_nonneg. rewrite F4. apply Hnn.
      unfold stock_nonneg. by rewrite Hparts.
    + intros Hex. eapply Hshort; [|done]. by rewrite Hparts.
  - left. by destruct Hsnap as [-> ->].
  - left. done.
Qed.

(** createOrder leaves the database alone whenever it fails. *)
Lemma createOrder_failed_unchanged `{rounding : Rounding}
    (req : OrderReq.t) (orderNumber : string) (db : DB) :
  failed (createOrder req orderNumber db).1 = true →
  (createOrder req orderNumber db).2 = db.
Proof.
  pose proof (createOrder_cases req orderNumber db) as H.
  destruct (createOrder req orderNumber db) as [r db']. simpl.
  destruct H as [[_ ->]|(oid & o & -> & _)]; done.
Qed.

(** C1. createOrder fails when the user, the car or a referenced spare part
    does not exist, when the given car is not AVAILABLE, and when an item
    asks for more than the stock its spare part has when the call is made;
    and whenever it fails, the database it leaves is the database it was
    called on: stocks, car statuses, orders and order items included. *)
Theorem createOrder_fails_without_effect `{rounding : Rounding}
    (req : OrderReq.t) (orderNumber : string) (db : DB) :
  ((OrderReq.userId req ∉ users db
    ∨ (∃ c, OrderReq.carId req = Some c ∧ cars db !! c = None)
    ∨ (∃ c car, OrderReq.carId req = Some c ∧ cars db !! c = Some car
                ∧ Car.status car ≠ Car.AVAILABLE)
    ∨ (∃ i, i ∈ OrderReq.items req
            ∧ spareParts db !! OrderReq.sparePartId i = None)
    ∨ (∃ i p, i ∈ OrderReq.items req
              ∧ spareParts db !! OrderReq.sparePartId i = Some p
              ∧ (SparePart.stock p < OrderReq.quantity i)%Z))
   → failed (createOrder req orderNumber db).1 = true)
  ∧ (failed (createOrder req orderNumber db).1 = true
     → (createOrder req orderNumber db).2 = db).
Proof.
  split; [|apply createOrder_failed_unchanged].
  pose proof (createOrder_cases req orderNumber db) as H.
  destruct (createOrder req orderNumber db) as [r db']. simpl.
  destruct H as [[Hf _]|(oid & o & -> & _ & Hu & Hcar & _ & _ & _ & _ & _ & _ & _ & _ & _ & _ & Hshort)];
    [done|].
  intros H. exfalso.
  destruct H as [?|[(c & Hc & Hn)|[(c & car & Hc & Hl & Hs)|[(i & Hi & Hn)|(i & p & Hi & Hp & Hlt)]]]].
  - done.
  - apply Hcar in Hc. congruence.
  - apply Hcar in Hc. rewrite Hl in Hc. injection Hc as ->. done.
  - apply Hshort, Exists_exists. exists i. split; [done|]. unfold short. by rewrite Hn.
  - apply Hshort, Exists_exists. exists i. split; [done|]. unfold short. by rewrite Hp.
Qed.

(** A stock failure on the second item, after the first item was written
    inside the transaction: the answer is the stock error and the database
    is the one the call started from. *)
Example createOrder_later_item_fails :
  createOrder (partsOrder [item 1 3 10; item 2 5 1]) "ORD-00000001-042" shop
  = (NotEnoughStock 2 5, shop).
Proof. vm_compute. reflexivity. Qed.

(** The rules of the route on the payment method and the addresses decide
    as well: a payment method outside the list and an address of white
    space are refused, and an address is stored trimmed. *)
Example createOrder_route_rules :
  createOrder (paidOrder "BITCOIN" "12 Main St") "ORD-00000001-042" shop
  = (ValidationFailed, shop)
  ∧ createOrder (paidOrder "CASH" "   ") "ORD-00000001-042" shop
    = (ValidationFailed, shop)
  ∧ (createOrder (paidOrder "CASH" "  12 Main St ") "ORD-00000001-042" shop).1
    = OrderCreated 1
  ∧ (Order.shippingAddress
       <$> orders (createOrder (paidOrder "CASH" "  12 Main St ")
                     "ORD-00000001-042" shop).2 !! 1%positive)
    = Some (Some "12 Main St"%string).
Proof. vm_compute. done. Qed.

(** ** Restocking *)

Lemma increment_increment (a b : Z) (x : option SparePart.t) :
  SparePart.increment b <$> (SparePart.increment a <$> x)
  = SparePart.increment (a + b) <$> x.
Proof.
  destruct x as [[s m]|]; [|done]. simpl.
  unfold SparePart.increment, SparePart.with_stock. simpl.
  do 2 f_equal. lia.
Qed.

Lemma increment_zero (x : option SparePart.t) : SparePart.increment 0 <$> x = x.
Proof.
  destruct x as [[s m]|]; [|done]. simpl.
  unfold SparePart.increment, SparePart.with_stock. simpl.
  do 2 f_equal. lia.
Qed.

Lemma spareParts_increment (by_ : Z) (id : positive) (db : DB) :
  spareParts (SparePart_increment by_ id db)
  = alter (SparePart.increment by_) id (spareParts db).
Proof. reflexivity. Qed.

(** The restock loop of updateOrderStatus writes spare parts only, and adds
    to each part the quantity the items hold of it. *)
Lemma restoreStock_spec (items : list OrderItem.t) :
  ∀ db,
    users (restoreStock items db) = users db
    ∧ cars (restoreStock items db) = cars db
    ∧ orders (restoreStock items db) = orders db
    ∧ orderItems (restoreStock items db) = orderItems db
    ∧ serviceTypes (restoreStock items db) = serviceTypes db
    ∧ services (restoreStock items db) = services db
    ∧ ∀ p, spareParts (restoreStock items db) !! p
           = SparePart.increment (quantity_of p items) <$> spareParts db !! p.
Proof.
  induction items as [|i rest IH]; intros db; simpl.
  { repeat split; try done. intros p. by rewrite increment_zero. }
  destruct (IH (match OrderItem.sparePartId i with
                | Some sparePartId =>
                    SparePart_increment (OrderItem.quantity i) sparePartId db
                | None => db
                end)) as (H1 & H2 & H3 & H4 & H5 & H6 & H7).
  rewrite H1, H2, H3, H4, H5, H6.
  repeat split; try by destruct (OrderItem.sparePartId i).
  intros p. rewrite H7.
  destruct (OrderItem.sparePartId i) as [q|].
  - rewrite spareParts_increment, lookup_alter. case_decide as Hqp.
    + subst q. rewrite bool_decide_eq_true_2 by done. apply increment_increment.
    + rewrite bool_decide_eq_false_2 by congruence. done.
  - rewrite bool_decide_eq_false_2 by done. done.
Qed.

Lemma restoreStock_spareParts (items : list OrderItem.t) (db1 db2 : DB) :
  spareParts db1 = spareParts db2 →
  spareParts (restoreStock items db1) = spareParts (restoreStock items db2).
Proof.
  intros H. apply map_eq. intros p.
  destruct (restoreStock_spec items db1) as (_ & _ & _ & _ & _ & _ & ->).
  destruct (restoreStock_spec items db2) as (_ & _ & _ & _ & _ & _ & ->).
  by rewrite H.
Qed.

Lemma quantity_of_nonneg (p : positive) (items : list OrderItem.t) :
  Forall (λ i, (1 ≤ OrderItem.quantity i)%Z) items → (0 ≤ quantity_of p items)%Z.
Proof.
  induction 1 as [|i rest Hi _ IH]; simpl; [done|].
  case_bool_decide; lia.
Qed.

Lemma stock_nonneg_increment (parts parts' : gmap positive SparePart.t)
    (total : positive → Z) :
  (∀ p, parts' !! p = SparePart.increment (total p) <$> parts !! p) →
  (∀ p, (0 ≤ total p)%Z) →
  (∀ id p, parts !! id = Some p → (0 ≤ SparePart.stock p)%Z) →
  ∀ id p, parts' !! id = Some p → (0 ≤ SparePart.stock p)%Z.
Proof.
  intros Hl Ht Hnn id p. rewrite Hl.
  destruct (parts !! id) as [q|] eqn:Hq; [|done]. simpl. intros [= <-].
  simpl. specialize (Hnn _ _ Hq). specialize (Ht id). lia.
Qed.

Lemma filter_items_valid (P : OrderItem.t → Prop) `{∀ i, Decision (P i)}
    (items : list OrderItem.t) :
  Forall (λ i, (1 ≤ OrderItem.quantity i)%Z) items →
  Forall (λ i, (1 ≤ OrderItem.quantity i)%Z) (filter P items).
Proof.
  rewrite !Forall_forall. intros Hall i [_ Hi]%list_elem_of_filter. by apply Hall.
Qed.

(** ** updateOrderStatus *)

Lemma restock_branch (status previousStatus : Order.Status) :
  String.eqb (Order.name status) "CANCELLED"
  && (String.eqb (Order.name previousStatus) "PENDING"
      || String.eqb (Order.name previousStatus) "PROCESSING")
  = restocks status previousStatus.
Proof. by destruct status, previousStatus. Qed.

(** The side effects of a status change, table by table. *)
Lemma statusChange_effects_spec (id : positive) (o : Order.t) (s : Order.Status)
    (tx : Transaction) :
  let tx' := statusChange_effects id o s tx in
  snapshot tx' = snapshot tx
  ∧ users (current tx') = users (current tx)
  ∧ orders (current tx') = orders (current tx)
  ∧ orderItems (current tx') = orderItems (current tx)
  ∧ serviceTypes (current tx') = serviceTypes (current tx)
  ∧ services (current tx') = services (current tx)
  ∧ cars (current tx')
    = match s, Order.carId o with
      | Order.DELIVERED, Some c =>
          alter (λ _, {| Car.status := Car.SOLD |}) c (cars (current tx))
      | _, _ => cars (current tx)
      end
  ∧ spareParts (current tx')
    = if restocks s (Order.status o)
      then spareParts (restoreStock (OrderItem_findAll id (current tx)) (current tx))
      else spareParts (current tx).
Proof.
  unfold statusChange_effects. rewrite restock_branch.
  set (tx1 := match Order.carId o with
              | Some carId => _
              | None => tx
              end).
  assert (snapshot tx1 = snapshot tx
          ∧ users (current tx1) = users (current tx)
          ∧ orders (current tx1) = orders (current tx)
          ∧ orderItems (current tx1) = orderItems (current tx)
          ∧ serviceTypes (current tx1) = serviceTypes (current tx)
          ∧ services (current tx1) = services (current tx)
          ∧ spareParts (current tx1) = spareParts (current tx)
          ∧ cars (current tx1)
            = match s, Order.carId o with
              | Order.DELIVERED, Some c =>
                  alter (λ _, {| Car.status := Car.SOLD |}) c (cars (current tx))
              | _, _ => cars (current tx)
              end) as (T0 & T1 & T2 & T3 & T4 & T5 & T6 & T7).
  { subst tx1. destruct (Order.carId o) as [c|]; [|by destruct s].
    rewrite carStatus_for_spec. by destruct s. }
  destruct (restocks s (Order.status o)); simpl; [|done].
  destruct (restoreStock_spec (OrderItem_findAll id (current tx1)) (current tx1))
    as (R1 & R2 & R3 & R4 & R5 & R6 & _).
  rewrite R1, R2, R3, R4, R5, R6.
  repeat split; try done.
  unfold OrderItem_findAll. rewrite T3. by apply restoreStock_spareParts.
Qed.

Lemma Order_update_no_keys (o : Order.t) (d : Order.UpdateData) :
  Order.has_keys d = false → Order.update o d = o.
Proof.
  destruct o, d as [[?|] [?|] [?|] [?|]]; by cbv.
Qed.

Lemma updateOrderStatus_not_found (id : positive) (req : StatusReq.t) (nowISO : string)
    (db : DB) :
  orders db !! id = None →
  updateOrderStatus id req nowISO db = (OrderNotFound, db).
Proof. unfold updateOrderStatus. simpl. by intros ->. Qed.

(** What updateOrderStatus does to an order it finds, table by table. *)
Lemma updateOrderStatus_spec (id : positive) (req : StatusReq.t) (nowISO : string)
    (db : DB) (o : Order.t) :
  orders db !! id = Some o →
  ∃ d db',
    updateOrderStatus id req nowISO db = (OrderUpdated, db')
    ∧ users db' = users db
    ∧ orderItems db' = orderItems db
    ∧ serviceTypes db' = serviceTypes db
    ∧ services db' = services db
    ∧ cars db'
      = (if changes_status req o then
           match StatusReq.status req, Order.carId o with
           | Some Order.DELIVERED, Some c =>
               alter (λ _, {| Car.status := Car.SOLD |}) c (cars db)
           | _, _ => cars db
           end
         else cars db)
    ∧ spareParts db'
      = (if changes_status req o
            && restocks (default (Order.status o) (StatusReq.status req))
                 (Order.status o)
         then spareParts (restoreStock (OrderItem_findAll id db) db)
         else spareParts db)
    ∧ orders db' = <[id := Order.update o d]> (orders db)
    ∧ Order.u_status d
      = (if changes_status req o then StatusReq.status req else None)
    ∧ Order.u_trackingNumber d
      = (if truthy (StatusReq.trackingNumber req)
         then StatusReq.trackingNumber req else None)
    ∧ Order.u_notes d
      = (if truthy (StatusReq.notes req)
         then Some (appendNote (Order.notes o)
                      (nowISO +:+ ": " +:+ text (StatusReq.notes req)))
         else None).
Proof.
  intros Ho. unfold updateOrderStatus, changes_status. simpl. rewrite Ho.
  set (effects :=
         match StatusReq.status req with
         | Some status =>
             if negb (Order.eqb status (Order.status o))
             then (Some status, statusChange_effects id o status (begin db))
             else (None, begin db)
         | None => (None, begin db)
         end).
  assert (∃ us tx1,
             effects = (us, tx1)
             ∧ us = match StatusReq.status req with
                    | Some s => if negb (Order.eqb s (Order.status o))
                                then Some s else None
                    | None => None
                    end
             ∧ users (current tx1) = users db
             ∧ orders (current tx1) = orders db
             ∧ orderItems (current tx1) = orderItems db
             ∧ serviceTypes (current tx1) = serviceTypes db
             ∧ services (current tx1) = services db
             ∧ cars (current tx1)
               = match StatusReq.status req with
                 | Some s =>
                     if negb (Order.eqb s (Order.status o)) then
                       match s, Order.carId o with
                       | Order.DELIVERED, Some c =>
                           alter (λ _, {| Car.status := Car.SOLD |}) c (cars db)
                       | _, _ => cars db
                       end
                     else cars db
                 | None => cars db
                 end
             ∧ spareParts (current tx1)
               = match StatusReq.status req with
                 | Some s =>
                     if negb (Order.eqb s (Order.status o))
                        && restocks s (Order.status o)
                     then spareParts (restoreStock (OrderItem_findAll id db) db)
                     else spareParts db
                 | None => spareParts db
                 end)
    as (us & tx1 & -> & Hus & E1 & E2 & E3 & E4 & E5 & E6 & E7).
  { subst effects. destruct (StatusReq.status req) as [s|]; [|by eexists _, _].
    destruct (negb (Order.eqb s (Order.status o))); [|by eexists _, _].
    destruct (statusChange_effects_spec id o s (begin db))
      as (_ & S1 & S2 & S3 & S4 & S5 & S6 & S7).
    eexists _, _. split; [reflexivity|]. simpl in *.
    rewrite S6, S7. repeat split; try done. }
  match goal with
  | |- context [Order.has_keys ?d] => set (updateData := d)
  end.
  exists updateData.
  assert (∀ tx2 : Transaction,
             tx2 = (if Order.has_keys updateData
                    then exec (with_orders (alter (λ o0, Order.update o0 updateData) id)) tx1
                    else tx1) →
             users (current tx2) = users (current tx1)
             ∧ orderItems (current tx2) = orderItems (current tx1)
             ∧ serviceTypes (current tx2) = serviceTypes (current tx1)
             ∧ services (current tx2) = services (current tx1)
             ∧ cars (current tx2) = cars (current tx1)
             ∧ spareParts (current tx2) = spareParts (current tx1)
             ∧ orders (current tx2) = <[id := Order.update o updateData]> (orders db))
    as Htx2.
  { intros tx2 ->. destruct (Order.has_keys updateData) eqn:Hk; simpl.
    - repeat split; try done. rewrite E2. apply map_eq. intros j.
      rewrite lookup_alter, lookup_insert. case_decide; [by rewrite Ho|done].
    - repeat split; try done. rewrite E2, Order_update_no_keys by done.
      by rewrite insert_id. }
  eexists. split; [reflexivity|].
  destruct (Htx2 _ eq_refl) as (F1 & F2 & F3 & F4 & F5 & F6 & F7).
  unfold commit. rewrite F1, F2, F3, F4, F5, F6, F7, E1, E3, E4, E5, E6, E7.
  repeat split; try done.
  - by destruct (StatusReq.status req) as [[]|].
  - destruct (StatusReq.status req) as [s|]; [|done]. simpl.
    by destruct (negb (Order.eqb s (Order.status o))).
  - simpl. rewrite Hus. by destruct (StatusReq.status req).
Qed.

(** ** cancelOrder *)

Lemma alter_missing {A} (f : A → A) (m : gmap positive A) (i : positive) :
  m !! i = None → alter f i m = m.
Proof.
  intros H. apply map_eq. intros j. rewrite lookup_alter.
  case_decide; [subst; by rewrite H|done].
Qed.

Lemma alter_as_insert {A} (f : A → A) (m : gmap positive A) (i : positive) (x : A) :
  m !! i = Some x → alter f i m = <[i := f x]> m.
Proof.
  intros H. apply map_eq. intros j. rewrite lookup_alter, lookup_insert.
  case_decide; [subst; by rewrite H|done].
Qed.

Lemma SparePart_increment_missing (by_ : Z) (id : positive) (db : DB) :
  spareParts db !! id = None → SparePart_increment by_ id db = db.
Proof.
  intros H. unfold SparePart_increment, with_spareParts.
  rewrite alter_missing by done. by destruct db.
Qed.

(** On the items as cancelOrder loads them, its restock loop does what the
    loop of updateOrderStatus does. *)
Lemma restoreStock_loaded_eq (parts0 : gmap positive SparePart.t)
    (items : list OrderItem.t) :
  ∀ db,
    (∀ q, parts0 !! q = None → spareParts db !! q = None) →
    restoreStock_loaded
      (map (λ i, (i, OrderItem.sparePartId i ≫= λ p, parts0 !! p)) items) db
    = restoreStock items db.
Proof.
  induction items as [|i rest IH]; intros db Hdb; simpl; [done|].
  destruct (OrderItem.sparePartId i) as [q|]; simpl; [|by apply IH].
  destruct (parts0 !! q) as [sp|] eqn:Hq.
  - apply IH. intros q' Hq'. rewrite spareParts_increment, lookup_alter.
    case_decide; [subst; by rewrite Hdb|by apply Hdb].
  - rewrite SparePart_increment_missing by (by apply Hdb). by apply IH.
Qed.

Lemma cancelOrder_not_found (id : positive) (reason : option string) (nowISO : string)
    (db : DB) :
  orders db !! id = None → cancelOrder id reason nowISO db = (OrderNotFound, db).
Proof. unfold cancelOrder. simpl. by intros ->. Qed.

Lemma cancel_guard (s : Order.Status) :
  String.eqb (Order.name s) "DELIVERED" || String.eqb (Order.name s) "CANCELLED"
  = match s with Order.DELIVERED | Order.CANCELLED => true | _ => false end.
Proof. by destruct s. Qed.

(** cancelOrder refuses a delivered or cancelled order and leaves the
    database alone. *)
Lemma cancelOrder_refused (id : positive) (reason : option string) (nowISO : string)
    (db : DB) (o : Order.t) :
  orders db !! id = Some o →
  Order.status o = Order.DELIVERED ∨ Order.status o = Order.CANCELLED →
  cancelOrder id reason nowISO db = (CannotCancelOrder (Order.status o), db).
Proof.
  intros Ho Hs. unfold cancelOrder. simpl. rewrite Ho, cancel_guard.
  by destruct Hs as [-> | ->].
Qed.

(** What cancelOrder does to any other order it finds, table by table. *)
Lemma cancelOrder_done (id : positive) (reason : option string) (nowISO : string)
    (db : DB) (o : Order.t) :
  orders db !! id = Some o →
  Order.status o ≠ Order.DELIVERED → Order.status o ≠ Order.CANCELLED →
  ∃ db',
    cancelOrder id reason nowISO db = (OrderCancelled, db')
    ∧ users db' = users db
    ∧ orderItems db' = orderItems db
    ∧ serviceTypes db' = serviceTypes db
    ∧ services db' = services db
    ∧ orders db'
      = <[id := Order.update o
                  {| Order.u_status := Some Order.CANCELLED;
                     Order.u_paymentStatus := None;
                     Order.u_trackingNumber := None;
                     Order.u_notes :=
                       Some (appendNote (Order.notes o)
                               ("CANCELLED on " +:+ nowISO +:+ ": "
                                +:+ or_else reason "No reason provided")) |}]>
          (orders db)
    ∧ cars db'
      = match Order.carId o with
        | Some c => alter (λ _, {| Car.status := Car.AVAILABLE |}) c (cars db)
        | None => cars db
        end
    ∧ spareParts db' = spareParts (restoreStock (OrderItem_findAll id db) db).
Proof.
  intros Ho Hd Hc. unfold cancelOrder. simpl. rewrite Ho, cancel_guard.
  assert (match Order.status o with
          | Order.DELIVERED | Order.CANCELLED => true
          | _ => false
          end = false) as -> by (by destruct (Order.status o)).
  eexists; split; [reflexivity|].
  match goal with
  | |- context [exec (with_orders ?f) (begin db)] =>
      set (tx1 := exec (with_orders f) (begin db))
  end.
  set (tx2 := match Order.carId o with Some _ => _ | None => _ end).
  assert (users (current tx2) = users db
          ∧ orderItems (current tx2) = orderItems db
          ∧ serviceTypes (current tx2) = serviceTypes db
          ∧ services (current tx2) = services db
          ∧ orders (current tx2) = orders (current tx1)
          ∧ spareParts (current tx2) = spareParts db
          ∧ cars (current tx2)
            = match Order.carId o with
              | Some c => alter (λ _, {| Car.status := Car.AVAILABLE |}) c (cars db)
              | None => cars db
              end) as (D1 & D2 & D3 & D4 & D5 & D6 & D7).
  { subst tx2. destruct (Order.carId o) as [c|]; simpl; [|done].
    destruct (cars db !! c) as [car|] eqn:Hcar; simpl; [done|].
    repeat split; try done. by rewrite alter_missing. }
  match goal with
  | |- context [if ?b then exec (restoreStock_loaded ?l) tx2 else tx2] =>
      assert ((if b then exec (restoreStock_loaded l) tx2 else tx2)
              = exec (restoreStock_loaded l) tx2) as ->
  end.
  { unfold load_items. destruct (OrderItem_findAll id db); [by destruct tx2|done]. }
  unfold load_items, commit. simpl.
  rewrite restoreStock_loaded_eq by (intros q Hq; by rewrite D6).
  destruct (restoreStock_spec (OrderItem_findAll id db) (current tx2))
    as (R1 & R2 & R3 & R4 & R5 & R6 & _).
  rewrite R1, R2, R3, R4, R5, R6, D1, D2, D3, D4, D5, D7.
  repeat split; try done.
  - subst tx1. simpl. apply map_eq. intros j.
    rewrite lookup_alter, lookup_insert. case_decide; [by rewrite Ho|done].
  - by apply restoreStock_spareParts.
Qed.


Example shop1_state :
  cars shop1 !! 1%positive = Some {| Car.status := Car.RESERVED |}
  ∧ spareParts shop1 !! 1%positive
    = Some {| SparePart.stock := 2; SparePart.minStockLevel := 5 |}
  ∧ spareParts shop1 !! 2%positive
    = Some {| SparePart.stock := 1; SparePart.minStockLevel := 1 |}.
Proof. vm_compute. done. Qed.



(** Old notes are kept, with an empty line before the new entry. *)
Example cancelOrder_appends_to_notes :
  let db := with_orders (alter (λ o, Order.update o
                                        {| Order.u_status := None;
                                           Order.u_paymentStatus := None;
                                           Order.u_trackingNumber := None;
                                           Order.u_notes := Some "gift"%string |})
                              1%positive)
              shop1 in
  (Order.notes <$> orders (cancelOrder 1 None stamp db).2 !! 1%positive)
  = Some (Some ("gift" +:+ nl +:+ nl
                +:+ "CANCELLED on 2024-05-01T10:00:00.000Z: No reason provided")%string).
Proof. vm_compute. reflexivity. Qed.

(** ** Stock never goes negative *)

Lemma stock_nonneg_ext (db db' : DB) :
  spareParts db' = spareParts db → stock_nonneg db → stock_nonneg db'.
Proof. unfold stock_nonneg. by intros ->. Qed.

Lemma restoreStock_stock_nonneg (id : positive) (db db' : DB) :
  spareParts db' = spareParts (restoreStock (OrderItem_findAll id db) db) →
  items_valid db → stock_nonneg db → stock_nonneg db'.
Proof.
  intros Hparts Hitems Hnn. unfold stock_nonneg. rewrite Hparts.
  destruct (restoreStock_spec (OrderItem_findAll id db) db)
    as (_ & _ & _ & _ & _ & _ & Hl).
  eapply stock_nonneg_increment; [exact Hl| |exact Hnn].
  intros p. apply quantity_of_nonneg. by apply filter_items_valid.
Qed.

Lemma createOrder_invariant `{rounding : Rounding}
    (req : OrderReq.t) (orderNumber : string) (db : DB) :
  stock_nonneg db → items_valid db →
  stock_nonneg (createOrder req orderNumber db).2
  ∧ items_valid (createOrder req orderNumber db).2.
Proof.
  intros Hnn Hitems. pose proof (createOrder_cases req orderNumber db) as H.
  destruct (createOrder req orderNumber db) as [r db']. simpl.
  destruct H as [[_ ->]|(oid & o & _ & H)]; [done|].
  destruct H as (_ & _ & _ & _ & _ & _ & _ & _ & _ & _ & _ & (rows & Hrows & _ & Hq) & Hs & _).
  split; [by apply Hs|]. unfold items_valid. rewrite Hrows.
  by apply Forall_app.
Qed.

Lemma updateOrderStatus_invariant (id : positive) (req : StatusReq.t)
    (nowISO : string) (db : DB) :
  stock_nonneg db → items_valid db →
  stock_nonneg (updateOrderStatus id req nowISO db).2
  ∧ items_valid (updateOrderStatus id req nowISO db).2.
Proof.
  intros Hnn Hitems. destruct (orders db !! id) as [o|] eqn:Ho.
  - destruct (updateOrderStatus_spec id req nowISO db o Ho)
      as (d & db' & -> & _ & Hi & _ & _ & _ & Hparts & _).
    simpl. split; [|unfold items_valid; by rewrite Hi].
    destruct (_ && _) in Hparts.
    + by eapply restoreStock_stock_nonneg.
    + by eapply stock_nonneg_ext.
  - by rewrite updateOrderStatus_not_found.
Qed.

Lemma cancelOrder_cases (id : positive) (reason : option string) (nowISO : string)
    (db : DB) :
  (failed (cancelOrder id reason nowISO db).1 = true
   ∧ (cancelOrder id reason nowISO db).2 = db)
  ∨ (∃ o, orders db !! id = Some o
          ∧ (cancelOrder id reason nowISO db).1 = OrderCancelled
          ∧ orderItems (cancelOrder id reason nowISO db).2 = orderItems db
          ∧ spareParts (cancelOrder id reason nowISO db).2
            = spareParts (restoreStock (OrderItem_findAll id db) db)).
Proof.
  destruct (orders db !! id) as [o|] eqn:Ho.
  - destruct (decide (Order.status o = Order.DELIVERED ∨ Order.status o = Order.CANCELLED))
      as [Hterm|Hlive].
    + left. by rewrite (cancelOrder_refused _ _ _ _ _ Ho Hterm).
    + right. destruct (cancelOrder_done id reason nowISO db o Ho)
        as (db' & -> & _ & Hi & _ & _ & _ & _ & Hparts).
      { intros ?. apply Hlive. by left. }
      { intros ?. apply Hlive. by right. }
      by exists o.
  - left. by rewrite cancelOrder_not_found.
Qed.

Lemma cancelOrder_invariant (id : positive) (reason : option string)
    (nowISO : string) (db : DB) :
  stock_nonneg db → items_valid db →
  stock_nonneg (cancelOrder id reason nowISO db).2
  ∧ items_valid (cancelOrder id reason nowISO db).2.
Proof.
  intros Hnn Hitems.
  destruct (cancelOrder_cases id reason nowISO db) as [[_ ->]|(o & _ & _ & Hi & Hparts)];
    [done|].
  split; [by eapply restoreStock_stock_nonneg|].
  unfold items_valid. by rewrite Hi.
Qed.

(** What [sparePart.update] stores of a number: a stock that is not
    negative, the integer the column makes of the number. *)
Lemma update_number_Some `{rounding : Rounding} (sp sp' : SparePart.t) (s : Q) :
  SparePart.update_number sp s = Some sp' →
  (0 <= s)%Q
  ∧ (∃ z, INT s = Some z
          ∧ sp' = {| SparePart.stock := z;
                     SparePart.minStockLevel := SparePart.minStockLevel sp |})
  ∧ (0 ≤ SparePart.stock sp')%Z.
Proof.
  unfold SparePart.update_number.
  destruct (Qle_bool 0 s) eqn:Hs; [|done]. apply Qle_bool_iff in Hs.
  destruct (INT s) as [z|] eqn:Hz; [|done]. simpl. intros [= <-].
  split; [done|]. split; [by exists z|]. simpl. by eapply INT_nonneg.
Qed.

Lemma adjustStock_invariant `{rounding : Rounding} (id : positive) (quantity : Q)
    (operation : string) (db : DB) :
  stock_nonneg db → items_valid db →
  stock_nonneg (adjustStock id quantity operation db).2
  ∧ items_valid (adjustStock id quantity operation db).2.
Proof.
  intros Hnn Hitems. unfold adjustStock.
  destruct (negb _); [done|].
  destruct (Qle_bool quantity 0); [done|].
  destruct (spareParts db !! id) as [p|] eqn:Hp; [|done].
  destruct (if String.eqb operation "add" then _ else _) as [newStock|]; [|done].
  destruct (SparePart.update_number p newStock) as [p'|] eqn:Hup; [|done]. simpl.
  apply update_number_Some in Hup as (_ & _ & Hstock).
  split; [|done]. intros j q. simpl.
  rewrite lookup_insert. case_decide.
  - by intros [= <-].
  - apply Hnn.
Qed.

Lemma step_invariant `{rounding : Rounding} (op : Op) (db : DB) :
  stock_nonneg db → items_valid db →
  stock_nonneg (step op db).2 ∧ items_valid (step op db).2.
Proof.
  destruct op; simpl.
  - apply createOrder_invariant.
  - apply updateOrderStatus_invariant.
  - apply cancelOrder_invariant.
  - apply adjustStock_invariant.
Qed.

(** C4, counterexample: stock can go negative from a database
    in which no stock is negative. The restock loops add the quantities the
    stored order items hold, through [SparePart.increment], which runs no
    validator, and the table [order_items] has no CHECK on [quantity]: in
    [returnsShop] the PENDING order 1 holds a row of -3 units of spare part
    2, whose stock is 2, and cancelling the order leaves that stock at
    -1. *)
Lemma cancelOrder_negative_quantity :
  stock_nonneg returnsShop
  ∧ (cancelOrder 1 None stamp returnsShop).1 = OrderCancelled
  ∧ (SparePart.stock
       <$> spareParts (cancelOrder 1 None stamp returnsShop).2 !! 2%positive)
    = Some (-1)%Z
  ∧ ¬ stock_nonneg (cancelOrder 1 None stamp returnsShop).2
  ∧ ∀ rounding : Rounding, ¬ spec_stock_never_negative.
Proof.
  assert (stock_nonneg returnsShop) as Hnn.
  { apply (bool_decide_unpack
             (map_Forall (λ _ p, (0 ≤ SparePart.stock p)%Z) (spareParts returnsShop))).
    vm_compute. exact I. }
  assert ((SparePart.stock
             <$> spareParts (cancelOrder 1 None stamp returnsShop).2 !! 2%positive)
          = Some (-1)%Z) as Hstock by (vm_compute; reflexivity).
  assert (¬ stock_nonneg (cancelOrder 1 None stamp returnsShop).2) as Hneg.
  { intros H.
    destruct (spareParts (cancelOrder 1 None stamp returnsShop).2 !! 2%positive)
      as [p|] eqn:Hp; [|done].
    apply H in Hp. injection Hstock as Hstock. lia. }
  split; [exact Hnn|]. split; [vm_compute; reflexivity|]. split; [exact Hstock|].
  split; [exact Hneg|].
  intros rounding Hspec. apply Hneg.
  specialize (Hspec [CancelOrder 1 None stamp] returnsShop Hnn).
  by apply Forall_cons in Hspec as [Hspec _].
Qed.

(** C4, amended. From a database in which no stock is negative and every
    stored order item has a quantity of at least 1 (the [min: 1] rule of
    the OrderItem model, kept by every row the handlers write), no stock is
    negative after any operation of any sequence of createOrder,
    updateOrderStatus, cancelOrder and adjustStock calls, whether the
    operation succeeds or fails, and however the arithmetic of adjustStock
    rounds. *)
Theorem stock_never_negative `{rounding : Rounding} (ops : list Op) (db : DB) :
  stock_nonneg db → items_valid db → Forall stock_nonneg (trace ops db).
Proof.
  revert db. induction ops as [|op rest IH]; intros db Hnn Hitems; simpl; [done|].
  destruct (step_invariant op db Hnn Hitems) as [Hnn' Hitems'].
  constructor; [done|]. by apply IH.
Qed.

Lemma stock_never_negative_witness :
  let ops :=
    [CreateOrder mixedOrder "ORD-00000001-042";
     AdjustStock 1 2 "subtract";
     AdjustStock 1 1 "subtract";
     AdjustStock 2 (1 # 2) "add";
     CreateOrder (partsOrder [item 2 1 5; item 2 1 5]) "ORD-00000002-007";
     UpdateOrderStatus 1 (setStatus Order.CANCELLED) stamp;
     CancelOrder 1 None stamp;
     CancelOrder 2 None stamp] in
  stock_nonneg shop ∧ items_valid shop ∧ Forall stock_nonneg (trace ops shop).
Proof.
  intros ops.
  assert (stock_nonneg shop) as Hnn.
  { apply (bool_decide_unpack
             (map_Forall (λ _ p, (0 ≤ SparePart.stock p)%Z) (spareParts shop))).
    vm_compute. exact I. }
  assert (items_valid shop) as Hitems by constructor.
  split; [exact Hnn|]. split; [exact Hitems|].
  apply (stock_never_negative ops shop Hnn Hitems).
Defined.

(** ** Repeating a status *)

(** C6. A call of updateOrderStatus whose target status is the status the
    order already has (such as DELIVERED after DELIVERED, or CANCELLED after
    CANCELLED) changes no spare-part stock and no car status, and leaves the
    order's status as it is; when the request carries nothing but the
    status, the whole database is unchanged. *)
Theorem updateOrderStatus_same_status (id : positive) (req : StatusReq.t)
    (nowISO : string) (db : DB) (o : Order.t) :
  orders db !! id = Some o →
  StatusReq.status req = Some (Order.status o) →
  let db' := (updateOrderStatus id req nowISO db).2 in
  spareParts db' = spareParts db
  ∧ cars db' = cars db
  ∧ orderItems db' = orderItems db
  ∧ (∃ o', orders db' !! id = Some o' ∧ Order.status o' = Order.status o)
  ∧ (StatusReq.paymentStatus req = None →
     truthy (StatusReq.trackingNumber req) = false →
     truthy (StatusReq.notes req) = false →
     db' = db).
Proof.
  intros Ho Hs db'. subst db'.
  assert (changes_status req o = false) as Hch.
  { unfold changes_status. by rewrite Hs, Order_eqb_refl. }
  split_and!.
  - destruct (updateOrderStatus_spec id req nowISO db o Ho)
      as (d & db' & -> & _ & _ & _ & _ & _ & Hparts & _).
    simpl. by rewrite Hparts, Hch.
  - destruct (updateOrderStatus_spec id req nowISO db o Ho)
      as (d & db' & -> & _ & _ & _ & _ & Hcars & _).
    simpl. by rewrite Hcars, Hch.
  - by destruct (updateOrderStatus_spec id req nowISO db o Ho)
      as (d & db' & -> & _ & Hi & _).
  - destruct (updateOrderStatus_spec id req nowISO db o Ho)
      as (d & db' & -> & _ & _ & _ & _ & _ & _ & Hord & Hus & _).
    simpl. eexists. rewrite Hord, lookup_insert_eq. split; [done|].
    simpl. by rewrite Hus, Hch.
  - intros Hp Ht Hn. unfold updateOrderStatus. simpl.
    by rewrite Ho, Hs, Order_eqb_refl, Hp, Ht, Hn.
Qed.

Lemma updateOrderStatus_same_status_witness :
  let db := (updateOrderStatus 1 (setStatus Order.CANCELLED) stamp shop1).2 in
  let o := Order.update order1
             {| Order.u_status := Some Order.CANCELLED;
                Order.u_paymentStatus := None;
                Order.u_trackingNumber := None;
                Order.u_notes := None |} in
  let req := setStatus Order.CANCELLED in
  orders db !! 1%positive = Some o
  ∧ StatusReq.status req = Some (Order.status o)
  ∧ (let db' := (updateOrderStatus 1 req stamp db).2 in
     spareParts db' = spareParts db
     ∧ cars db' = cars db
     ∧ orderItems db' = orderItems db
     ∧ (∃ o', orders db' !! 1%positive = Some o' ∧ Order.status o' = Order.status o)
     ∧ (StatusReq.paymentStatus req = None →
        truthy (StatusReq.trackingNumber req) = false →
        truthy (StatusReq.notes req) = false →
        db' = db)).
Proof.
  intros db o req.
  split; [vm_compute; reflexivity|]. split; [reflexivity|].
  apply (updateOrderStatus_same_status 1 req stamp db o).
  - vm_compute; reflexivity.
  - reflexivity.
Defined.

(** The same in the words of the specification: after a first call with a
    target status, a second call with that target changes no stock and no
    car. *)
Lemma updateOrderStatus_twice (id : positive) (req1 req2 : StatusReq.t)
    (t1 t2 : string) (db : DB) (s : Order.Status) :
  StatusReq.status req1 = Some s → StatusReq.status req2 = Some s →
  let db1 := (updateOrderStatus id req1 t1 db).2 in
  let db2 := (updateOrderStatus id req2 t2 db1).2 in
  spareParts db2 = spareParts db1 ∧ cars db2 = cars db1.
Proof.
  intros H1 H2 db1 db2. subst db1 db2.
  destruct (orders db !! id) as [o|] eqn:Ho.
  - destruct (updateOrderStatus_spec id req1 t1 db o Ho)
      as (d & db1 & -> & _ & _ & _ & _ & _ & _ & Hord & Hus & _).
    simpl.
    assert (orders db1 !! id = Some (Order.update o d)) as Ho1.
    { by rewrite Hord, lookup_insert_eq. }
    assert (Order.status (Order.update o d) = s) as Hs1.
    { simpl. rewrite Hus. unfold changes_status. rewrite H1.
      destruct (Order.eqb s (Order.status o)) eqn:He; simpl; [|done].
      by apply Order_eqb_eq in He. }
    destruct (updateOrderStatus_spec id req2 t2 db1 _ Ho1)
      as (d2 & db2 & -> & _ & _ & _ & _ & Hcars & Hparts & _).
    simpl.
    assert (changes_status req2 (Order.update o d) = false) as Hch.
    { unfold changes_status. by rewrite H2, Hs1, Order_eqb_refl. }
    by rewrite Hcars, Hparts, Hch.
  - rewrite (updateOrderStatus_not_found _ _ _ _ Ho). simpl.
    by rewrite (updateOrderStatus_not_found _ _ _ _ Ho).
Qed.

(** ** The frame of updateOrderStatus *)

Lemma truthy_false_text (s : option string) : truthy s = false → text s = ""%string.
Proof.
  destruct s as [s|]; simpl; [|done].
  destruct (String.eqb s "") eqn:He; [|done]. by apply String.eqb_eq in He.
Qed.

(** A note is appended: the old text is kept in front. *)
Lemma appendNote_extends (old : option string) (entry : string) :
  ∃ suffix, appendNote old entry = text old +:+ suffix.
Proof.
  unfold appendNote. destruct (truthy old) eqn:Ht.
  - by eexists.
  - exists entry. by rewrite truthy_false_text.
Qed.

(** C10. updateOrderStatus writes no order but the one it is called on, and
    of that one only status, paymentStatus, trackingNumber and notes, the
    notes by appending a timestamped entry to the old text; it writes no
    order item; and it changes spare parts only when the target is
    CANCELLED and the order was PENDING or PROCESSING. *)
Theorem updateOrderStatus_frame (id : positive) (req : StatusReq.t)
    (nowISO : string) (db : DB) :
  let db' := (updateOrderStatus id req nowISO db).2 in
  orderItems db' = orderItems db
  ∧ users db' = users db
  ∧ (∀ j, j ≠ id → orders db' !! j = orders db !! j)
  ∧ (orders db !! id = None → db' = db)
  ∧ (∀ o, orders db !! id = Some o →
       ∃ o', orders db' !! id = Some o'
         ∧ Order.orderNumber o' = Order.orderNumber o
         ∧ Order.userId o' = Order.userId o
         ∧ Order.carId o' = Order.carId o
         ∧ Order.totalAmount o' = Order.totalAmount o
         ∧ Order.discountAmount o' = Order.discountAmount o
         ∧ Order.taxAmount o' = Order.taxAmount o
         ∧ Order.shippingCost o' = Order.shippingCost o
         ∧ Order.paymentMethod o' = Order.paymentMethod o
         ∧ Order.shippingAddress o' = Order.shippingAddress o
         ∧ Order.billingAddress o' = Order.billingAddress o
         ∧ Order.shippingMethod o' = Order.shippingMethod o
         ∧ (Order.notes o' = Order.notes o
            ∨ (truthy (StatusReq.notes req) = true
               ∧ Order.notes o'
                 = Some (appendNote (Order.notes o)
                           (nowISO +:+ ": " +:+ text (StatusReq.notes req)))
               ∧ ∃ suffix, text (Order.notes o') = text (Order.notes o) +:+ suffix)))
  ∧ (spareParts db' ≠ spareParts db →
     ∃ o, orders db !! id = Some o
          ∧ StatusReq.status req = Some Order.CANCELLED
          ∧ (Order.status o = Order.PENDING ∨ Order.status o = Order.PROCESSING)).
Proof.
  intros db'. subst db'.
  destruct (orders db !! id) as [o|] eqn:Ho.
  - destruct (updateOrderStatus_spec id req nowISO db o Ho)
      as (d & db' & -> & Hu & Hi & _ & _ & _ & Hparts & Hord & Hus & _ & Hun).
    simpl. split_and!; try done.
    + intros j Hj. by rewrite Hord, lookup_insert_ne.
    + intros o0 [= <-]. eexists. rewrite Hord, lookup_insert_eq.
      split; [done|]. split_and!; try done.
      simpl. rewrite Hun. destruct (truthy (StatusReq.notes req)); [|by left].
      right. split; [done|]. split; [done|]. simpl. apply appendNote_extends.
    + intros Hne. exists o. split; [done|].
      unfold changes_status in Hparts.
      destruct (StatusReq.status req) as [s|]; simpl in Hparts; [|done].
      destruct (negb (Order.eqb s (Order.status o))); simpl in Hparts; [|done].
      destruct s, (Order.status o); simpl in Hparts; try done; eauto.
  - rewrite (updateOrderStatus_not_found _ _ _ _ Ho). simpl.
    split_and!; done.
Qed.

(** ** Orders and the status of their car *)

(** updateOrderStatus sets a car to SOLD or leaves it alone: it never makes
    a car AVAILABLE, since the guard of that branch compares the order's
    previous status with the car status RESERVED. *)
Lemma updateOrderStatus_never_frees_car (id : positive) (req : StatusReq.t)
    (nowISO : string) (db : DB) (c : positive) :
  cars (updateOrderStatus id req nowISO db).2 !! c
  = Some {| Car.status := Car.AVAILABLE |} →
  cars db !! c = Some {| Car.status := Car.AVAILABLE |}.
Proof.
  destruct (orders db !! id) as [o|] eqn:Ho.
  - destruct (updateOrderStatus_spec id req nowISO db o Ho)
      as (d & db' & -> & _ & _ & _ & _ & Hcars & _).
    simpl. rewrite Hcars.
    destruct (changes_status req o); [|done].
    destruct (StatusReq.status req) as [[]|]; try done.
    destruct (Order.carId o) as [c'|]; [|done].
    rewrite lookup_alter. case_decide; [|done].
    by destruct (cars db !! c').
  - by rewrite updateOrderStatus_not_found.
Qed.


(** C3, at the failing input: order 1 of [shop1] is PENDING and holds the
    car, RESERVED for it, and three units of part 1 and one of part 2;
    updateOrderStatus to CANCELLED cancels the order and gives the stock
    back (5 and 2 again), but the car is still RESERVED. *)
Theorem updateOrderStatus_cancel_leaves_car_reserved :
  orders shop1 !! 1%positive = Some order1
  ∧ cars shop1 !! 1%positive = Some {| Car.status := Car.RESERVED |}
  ∧ (let db' := (updateOrderStatus 1 (setStatus Order.CANCELLED) stamp shop1).2 in
     (Order.status <$> orders db' !! 1%positive) = Some Order.CANCELLED
     ∧ (SparePart.stock <$> spareParts db' !! 1%positive) = Some 5%Z
     ∧ (SparePart.stock <$> spareParts db' !! 2%positive) = Some 2%Z
     ∧ cars db' !! 1%positive = Some {| Car.status := Car.RESERVED |}).
Proof. vm_compute. repeat split. Qed.



(** The four parts of the amended C2 on the sample shop. *)
Example order_car_status_sample :
  let db1 := (createOrder carOrder "ORD-00000001-042" shop).2 in
  cars db1 !! 1%positive = Some {| Car.status := Car.RESERVED |}
  ∧ cars (updateOrderStatus 1 (setStatus Order.PROCESSING) stamp db1).2 = cars db1
  ∧ cars (updateOrderStatus 1 (setStatus Order.DELIVERED) stamp db1).2 !! 1%positive
    = Some {| Car.status := Car.SOLD |}
  ∧ cars (cancelOrder 1 None stamp db1).2 !! 1%positive
    = Some {| Car.status := Car.AVAILABLE |}.
Proof. vm_compute. repeat split. Qed.

(** The example of the specification: an order for an AVAILABLE car is
    PENDING and the car RESERVED; delivering it makes the car SOLD; cancelling
    the delivered order is refused. *)
Example deliver_then_cancel :
  let db1 := (createOrder carOrder "ORD-00000001-042" shop).2 in
  let db2 := (updateOrderStatus 1 (setStatus Order.DELIVERED) stamp db1).2 in
  (Order.status <$> orders db1 !! 1%positive) = Some Order.PENDING
  ∧ cars db1 !! 1%positive = Some {| Car.status := Car.RESERVED |}
  ∧ cars db2 !! 1%positive = Some {| Car.status := Car.SOLD |}
  ∧ cancelOrder 1 None stamp db2 = (CannotCancelOrder Order.DELIVERED, db2).
Proof. vm_compute. repeat split. Qed.

(** The example of the specification: with stock 5, subtracting 1 leaves
    4; the answer gives 5 as previous and 4 as current stock. What the
    handler does about a stock at or below the minimum is a line in its
    log. *)
Example adjustStock_subtract_one :
  (∃ previousStock currentStock,
     (adjustStock 1 1 "subtract" shop).1 = StockAdjusted previousStock currentStock
     ∧ (previousStock == 5)%Q ∧ (currentStock == 4)%Q)
  ∧ spareParts (adjustStock 1 1 "subtract" shop).2 !! 1%positive
    = Some {| SparePart.stock := 4; SparePart.minStockLevel := 5 |}.
Proof.
  split; [|vm_compute; reflexivity].
  eexists _, _. split; [vm_compute; reflexivity|]. split; vm_compute; reflexivity.
Qed.

(** ** Service scheduler *)

Lemma includes_validTransitions (a b : Service.Status) :
  includes (validTransitions a) b = true ↔ spec_edge a b.
Proof.
  unfold spec_edge. destruct a, b; vm_compute; split; intros H; try done;
    try (by left; eauto); try (by right; eauto);
    destruct H as [[? [?|?]]|[? [?|?]]]; congruence.
Qed.

Lemma Service_findOne_None (where_ : positive * Service.t → bool) (db : DB) :
  Service_findOne where_ db = None
  ↔ ∀ id s, services db !! id = Some s → where_ (id, s) = false.
Proof.
  unfold Service_findOne. split.
  - intros H id s Hs. eapply find_none in H; [exact H|].
    apply list_elem_of_In. by apply elem_of_map_to_list.
  - intros H. destruct (find where_ _) as [[id s]|] eqn:Hf; [|done].
    apply find_some in Hf as [Hin Hw].
    apply list_elem_of_In, elem_of_map_to_list in Hin.
    rewrite (H _ _ Hin) in Hw. done.
Qed.

Lemma Service_findOne_Some (where_ : positive * Service.t → bool) (db : DB)
    (row : positive * Service.t) :
  Service_findOne where_ db = Some row →
  services db !! row.1 = Some row.2 ∧ where_ row = true.
Proof.
  unfold Service_findOne. intros [Hin Hw]%find_some. split; [|done].
  apply list_elem_of_In in Hin. destruct row. by apply elem_of_map_to_list.
Qed.

Lemma active_name (s : Service.Status) :
  String.eqb (Service.name s) "SCHEDULED" || String.eqb (Service.name s) "IN_PROGRESS"
  = true
  ↔ s = Service.SCHEDULED ∨ s = Service.IN_PROGRESS.
Proof.
  destruct s; cbn; split; intros H; try done; eauto; destruct H; congruence.
Qed.

Lemma conflicts_None (t : Z) (id : positive) (s : Service.t) :
  conflicts None t (id, s) = true ↔ in_conflict t s.
Proof.
  unfold conflicts, in_conflict, twoHours. cbn [fst snd andb].
  rewrite !andb_true_iff, active_name, !Z.leb_le.
  change (2 * 60 * 60 * 1000)%Z with 7200000%Z. tauto.
Qed.

(** Every way createService can end. *)
Lemma createService_cases (req : ServiceReq.t) (now : Z) (db : DB) :
  let '(r, db') := createService req now db in
  (failed r = true ∧ db' = db)
  ∨ (∃ id s,
       r = NoResponse
       ∧ services db !! id = None
       ∧ services db' = <[id := s]> (services db)
       ∧ Service.status s = default Service.SCHEDULED (ServiceReq.status req)
       ∧ Service.scheduledDate s = ServiceReq.scheduledDate req
       ∧ (now ≤ ServiceReq.scheduledDate req)%Z
       ∧ ∀ j x, services db !! j = Some x →
                ¬ in_conflict (ServiceReq.scheduledDate req) x).
Proof.
  unfold createService.
  destruct (ServiceReq.validationResult req); simpl; [|by left].
  case_bool_decide; simpl; [|by left].
  destruct (cars db !! ServiceReq.carId req) as [car|]; [|by left].
  destruct (serviceTypes db !! ServiceReq.serviceTypeId req) as [ty|]; [|by left].
  destruct (ServiceReq.scheduledDate req <? now)%Z eqn:Hlt; [by left|].
  destruct (Service_findOne _ db) as [row|] eqn:Hfind; [by left|].
  right. simpl. eexists _, _. split; [reflexivity|].
  split; [apply not_elem_of_dom, is_fresh|].
  split; [reflexivity|]. split; [done|]. split; [done|].
  split; [by apply Z.ltb_ge|].
  intros j x Hx Hc. apply conflicts_None with (id := j) in Hc.
  rewrite Service_findOne_None in Hfind. rewrite (Hfind _ _ Hx) in Hc. done.
Qed.

(** createService on existing references: a date before now is refused, a
    date from now on is refused exactly when an active appointment lies
    within two hours of it, and is booked otherwise; a call that books gets
    no answer. *)
Lemma createService_outcome (req : ServiceReq.t) (now : Z) (db : DB) :
  ServiceReq.validationResult req = true →
  ServiceReq.userId req ∈ users db →
  is_Some (cars db !! ServiceReq.carId req) →
  is_Some (serviceTypes db !! ServiceReq.serviceTypeId req) →
  ((ServiceReq.scheduledDate req < now)%Z →
   createService req now db = (DateNotInFuture, db))
  ∧ ((now ≤ ServiceReq.scheduledDate req)%Z →
     (∃ j x, services db !! j = Some x
             ∧ in_conflict (ServiceReq.scheduledDate req) x) →
     createService req now db = (ScheduleConflict, db))
  ∧ ((now ≤ ServiceReq.scheduledDate req)%Z →
     (∀ j x, services db !! j = Some x →
             ¬ in_conflict (ServiceReq.scheduledDate req) x) →
     ∃ id s, createService req now db = (NoResponse, with_services (insert id s) db)
             ∧ services db !! id = None
             ∧ Service.scheduledDate s = ServiceReq.scheduledDate req
             ∧ Service.status s = default Service.SCHEDULED (ServiceReq.status req)).
Proof.
  intros Hval Hu [car Hcar] [ty Hty]. unfold createService.
  rewrite Hval. simpl. rewrite bool_decide_eq_true_2 by done. simpl.
  rewrite Hcar, Hty. split_and!.
  - intros Hlt. apply Z.ltb_lt in Hlt. by rewrite Hlt.
  - intros Hge (j & x & Hx & Hc). apply Z.ltb_ge in Hge. rewrite Hge.
    destruct (Service_findOne _ db) as [row|] eqn:Hfind; [done|].
    rewrite Service_findOne_None in Hfind.
    apply conflicts_None with (id := j) in Hc. rewrite (Hfind _ _ Hx) in Hc. done.
  - intros Hge Hno. apply Z.ltb_ge in Hge. rewrite Hge.
    destruct (Service_findOne _ db) as [[j x]|] eqn:Hfind.
    + apply Service_findOne_Some in Hfind as [Hx Hc]. simpl in Hx.
      apply conflicts_None in Hc. by apply Hno in Hx.
    + eexists _, _. split; [reflexivity|].
      split; [apply not_elem_of_dom, is_fresh|]. done.
Qed.

(** C8, at the failing input: every reference exists, no appointment is
    booked, and the requested date is the very instant of the call. The
    date is not in the future, yet createService does not refuse it: it
    commits the appointment. Like every call that commits, it then fails
    to read the appointment back and sends no answer, neither the refusal
    the boundary calls for nor a success. The same call for a date one
    hour ahead, which the claim says succeeds, commits its appointment and
    sends no answer either. *)
Theorem createService_accepts_now :
  ServiceReq.validationResult (booking tenOClock None) = true
  ∧ 1%positive ∈ users shop
  ∧ is_Some (cars shop !! 1%positive)
  ∧ is_Some (serviceTypes shop !! 1%positive)
  ∧ (ServiceReq.scheduledDate (booking tenOClock None) ≤ tenOClock)%Z
  ∧ services shop !! 1%positive = None
  ∧ (Service.scheduledDate
       <$> services (createService (booking tenOClock None) tenOClock shop).2
           !! 1%positive)
    = Some tenOClock
  ∧ (createService (booking tenOClock None) tenOClock shop).1 ≠ DateNotInFuture
  ∧ (createService (booking tenOClock None) tenOClock shop).1 = NoResponse
  ∧ (tenOClock < tenOClock + 3600000)%Z
  ∧ (Service.scheduledDate
       <$> services (createService (booking (tenOClock + 3600000) None) tenOClock shop).2
           !! 1%positive)
    = Some (tenOClock + 3600000)%Z
  ∧ (createService (booking (tenOClock + 3600000) None) tenOClock shop).1 = NoResponse.
Proof.
  split_and!; vm_compute; by eauto.
Qed.

(** A createService call that passes every check commits the appointment
    and sends no answer, also when the date is strictly in the future and
    nothing conflicts: the success the handler is written to send is never
    sent. *)
Lemma createService_never_answers_success (req : ServiceReq.t) (now : Z) (db : DB)
    (id : positive) :
  (createService req now db).1 ≠ ServiceCreated id.
Proof.
  pose proof (createService_cases req now db) as H.
  destruct (createService req now db) as [r db']. simpl.
  destruct H as [[Hf _]|(id' & s & -> & _)]; [|done].
  intros ->. done.
Qed.

Lemma Service_update_no_keys (s : Service.t) (d : Service.UpdateData) :
  Service.has_keys d = false → Service.update s d = s.
Proof.
  destruct s, d as [[?|] [?|] [?|] [?|] [?|] [?|] [?|] [?|]]; by cbv.
Qed.

Lemma updateService_date_failed (id : positive) (s : Service.t) (date : option Z)
    (now : Z) (tx : Transaction) (r : Response) :
  updateService_date id s date now tx = inl r →
  r = DateNotInFuture ∨ r = ScheduleConflict.
Proof.
  unfold updateService_date. destruct date as [t|]; [|done].
  destruct (_ && _); [intros [= <-]; by left|].
  destruct (String.eqb _ _); [|done].
  destruct (Service_findOne _ _); [intros [= <-]; by right|done].
Qed.

Lemma updateService_type_failed (s : Service.t) (ty : option positive)
    (tx : Transaction) (r : Response) :
  updateService_type s ty tx = inl r → r = ServiceTypeNotFound.
Proof.
  unfold updateService_type. destruct ty as [t|]; [|done].
  destruct (serviceTypes (current tx) !! t); [done|by intros [= <-]].
Qed.

Lemma updateService_status_spec (s : Service.t) (status : option Service.Status)
    (completedDate : option Z) (now : Z) :
  match updateService_status s status completedDate now with
  | inl r =>
      ∃ requested, status = Some requested
                   ∧ ¬ spec_edge (Service.status s) requested
                   ∧ r = CannotTransition (Service.status s) requested
  | inr (u_status, _) =>
      u_status = status
      ∧ ∀ requested, status = Some requested →
                     spec_edge (Service.status s) requested
  end.
Proof.
  unfold updateService_status. destruct status as [requested|]; [|done].
  destruct (includes _ _) eqn:Hinc; simpl.
  - split; [done|]. intros ? [= <-]. by apply includes_validTransitions.
  - exists requested. split; [done|]. split; [|done].
    rewrite <- includes_validTransitions. congruence.
Qed.

(** Every way updateService can end. *)
Lemma updateService_cases (id : positive) (req : ServiceUpdateReq.t) (now : Z)
    (nowISO : string) (db : DB) :
  let '(r, db') := updateService id req now nowISO db in
  (failed r = true ∧ db' = db
   ∧ (r = ValidationFailed ∨ (r = ServiceNotFound ∧ services db !! id = None)
      ∨ r = DateNotInFuture
      ∨ r = ScheduleConflict ∨ r = ServiceTypeNotFound
      ∨ ∃ s requested,
          services db !! id = Some s
          ∧ ServiceUpdateReq.status req = Some requested
          ∧ ¬ spec_edge (Service.status s) requested
          ∧ r = CannotTransition (Service.status s) requested))
  ∨ (∃ s d,
       r = NoResponse
       ∧ services db !! id = Some s
       ∧ services db' = <[id := Service.update s d]> (services db)
       ∧ Service.u_status d = ServiceUpdateReq.status req
       ∧ ∀ requested, ServiceUpdateReq.status req = Some requested →
                      spec_edge (Service.status s) requested).
Proof.
  unfold updateService.
  destruct (ServiceUpdateReq.validationResult req); simpl; [|left; eauto 10].
  destruct (services db !! id) as [s|] eqn:Hs; [|left; eauto 10].
  destruct (updateService_date _ _ _ _ _) as [r|u_date] eqn:Hdate.
  { left. apply updateService_date_failed in Hdate as [-> | ->]; eauto 10. }
  destruct (updateService_type _ _ _) as [r|[u_ty u_cost]] eqn:Hty.
  { left. apply updateService_type_failed in Hty as ->. eauto 10. }
  pose proof (updateService_status_spec s (ServiceUpdateReq.status req)
                (ServiceUpdateReq.completedDate req) now) as Hst.
  destruct (updateService_status _ _ _ _) as [r|[u_status stamped]].
  { left. destruct Hst as (requested & Hreq & Hedge & ->).
    split; [done|]. split; [done|]. do 5 right. by exists s, requested. }
  destruct Hst as [-> Hedge]. right.
  match goal with
  | |- context [Service.has_keys ?d] => set (updateData := d)
  end.
  exists s, updateData. split; [done|]. split; [done|]. split; [|done].
  destruct (Service.has_keys updateData) eqn:Hk; simpl.
  - apply map_eq. intros j. rewrite lookup_alter, lookup_insert.
    case_decide; [by rewrite Hs|done].
  - rewrite Service_update_no_keys by done. by rewrite insert_id.
Qed.

Lemma cancelService_guard (s : Service.Status) :
  String.eqb (Service.name s) "COMPLETED" || String.eqb (Service.name s) "CANCELLED"
  = match s with Service.COMPLETED | Service.CANCELLED => true | _ => false end.
Proof. by destruct s. Qed.

(** Every way cancelService can end. *)
Lemma cancelService_cases (id : positive) (reason : option string) (nowISO : string)
    (db : DB) :
  let '(r, db') := cancelService id reason nowISO db in
  (failed r = true ∧ db' = db)
  ∨ (∃ s s',
       r = ServiceCancelled
       ∧ services db !! id = Some s
       ∧ (Service.status s = Service.SCHEDULED
          ∨ Service.status s = Service.IN_PROGRESS)
       ∧ services db' = <[id := s']> (services db)
       ∧ Service.status s' = Service.CANCELLED).
Proof.
  unfold cancelService. simpl.
  destruct (services db !! id) as [s|] eqn:Hs; [|by left].
  rewrite cancelService_guard.
  destruct (Service.status s) eqn:Hst; try by left.
  all: right; eexists s, _; split; [done|]; split; [done|].
  all: split; [eauto|]; simpl; split; [by apply alter_as_insert|reflexivity].
Qed.

(** C7, counterexample: a request with status COMPLETED adds an
    appointment that is COMPLETED from the start. *)
Lemma createService_stores_requested_status :
  services shop !! 1%positive = None
  ∧ (createService (booking (tenOClock + 1) (Some Service.COMPLETED)) tenOClock shop).1
    = NoResponse
  ∧ (Service.status
       <$> services
             (createService (booking (tenOClock + 1) (Some Service.COMPLETED))
                tenOClock shop).2 !! 1%positive)
    = Some Service.COMPLETED
  ∧ ¬ spec_starts_scheduled.
Proof.
  split; [vm_compute; reflexivity|]. split; [vm_compute; reflexivity|].
  split; [vm_compute; reflexivity|].
  intros H.
  destruct (services
              (createService (booking (tenOClock + 1) (Some Service.COMPLETED))
                 tenOClock shop).2 !! 1%positive) as [s|] eqn:Hs.
  - specialize (H (booking (tenOClock + 1) (Some Service.COMPLETED)) tenOClock shop
                  1%positive s eq_refl Hs).
    vm_compute in Hs. injection Hs as <-. discriminate H.
  - vm_compute in Hs. discriminate Hs.
Qed.

(** C7, as amended: a createService call that is refused changes nothing,
    and one that is not refused adds one appointment, in the status the
    request gives, SCHEDULED when it gives none; no operation of the
    scheduler moves an existing appointment except along an edge of the
    state machine; updateService refuses every other requested status,
    with the current and the requested status in its answer unless an
    earlier check of the call already failed, and leaves the database
    alone; and a requested status that is an edge is stored unless an
    earlier check of the call failed. A call of createService or
    updateService that stores something sends no answer. *)
Theorem service_status_machine :
  (∀ req now db,
     (failed (createService req now db).1 = true →
      (createService req now db).2 = db)
     ∧ (failed (createService req now db).1 = false →
        (createService req now db).1 = NoResponse
        ∧ ∃ id s,
            services db !! id = None
            ∧ services (createService req now db).2 = <[id := s]> (services db)
            ∧ Service.status s
              = match ServiceReq.status req with
                | Some requested => requested
                | None => Service.SCHEDULED
                end))
  ∧ (∀ op db id s,
       services db !! id = Some s →
       ∃ s', services (service_step op db).2 !! id = Some s'
             ∧ (Service.status s' = Service.status s
                ∨ spec_edge (Service.status s) (Service.status s')))
  ∧ (∀ id req now nowISO db s requested,
       services db !! id = Some s →
       ServiceUpdateReq.status req = Some requested →
       ¬ spec_edge (Service.status s) requested →
       failed (updateService id req now nowISO db).1 = true
       ∧ (updateService id req now nowISO db).2 = db
       ∧ ((updateService id req now nowISO db).1
          = CannotTransition (Service.status s) requested
          ∨ (updateService id req now nowISO db).1 = ValidationFailed
          ∨ (updateService id req now nowISO db).1 = DateNotInFuture
          ∨ (updateService id req now nowISO db).1 = ScheduleConflict
          ∨ (updateService id req now nowISO db).1 = ServiceTypeNotFound))
  ∧ (∀ id now nowISO db s requested,
       services db !! id = Some s →
       ¬ spec_edge (Service.status s) requested →
       updateService id (setServiceStatus requested) now nowISO db
       = (CannotTransition (Service.status s) requested, db))
  ∧ (∀ id req now nowISO db s requested,
       services db !! id = Some s →
       ServiceUpdateReq.status req = Some requested →
       spec_edge (Service.status s) requested →
       ((updateService id req now nowISO db).2 = db
        ∧ ((updateService id req now nowISO db).1 = ValidationFailed
           ∨ (updateService id req now nowISO db).1 = DateNotInFuture
           ∨ (updateService id req now nowISO db).1 = ScheduleConflict
           ∨ (updateService id req now nowISO db).1 = ServiceTypeNotFound))
       ∨ ((updateService id req now nowISO db).1 = NoResponse
          ∧ Service.status <$> services (updateService id req now nowISO db).2 !! id
            = Some requested)).
Proof.
  split_and!.
  - intros req now db.
    pose proof (createService_cases req now db) as H.
    destruct (createService req now db) as [r db']. simpl.
    destruct H as [[Hf ->]|(id & s & -> & Hfresh & Hsvc & Hst & _)].
    + split; [done|]. intros Hf'. congruence.
    + split; [done|]. intros _. split; [done|]. exists id, s.
      split; [done|]. split; [done|]. rewrite Hst.
      by destruct (ServiceReq.status req).
  - intros op db id s Hs. destruct op as [req now|id' req now nowISO|id' reason nowISO];
      simpl.
    + pose proof (createService_cases req now db) as H.
      destruct (createService req now db) as [r db']. simpl.
      destruct H as [[_ ->]|(id' & s' & _ & Hfresh & -> & _)]; simpl; [eauto|].
      exists s. split; [|by left]. rewrite lookup_insert_ne; [done|congruence].
    + pose proof (updateService_cases id' req now nowISO db) as H.
      destruct (updateService id' req now nowISO db) as [r db']. simpl.
      destruct H as [(_ & -> & _)|(s0 & d & _ & Hs0 & -> & Hus & Hedge)]; simpl; [eauto|].
      destruct (decide (id' = id)) as [->|Hne].
      * rewrite lookup_insert_eq. eexists. split; [done|].
        rewrite Hs in Hs0. injection Hs0 as <-. simpl. rewrite Hus.
        destruct (ServiceUpdateReq.status req) as [q|]; simpl; [right; eauto|by left].
      * rewrite lookup_insert_ne by done. eauto.
    + pose proof (cancelService_cases id' reason nowISO db) as H.
      destruct (cancelService id' reason nowISO db) as [r db']. simpl.
      destruct H as [[_ ->]|(s0 & s' & _ & Hs0 & Hst & -> & Hc)]; simpl; [eauto|].
      destruct (decide (id' = id)) as [->|Hne].
      * rewrite lookup_insert_eq. eexists. split; [done|].
        rewrite Hs in Hs0. injection Hs0 as <-. right. rewrite Hc.
        unfold spec_edge. destruct Hst as [-> | ->]; eauto.
      * rewrite lookup_insert_ne by done. eauto.
  - intros id req now nowISO db s requested Hs Hreq Hedge.
    pose proof (updateService_cases id req now nowISO db) as H.
    destruct (updateService id req now nowISO db) as [r db']. simpl.
    destruct H as [(Hf & -> & Hr)|(s0 & d & _ & Hs0 & _ & _ & Hok)].
    + split; [done|]. split; [done|].
      destruct Hr as [->|[[-> Hn]|[->|[->|[->|(s0 & q & Hs0 & Hq & _ & ->)]]]]]; eauto.
      * congruence.
      * left. congruence.
    + exfalso. apply Hedge. rewrite Hs in Hs0. injection Hs0 as <-. by apply Hok.
  - intros id now nowISO db s requested Hs Hedge.
    unfold updateService. simpl. rewrite Hs. unfold updateService_status.
    destruct (includes (validTransitions (Service.status s)) requested) eqn:Hinc; [|done].
    by apply includes_validTransitions in Hinc.
  - intros id req now nowISO db s requested Hs Hreq Hedge.
    pose proof (updateService_cases id req now nowISO db) as H.
    destruct (updateService id req now nowISO db) as [r db']. simpl.
    destruct H as [(Hf & -> & Hr)|(s0 & d & -> & Hs0 & -> & Hus & Hok)].
    + left. split; [done|].
      destruct Hr as [->|[[-> Hn]|[->|[->|[->|(s0 & q & Hs0 & Hq & Hno & ->)]]]]];
        eauto.
      * congruence.
      * exfalso. apply Hno. rewrite Hs in Hs0. injection Hs0 as <-.
        rewrite Hreq in Hq. by injection Hq as <-.
    + right. split; [done|]. rewrite Hs in Hs0. injection Hs0 as <-.
      rewrite lookup_insert_eq. simpl. by rewrite Hus, Hreq.
Qed.

(** * Further properties of the engine *)

(** ** Stock accounting of createOrder *)

Lemma createOrder_created_inv `{rounding : Rounding}
    (req : OrderReq.t) (orderNumber : string)
    (db db' : DB) (orderId : positive) :
  createOrder req orderNumber db = (OrderCreated orderId, db') →
  ∃ o db1 tx',
    Order_create o db = Some (orderId, db1)
    ∧ createOrder_items orderId (OrderReq.items req) (exec (λ _, db1) (begin db))
      = Completed tx'
    ∧ spareParts db' = spareParts (current tx').
Proof.
  unfold createOrder.
  destruct (OrderReq.validationResult req); simpl; [|done].
  case_bool_decide; simpl; [|done].
  destruct (createOrder_car _ _) as [r|] eqn:Hcar.
  { intros [= -> _]. by apply createOrder_car_Some in Hcar. }
  destruct (Order_create _ db) as [[oid db1]|] eqn:Hcreate; [|done].
  pose proof (createOrder_items_snapshot oid (OrderReq.items req)
                (exec (λ _, db1) (begin db))) as Hsnap.
  destruct (createOrder_items _ _ _) as [tx'|r db2|tx'] eqn:Hloop.
  - intros [= <- <-]. eexists _, db1, tx'. split; [exact Hcreate|].
    split; [exact Hloop|]. by destruct (OrderReq.carId req).
  - destruct Hsnap as [_ Hf]. by intros [= -> _].
  - done.
Qed.

Lemma decrement_as_increment (sp sp' : SparePart.t) (q : Z) :
  SparePart.update sp (SparePart.stock sp - q) = Some sp' →
  sp' = SparePart.increment (- q) sp ∧ (0 ≤ SparePart.stock sp')%Z.
Proof.
  unfold SparePart.update. destruct (SparePart.validate _) eqn:Hv; [|done].
  intros [= <-]. split.
  - reflexivity.
  - unfold SparePart.validate in Hv. by apply Z.leb_le.
Qed.

(** When the item loop runs to its end, every spare part has lost exactly
    what the items asked of it. *)
Lemma createOrder_items_stock `{rounding : Rounding}
    (orderId : positive) (items : list OrderReq.item) :
  ∀ tx tx',
    createOrder_items orderId items tx = Completed tx' →
    ∀ p, spareParts (current tx') !! p
         = SparePart.increment (- requested p items) <$> spareParts (current tx) !! p.
Proof.
  induction items as [|i rest IH]; intros tx tx'; simpl.
  { intros [= <-] p. by rewrite increment_zero. }
  destruct (spareParts (current tx) !! OrderReq.sparePartId i) as [sp|] eqn:Hsp; [|done].
  destruct (SparePart.stock sp <? OrderReq.quantity i)%Z; [done|].
  destruct (OrderItem.create _) as [row|]; [|done].
  destruct (SparePart.update sp _) as [sp'|] eqn:Hup; [|done].
  intros Hrest p. rewrite (IH _ _ Hrest p). simpl.
  apply decrement_as_increment in Hup as [-> _].
  rewrite lookup_insert. case_decide as Hp.
  - subst p. rewrite bool_decide_eq_true_2 by done. rewrite Hsp. simpl.
    unfold SparePart.increment, SparePart.with_stock. simpl. do 2 f_equal. lia.
  - rewrite bool_decide_eq_false_2 by done. done.
Qed.

(** A stock that is not negative before the loop is not negative after it. *)
Lemma createOrder_items_part_nonneg `{rounding : Rounding}
    (orderId : positive) (items : list OrderReq.item) :
  ∀ tx tx',
    createOrder_items orderId items tx = Completed tx' →
    ∀ p sp sp',
      spareParts (current tx) !! p = Some sp → (0 ≤ SparePart.stock sp)%Z →
      spareParts (current tx') !! p = Some sp' → (0 ≤ SparePart.stock sp')%Z.
Proof.
  induction items as [|i rest IH]; intros tx tx'; simpl.
  { intros [= <-] p sp sp' Hsp Hnn. rewrite Hsp. by intros [= <-]. }
  destruct (spareParts (current tx) !! OrderReq.sparePartId i) as [sp0|] eqn:Hsp0; [|done].
  destruct (SparePart.stock sp0 <? OrderReq.quantity i)%Z; [done|].
  destruct (OrderItem.create _) as [row|]; [|done].
  destruct (SparePart.update sp0 _) as [sp0'|] eqn:Hup; [|done].
  intros Hrest p sp sp' Hsp Hnn.
  apply decrement_as_increment in Hup as [_ Hnn0].
  destruct (decide (OrderReq.sparePartId i = p)) as [Heq|Hne].
  - subst p. apply (IH _ _ Hrest _ sp0'); [|done]. simpl. by rewrite lookup_insert_eq.
  - apply (IH _ _ Hrest _ sp); [|done]. simpl. by rewrite lookup_insert_ne.
Qed.

Lemma createOrder_spareParts `{rounding : Rounding}
    (req : OrderReq.t) (orderNumber : string)
    (db db' : DB) (orderId : positive) :
  createOrder req orderNumber db = (OrderCreated orderId, db') →
  (∀ p, spareParts db' !! p
        = SparePart.increment (- requested p (OrderReq.items req))
            <$> spareParts db !! p)
  ∧ (∀ p sp sp', spareParts db !! p = Some sp → (0 ≤ SparePart.stock sp)%Z →
                 spareParts db' !! p = Some sp' → (0 ≤ SparePart.stock sp')%Z).
Proof.
  intros (o & db1 & tx' & Hcreate & Hloop & Hparts)%createOrder_created_inv.
  apply Order_create_spareParts in Hcreate as (row & _ & Hparts1 & _).
  rewrite Hparts. split.
  - intros p. rewrite (createOrder_items_stock _ _ _ _ Hloop p). simpl.
    by rewrite Hparts1.
  - intros p sp sp' Hsp Hnn.
    apply (createOrder_items_part_nonneg _ _ _ _ Hloop p sp); [|done].
    simpl. by rewrite Hparts1.
Qed.

(** X1. A successful createOrder takes from every spare part exactly the
    quantity its items ask of that part, summed over the items, and leaves
    the part's minimum stock level alone; it creates and removes no spare
    part; and a part whose stock was not negative is never asked for more
    than it had. *)
Theorem createOrder_stock_accounting `{rounding : Rounding}
    (req : OrderReq.t) (orderNumber : string)
    (db db' : DB) (orderId : positive) :
  createOrder req orderNumber db = (OrderCreated orderId, db') →
  ∀ p,
    match spareParts db !! p with
    | Some sp =>
        spareParts db' !! p
        = Some {| SparePart.stock :=
                    SparePart.stock sp - requested p (OrderReq.items req);
                  SparePart.minStockLevel := SparePart.minStockLevel sp |}
        ∧ ((0 ≤ SparePart.stock sp)%Z →
           (requested p (OrderReq.items req) ≤ SparePart.stock sp)%Z)
    | None => spareParts db' !! p = None
    end.
Proof.
  intros [Hl Hnn]%createOrder_spareParts p.
  destruct (spareParts db !! p) as [sp|] eqn:Hsp.
  - assert (spareParts db' !! p
            = Some {| SparePart.stock :=
                        SparePart.stock sp - requested p (OrderReq.items req);
                      SparePart.minStockLevel := SparePart.minStockLevel sp |}) as H.
    { by rewrite Hl, Hsp. }
    split; [done|]. intros H0. specialize (Hnn p sp _ Hsp H0 H). simpl in Hnn. lia.
  - by rewrite Hl, Hsp.
Qed.

Lemma createOrder_stock_accounting_witness :
  createOrder mixedOrder "ORD-00000001-042" shop = (OrderCreated 1, shop1)
  ∧ ∀ p,
      match spareParts shop !! p with
      | Some sp =>
          spareParts shop1 !! p
          = Some {| SparePart.stock :=
                      SparePart.stock sp - requested p (OrderReq.items mixedOrder);
                    SparePart.minStockLevel := SparePart.minStockLevel sp |}
          ∧ ((0 ≤ SparePart.stock sp)%Z →
             (requested p (OrderReq.items mixedOrder) ≤ SparePart.stock sp)%Z)
      | None => spareParts shop1 !! p = None
      end.
Proof.
  split; [vm_compute; reflexivity|].
  apply (createOrder_stock_accounting mixedOrder "ORD-00000001-042" shop shop1 1).
  vm_compute; reflexivity.
Defined.

(** ** Creating and cancelling *)

Lemma filter_none {A} (P : A → Prop) `{∀ x, Decision (P x)} (l : list A) :
  Forall (λ x, ¬ P x) l → filter P l = [].
Proof.
  induction 1 as [|x l Hx _ IH]; [done|]. by rewrite filter_cons_False.
Qed.

Lemma filter_all {A} (P : A → Prop) `{∀ x, Decision (P x)} (l : list A) :
  Forall P l → filter P l = l.
Proof.
  induction 1 as [|x l Hx _ IH]; [done|]. rewrite filter_cons_True by done.
  by rewrite IH.
Qed.

Lemma built_from_quantity (orderId p : positive) (items : list OrderReq.item)
    (rows : list OrderItem.t) :
  Forall2 (built_from orderId) items rows →
  quantity_of p rows = requested p items
  ∧ Forall (λ row, OrderItem.orderId row = orderId) rows.
Proof.
  induction 1 as [|i row items rows (Ho & Hp & Hq) _ [IH1 IH2]]; simpl; [done|].
  split; [|by constructor]. rewrite IH1, Hp, Hq.
  destruct (decide (OrderReq.sparePartId i = p)) as [->|Hne].
  - by rewrite !bool_decide_eq_true_2.
  - rewrite !bool_decide_eq_false_2; [done|done|congruence].
Qed.

(** The items of a new order are the rows createOrder wrote for it, when
    every older item belongs to an order that exists. *)
Lemma createOrder_findAll (req : OrderReq.t) (orderNumber : string)
    (db db' : DB) (orderId : positive) (rows : list OrderItem.t) :
  items_reference_orders db → orders db !! orderId = None →
  orderItems db' = orderItems db ++ rows →
  Forall (λ row, OrderItem.orderId row = orderId) rows →
  OrderItem_findAll orderId db' = rows.
Proof.
  intros Hfk Hfresh Hrows Hall. unfold OrderItem_findAll.
  rewrite Hrows, filter_app, filter_none, filter_all; [done|done|].
  eapply Forall_impl; [exact Hfk|]. intros row [o Ho] Heq. simpl in Heq.
  rewrite Heq in Ho. congruence.
Qed.

(** X2. A successful createOrder followed by cancelOrder of the new order
    gives back the stock of every spare part and the status of every car
    as they were before the order, provided the order was not created in a
    terminal status and every stored order item belongs to a stored order
    (the foreign key of order_items). *)
Theorem createOrder_then_cancelOrder `{rounding : Rounding}
    (req : OrderReq.t) (orderNumber : string)
    (db db' : DB) (orderId : positive) (reason : option string) (nowISO : string) :
  createOrder req orderNumber db = (OrderCreated orderId, db') →
  items_reference_orders db →
  default Order.PENDING (OrderReq.status req) ≠ Order.DELIVERED →
  default Order.PENDING (OrderReq.status req) ≠ Order.CANCELLED →
  (cancelOrder orderId reason nowISO db').1 = OrderCancelled
  ∧ spareParts (cancelOrder orderId reason nowISO db').2 = spareParts db
  ∧ cars (cancelOrder orderId reason nowISO db').2 = cars db
  ∧ (Order.status <$> orders (cancelOrder orderId reason nowISO db').2 !! orderId)
    = Some Order.CANCELLED.
Proof.
  intros Hrun Hfk Hd Hc.
  pose proof (createOrder_spareParts _ _ _ _ _ Hrun) as [Hstock _].
  pose proof (createOrder_cases req orderNumber db) as H. rewrite Hrun in H.
  destruct H as [[Hf _]|(oid & o & [= <-] & _ & _ & Hav & Hfresh & Hord & Hcar & Hst
                         & _ & Hcars & _ & _ & (rows & Hrows & Hbuilt & _) & _)];
    [done|].
  assert (orders db' !! orderId = Some o) as Ho by (by rewrite Hord, lookup_insert_eq).
  rewrite <- Hst in Hd, Hc.
  destruct (cancelOrder_done orderId reason nowISO db' o Ho Hd Hc)
    as (db'' & -> & _ & _ & _ & _ & Hord'' & Hcars'' & Hparts'').
  simpl. split; [done|]. split_and!.
  - rewrite Hparts''. apply map_eq. intros p.
    destruct (restoreStock_spec (OrderItem_findAll orderId db') db')
      as (_ & _ & _ & _ & _ & _ & ->).
    destruct (built_from_quantity orderId p _ _ Hbuilt) as [Hq Hall].
    rewrite (createOrder_findAll req orderNumber db db' orderId rows) by done.
    rewrite Hstock, increment_increment, Hq.
    replace (- requested p (OrderReq.items req) + requested p (OrderReq.items req))%Z
      with 0%Z by lia.
    apply increment_zero.
  - rewrite Hcars'', Hcar, Hcars.
    destruct (OrderReq.carId req) as [c|]; [|done].
    apply map_eq. intros j. destruct (decide (c = j)) as [Heq|Hne].
    + subst j. by rewrite !lookup_alter_eq, (Hav c eq_refl).
    + by rewrite !lookup_alter_ne.
  - by rewrite Hord'', lookup_insert_eq.
Qed.

Lemma shop_items_reference_orders : items_reference_orders shop.
Proof. constructor. Qed.

Lemma createOrder_then_cancelOrder_witness :
  createOrder mixedOrder "ORD-00000001-042" shop = (OrderCreated 1, shop1)
  ∧ items_reference_orders shop
  ∧ (cancelOrder 1 None stamp shop1).1 = OrderCancelled
  ∧ spareParts (cancelOrder 1 None stamp shop1).2 = spareParts shop
  ∧ cars (cancelOrder 1 None stamp shop1).2 = cars shop
  ∧ (Order.status <$> orders (cancelOrder 1 None stamp shop1).2 !! 1%positive)
    = Some Order.CANCELLED.
Proof.
  split; [vm_compute; reflexivity|]. split; [exact shop_items_reference_orders|].
  apply (createOrder_then_cancelOrder mixedOrder "ORD-00000001-042" shop shop1 1
           None stamp).
  - vm_compute; reflexivity.
  - exact shop_items_reference_orders.
  - vm_compute; congruence.
  - vm_compute; congruence.
Defined.

(** X3. cancelOrder cannot be applied twice: after a successful
    cancellation a second call on the same order is refused, whatever its
    reason and time, and changes nothing, so no stock is given back
    twice. *)
Theorem cancelOrder_twice (id : positive) (reason1 reason2 : option string)
    (t1 t2 : string) (db : DB) :
  (cancelOrder id reason1 t1 db).1 = OrderCancelled →
  cancelOrder id reason2 t2 (cancelOrder id reason1 t1 db).2
  = (CannotCancelOrder Order.CANCELLED, (cancelOrder id reason1 t1 db).2).
Proof.
  intros Hfirst. destruct (orders db !! id) as [o|] eqn:Ho.
  - destruct (decide (Order.status o = Order.DELIVERED ∨ Order.status o = Order.CANCELLED))
      as [Hterm|Hlive].
    + by rewrite (cancelOrder_refused _ _ _ _ _ Ho Hterm) in Hfirst.
    + destruct (cancelOrder_done id reason1 t1 db o Ho)
        as (db' & Hrun & _ & _ & _ & _ & Hord & _).
      { intros ?. apply Hlive. by left. }
      { intros ?. apply Hlive. by right. }
      rewrite Hrun. simpl.
      rewrite (cancelOrder_refused id reason2 t2 db'
                 (Order.update o
                    {| Order.u_status := Some Order.CANCELLED;
                       Order.u_paymentStatus := None;
                       Order.u_trackingNumber := None;
                       Order.u_notes :=
                         Some (appendNote (Order.notes o)
                                 ("CANCELLED on " +:+ t1 +:+ ": "
                                  +:+ or_else reason1 "No reason provided")) |}));
        [done| |by right].
      by rewrite Hord, lookup_insert_eq.
  - by rewrite cancelOrder_not_found in Hfirst.
Qed.

Lemma cancelOrder_twice_witness :
  (cancelOrder 1 None stamp shop1).1 = OrderCancelled
  ∧ cancelOrder 1 (Some "again"%string) stamp (cancelOrder 1 None stamp shop1).2
    = (CannotCancelOrder Order.CANCELLED, (cancelOrder 1 None stamp shop1).2).
Proof.
  split; [vm_compute; reflexivity|].
  apply (cancelOrder_twice 1 None (Some "again"%string) stamp stamp shop1).
  vm_compute; reflexivity.
Defined.

(** ** Status changes without a transition table *)






(** X6. updateOrderStatus never takes stock: whatever the request, no spare
    part is created or removed, none changes its minimum stock level, and
    none ends with less stock than it had; in particular reopening a
    cancelled order reserves nothing again. *)
Theorem updateOrderStatus_never_lowers_stock (id : positive) (req : StatusReq.t)
    (nowISO : string) (db : DB) :
  items_valid db →
  ∀ p,
    match spareParts db !! p with
    | Some sp =>
        ∃ sp', spareParts (updateOrderStatus id req nowISO db).2 !! p = Some sp'
               ∧ (SparePart.stock sp ≤ SparePart.stock sp')%Z
               ∧ SparePart.minStockLevel sp' = SparePart.minStockLevel sp
    | None => spareParts (updateOrderStatus id req nowISO db).2 !! p = None
    end.
Proof.
  intros Hitems p.
  assert (∀ db', spareParts db' = spareParts db
                 ∨ spareParts db' = spareParts (restoreStock (OrderItem_findAll id db) db) →
                 match spareParts db !! p with
                 | Some sp =>
                     ∃ sp', spareParts db' !! p = Some sp'
                            ∧ (SparePart.stock sp ≤ SparePart.stock sp')%Z
                            ∧ SparePart.minStockLevel sp' = SparePart.minStockLevel sp
                 | None => spareParts db' !! p = None
                 end) as Hgen.
  { intros db' [-> | ->].
    - destruct (spareParts db !! p) as [sp|]; [|done]. by exists sp.
    - destruct (restoreStock_spec (OrderItem_findAll id db) db)
        as (_ & _ & _ & _ & _ & _ & ->).
      destruct (spareParts db !! p) as [sp|]; [|done]. simpl.
      eexists. split; [done|]. simpl. split; [|done].
      pose proof (quantity_of_nonneg p (OrderItem_findAll id db)
                    (filter_items_valid _ _ Hitems)). lia. }
  apply Hgen. destruct (orders db !! id) as [o|] eqn:Ho.
  - destruct (updateOrderStatus_spec id req nowISO db o Ho)
      as (d & db' & -> & _ & _ & _ & _ & _ & Hparts & _).
    simpl. rewrite Hparts. destruct (_ && _); eauto.
  - rewrite updateOrderStatus_not_found by done. by left.
Qed.

Lemma shop1_items_valid : items_valid shop1.
Proof.
  apply (bool_decide_unpack
           (Forall (λ i, (1 ≤ OrderItem.quantity i)%Z) (orderItems shop1))).
  vm_compute. exact I.
Qed.

Lemma updateOrderStatus_never_lowers_stock_witness :
  items_valid shop1
  ∧ ∀ p,
      match spareParts shop1 !! p with
      | Some sp =>
          ∃ sp', spareParts (updateOrderStatus 1 (setStatus Order.CANCELLED) stamp shop1).2
                   !! p = Some sp'
                 ∧ (SparePart.stock sp ≤ SparePart.stock sp')%Z
                 ∧ SparePart.minStockLevel sp' = SparePart.minStockLevel sp
      | None =>
          spareParts (updateOrderStatus 1 (setStatus Order.CANCELLED) stamp shop1).2
            !! p = None
      end.
Proof.
  split; [exact shop1_items_valid|].
  apply (updateOrderStatus_never_lowers_stock 1 (setStatus Order.CANCELLED) stamp shop1).
  exact shop1_items_valid.
Defined.

(** ** adjustStock *)

Lemma update_number_spec `{rounding : Rounding} (sp : SparePart.t) (s : Q) :
  SparePart.update_number sp s
  = if Qle_bool 0 s then
      match INT s with
      | Some z => Some {| SparePart.stock := z;
                          SparePart.minStockLevel := SparePart.minStockLevel sp |}
      | None => None
      end
    else None.
Proof. unfold SparePart.update_number. by destruct (Qle_bool 0 s), (INT s). Qed.

Lemma Qle_bool_false (a b : Q) : Qle_bool a b = false ↔ (b < a)%Q.
Proof.
  rewrite <- not_true_iff_false, Qle_bool_iff. split.
  - apply Qnot_le_lt.
  - apply Qlt_not_le.
Qed.

Lemma inject_Z_pos (z : Z) : (0 < z)%Z → (0 < inject_Z z)%Q.
Proof. intros Hz. change (inject_Z 0 < inject_Z z)%Q. by rewrite <- Zlt_Qlt. Qed.

Lemma inject_Z_nonneg (z : Z) : (0 ≤ z)%Z → (0 <= inject_Z z)%Q.
Proof. intros Hz. change (inject_Z 0 <= inject_Z z)%Q. by rewrite <- Zle_Qle. Qed.

(** adjustStock with the operation add, on a part it finds. *)
Lemma adjustStock_add `{rounding : Rounding} (id : positive) (quantity : Q) (db : DB)
    (sp : SparePart.t) :
  spareParts db !! id = Some sp → (0 < quantity)%Q →
  adjustStock id quantity "add" db
  = let newStock := js_add (inject_Z (SparePart.stock sp)) quantity in
    match SparePart.update_number sp newStock with
    | Some sp' =>
        (StockAdjusted (js_sub newStock quantity) newStock,
         with_spareParts (insert id sp') db)
    | None => (ServerError, db)
    end.
Proof.
  intros Hsp Hq. unfold adjustStock. rewrite Hsp. simpl.
  by rewrite (proj2 (Qle_bool_false quantity 0) Hq).
Qed.

(** adjustStock with the operation subtract, on a part it finds that holds
    the quantity. *)
Lemma adjustStock_subtract `{rounding : Rounding} (id : positive) (quantity : Q)
    (db : DB) (sp : SparePart.t) :
  spareParts db !! id = Some sp → (0 < quantity)%Q →
  (quantity <= inject_Z (SparePart.stock sp))%Q →
  adjustStock id quantity "subtract" db
  = let newStock := js_sub (inject_Z (SparePart.stock sp)) quantity in
    match SparePart.update_number sp newStock with
    | Some sp' =>
        (StockAdjusted (js_add newStock quantity) newStock,
         with_spareParts (insert id sp') db)
    | None => (ServerError, db)
    end.
Proof.
  intros Hsp Hq Hle. unfold adjustStock. rewrite Hsp. simpl.
  rewrite (proj2 (Qle_bool_false quantity 0) Hq).
  by rewrite (proj2 (Qle_bool_iff _ _) Hle).
Qed.

(** X7. adjustStock on a spare part it finds. It answers 400 and changes
    nothing when the operation is neither add nor subtract, when the
    quantity is not above 0, and when more is subtracted than is in stock.
    Otherwise the new stock is the sum or the difference of stock and
    quantity as the doubles give it: the call answers 500 and changes
    nothing when that number is negative or the INT column refuses it, and
    else answers 200 with the new stock as current stock and, as previous
    stock, the new stock with the quantity taken off or put on again; the
    part then holds what the INT column makes of the new stock, with the
    minimum stock level it had, and every other part and table is as it
    was. The quantity is any number above 0, whole or not: the handler does
    not read the result of the route's isInt rule. *)
Theorem adjustStock_contract `{rounding : Rounding} (id : positive) (quantity : Q)
    (operation : string) (db : DB) (sp : SparePart.t) :
  spareParts db !! id = Some sp →
  let r := (adjustStock id quantity operation db).1 in
  let db' := (adjustStock id quantity operation db).2 in
  let stock := inject_Z (SparePart.stock sp) in
  (operation ≠ "add"%string → operation ≠ "subtract"%string →
   r = BadOperation ∧ db' = db)
  ∧ (operation = "add"%string ∨ operation = "subtract"%string → (quantity <= 0)%Q →
     r = BadQuantity ∧ db' = db)
  ∧ (operation = "subtract"%string → (0 < quantity)%Q → (stock < quantity)%Q →
     r = NotEnoughToSubtract (SparePart.stock sp) ∧ db' = db)
  ∧ (∀ newStock previousStock,
       (operation = "add"%string
        ∧ newStock = js_add stock quantity
        ∧ previousStock = js_sub newStock quantity)
       ∨ (operation = "subtract"%string ∧ (quantity <= stock)%Q
          ∧ newStock = js_sub stock quantity
          ∧ previousStock = js_add newStock quantity) →
       (0 < quantity)%Q →
       ((newStock < 0)%Q ∨ INT newStock = None → r = ServerError ∧ db' = db)
       ∧ (∀ z, (0 <= newStock)%Q → INT newStock = Some z →
               r = StockAdjusted previousStock newStock
               ∧ spareParts db'
                 = <[id := {| SparePart.stock := z;
                              SparePart.minStockLevel := SparePart.minStockLevel sp |}]>
                     (spareParts db)
               ∧ users db' = users db ∧ cars db' = cars db
               ∧ orders db' = orders db ∧ orderItems db' = orderItems db
               ∧ serviceTypes db' = serviceTypes db ∧ services db' = services db)).
Proof.
  intros Hsp r db' stock. subst r db' stock. split_and!.
  - intros Ha Hs. unfold adjustStock.
    apply String.eqb_neq in Ha, Hs. by rewrite Ha, Hs.
  - intros Hop Hq. unfold adjustStock.
    assert (String.eqb operation "add" || String.eqb operation "subtract" = true) as ->
      by (destruct Hop as [-> | ->]; reflexivity).
    simpl. by rewrite (proj2 (Qle_bool_iff _ _) Hq).
  - intros -> Hq Hlt. unfold adjustStock. simpl.
    rewrite (proj2 (Qle_bool_false quantity 0) Hq), Hsp. simpl.
    by rewrite (proj2 (Qle_bool_false _ _) Hlt).
  - intros newStock previousStock Hop Hq.
    assert (adjustStock id quantity operation db
            = match SparePart.update_number sp newStock with
              | Some sp' =>
                  (StockAdjusted previousStock newStock,
                   with_spareParts (insert id sp') db)
              | None => (ServerError, db)
              end) as ->.
    { destruct Hop as [(-> & -> & ->)|(-> & Hle & -> & ->)].
      - by apply adjustStock_add.
      - by apply adjustStock_subtract. }
    rewrite update_number_spec. split.
    + intros [Hneg|Hnone].
      * by rewrite (proj2 (Qle_bool_false _ _) Hneg).
      * rewrite Hnone. by destruct (Qle_bool 0 newStock).
    + intros z Hnn Hz. by rewrite (proj2 (Qle_bool_iff _ _) Hnn), Hz.
Qed.

Lemma adjustStock_contract_witness :
  spareParts shop !! 2%positive
  = Some {| SparePart.stock := 2; SparePart.minStockLevel := 1 |}
  ∧ (∃ previousStock currentStock,
       (adjustStock 2 (1 # 2) "add" shop).1 = StockAdjusted previousStock currentStock
       ∧ (previousStock == 2)%Q ∧ (currentStock == 5 # 2)%Q)
  ∧ spareParts (adjustStock 2 (1 # 2) "add" shop).2 !! 2%positive
    = Some {| SparePart.stock := 3; SparePart.minStockLevel := 1 |}
  ∧ spareParts (adjustStock 2 (1 # 2) "add" shop).2 !! 1%positive
    = spareParts shop !! 1%positive.
Proof.
  assert (spareParts shop !! 2%positive
          = Some {| SparePart.stock := 2; SparePart.minStockLevel := 1 |}) as Hsp
    by (vm_compute; reflexivity).
  split; [exact Hsp|].
  destruct (adjustStock_contract 2 (1 # 2) "add" shop _ Hsp) as (_ & _ & _ & H).
  destruct (H (js_add (inject_Z 2) (1 # 2))
              (js_sub (js_add (inject_Z 2) (1 # 2)) (1 # 2))) as [_ Hdone].
  { left. split; [reflexivity|]. split; reflexivity. }
  { reflexivity. }
  destruct (Hdone 3%Z) as (Hr & Hparts & _).
  { vm_compute; discriminate. }
  { vm_compute; reflexivity. }
  split.
  - eexists _, _. split; [exact Hr|]. split; vm_compute; reflexivity.
  - rewrite Hparts. split; [apply lookup_insert_eq|by rewrite lookup_insert_ne].
Defined.

(** Half a unit that is put on and taken off again leaves one unit more:
    the column rounds both new stocks, 2.5 and 2.5, to 3. *)
Example adjustStock_half_is_not_undone :
  (SparePart.stock
     <$> spareParts (adjustStock 2 (1 # 2) "subtract"
                       (adjustStock 2 (1 # 2) "add" shop).2).2 !! 2%positive)
  = Some 3%Z.
Proof. vm_compute. reflexivity. Qed.

(** X8. adjustStock with a whole quantity is undone by the opposite
    adjustment, as long as the numbers stay where the doubles and the INT
    column are exact: on a spare part it finds, with a stock that is not
    negative, adding a whole quantity above 0 that the column can hold on
    top of the stock and then subtracting it gives back the database as it
    was, and so does subtracting a whole quantity that is in stock and then
    adding it. With a quantity that is not whole it need not be so. *)
Theorem adjustStock_round_trip `{rounding : Rounding} (id : positive) (quantity : Z)
    (db : DB) (sp : SparePart.t) :
  whole_numbers_exact →
  spareParts db !! id = Some sp → (0 ≤ SparePart.stock sp)%Z → (0 < quantity)%Z →
  (SparePart.stock sp + quantity ≤ 2147483647)%Z →
  (adjustStock id (inject_Z quantity) "subtract"
     (adjustStock id (inject_Z quantity) "add" db).2).2 = db
  ∧ ((quantity ≤ SparePart.stock sp)%Z →
     (adjustStock id (inject_Z quantity) "add"
        (adjustStock id (inject_Z quantity) "subtract" db).2).2 = db).
Proof.
  intros [Harith Hcol] Hsp Hnn Hq Hmax.
  assert (0 < inject_Z quantity)%Q as Hq' by (by apply inject_Z_pos).
  assert (∀ x z, (x == inject_Z z)%Q → (0 ≤ z ≤ 2147483647)%Z →
                 SparePart.update_number sp x
                 = Some {| SparePart.stock := z;
                           SparePart.minStockLevel := SparePart.minStockLevel sp |})
    as Hupdate.
  { intros x z Hx Hz. rewrite update_number_spec.
    assert (Qle_bool 0 x = true) as ->.
    { apply Qle_bool_iff. rewrite Hx. apply inject_Z_nonneg. lia. }
    rewrite (Hcol x z Hx) by lia. done. }
  assert (∀ s1,
             with_spareParts
               (insert id sp)
               (with_spareParts
                  (insert id {| SparePart.stock := s1;
                                SparePart.minStockLevel := SparePart.minStockLevel sp |})
                  db)
             = db) as Hback.
  { intros s1. unfold with_spareParts. simpl.
    rewrite insert_insert_eq, insert_id by done. by destruct db. }
  assert (∀ x, {| SparePart.stock := SparePart.stock sp;
                  SparePart.minStockLevel :=
                    SparePart.minStockLevel
                      {| SparePart.stock := x;
                         SparePart.minStockLevel := SparePart.minStockLevel sp |} |}
               = sp) as Hsame by (intros x; by destruct sp).
  split.
  - destruct (Harith (SparePart.stock sp) quantity) as [Hadd _]; [lia|lia|].
    destruct (Harith (SparePart.stock sp + quantity)%Z quantity) as [_ Hsub]; [lia|lia|].
    rewrite (adjustStock_add id _ db sp Hsp Hq'). cbv zeta.
    rewrite (Hupdate _ _ Hadd) by lia. cbn [snd].
    erewrite adjustStock_subtract;
      [|cbn [spareParts with_spareParts]; apply lookup_insert_eq|done|].
    2:{ cbn [SparePart.stock]. rewrite <- Zle_Qle. lia. }
    cbv zeta. cbn [SparePart.stock].
    assert (js_sub (inject_Z (SparePart.stock sp + quantity)) (inject_Z quantity)
            == inject_Z (SparePart.stock sp))%Q as Hsub'.
    { rewrite Hsub. by replace (SparePart.stock sp + quantity - quantity)%Z
        with (SparePart.stock sp) by lia. }
    unfold SparePart.update_number at 1.
    assert (Qle_bool 0 (js_sub (inject_Z (SparePart.stock sp + quantity))
                          (inject_Z quantity)) = true) as ->.
    { apply Qle_bool_iff. rewrite Hsub'. by apply inject_Z_nonneg. }
    rewrite (Hcol _ _ Hsub') by lia. cbn [fmap option_fmap option_map snd].
    unfold SparePart.with_stock. rewrite Hsame. apply Hback.
  - intros Hle.
    destruct (Harith (SparePart.stock sp) quantity) as [_ Hsub]; [lia|lia|].
    destruct (Harith (SparePart.stock sp - quantity)%Z quantity) as [Hadd _]; [lia|lia|].
    rewrite (adjustStock_subtract id _ db sp Hsp Hq').
    2:{ rewrite <- Zle_Qle. lia. }
    cbv zeta. rewrite (Hupdate _ _ Hsub) by lia. cbn [snd].
    erewrite adjustStock_add;
      [|cbn [spareParts with_spareParts]; apply lookup_insert_eq|done].
    cbv zeta. cbn [SparePart.stock].
    assert (js_add (inject_Z (SparePart.stock sp - quantity)) (inject_Z quantity)
            == inject_Z (SparePart.stock sp))%Q as Hadd'.
    { rewrite Hadd. by replace (SparePart.stock sp - quantity + quantity)%Z
        with (SparePart.stock sp) by lia. }
    unfold SparePart.update_number at 1.
    assert (Qle_bool 0 (js_add (inject_Z (SparePart.stock sp - quantity))
                          (inject_Z quantity)) = true) as ->.
    { apply Qle_bool_iff. rewrite Hadd'. by apply inject_Z_nonneg. }
    rewrite (Hcol _ _ Hadd') by lia. cbn [fmap option_fmap option_map snd].
    unfold SparePart.with_stock. rewrite Hsame. apply Hback.
Qed.

Lemma exact_whole_numbers_exact : @whole_numbers_exact exact.
Proof.
  split.
  - intros a b _ _. split.
    + unfold js_add, exact. by rewrite inject_Z_plus.
    + unfold js_sub, exact. unfold Z.sub. by rewrite inject_Z_plus, inject_Z_opp.
  - intros x z Hx Hz. cbn [INT exact]. unfold INT_column, round_half_away.
    assert (Qle_bool 0 x = true) as ->.
    { apply Qle_bool_iff. rewrite Hx. apply inject_Z_nonneg. lia. }
    assert (Qfloor (x + (1 # 2)) = z) as ->.
    { rewrite Hx. unfold Qfloor, Qplus, inject_Z. cbn [Qnum Qden].
      replace (z * Z.pos 2 + 1 * Z.pos 1)%Z with (1 + z * 2)%Z by lia.
      change (Z.pos (1 * 2)) with 2%Z.
      by rewrite Z.div_add by lia. }
    rewrite (proj2 (Z.leb_le _ _)) by lia.
    by rewrite (proj2 (Z.leb_le _ _)) by lia.
Qed.

Lemma adjustStock_round_trip_witness :
  spareParts shop !! 2%positive
  = Some {| SparePart.stock := 2; SparePart.minStockLevel := 1 |}
  ∧ (adjustStock 2 (inject_Z 2) "subtract"
       (adjustStock 2 (inject_Z 2) "add" shop).2).2 = shop
  ∧ ((2 ≤ 2)%Z →
     (adjustStock 2 (inject_Z 2) "add"
        (adjustStock 2 (inject_Z 2) "subtract" shop).2).2 = shop).
Proof.
  split; [vm_compute; reflexivity|].
  apply (adjustStock_round_trip 2 2 shop
           {| SparePart.stock := 2; SparePart.minStockLevel := 1 |}
           exact_whole_numbers_exact).
  - vm_compute; reflexivity.
  - simpl; lia.
  - lia.
  - simpl; lia.
Defined.

(** * Further properties of the scheduler *)

Lemma bookedShop_service : services bookedShop !! 1%positive = Some booked1.
Proof. vm_compute. reflexivity. Qed.

(** ** What createService stores *)



(** The appointment a createService call that is not refused adds, and the
    tables it leaves alone. *)
Lemma createService_created (req : ServiceReq.t) (now : Z) (db db' : DB) :
  createService req now db = (NoResponse, db') →
  ∃ id s, services db' = <[id := s]> (services db)
       ∧ Service.status s = default Service.SCHEDULED (ServiceReq.status req)
       ∧ Service.scheduledDate s = ServiceReq.scheduledDate req
       ∧ users db' = users db ∧ cars db' = cars db
       ∧ serviceTypes db' = serviceTypes db.
Proof.
  unfold createService.
  destruct (ServiceReq.validationResult req); simpl; [|done].
  case_bool_decide; simpl; [|done].
  destruct (cars db !! ServiceReq.carId req) as [car|]; [|done].
  destruct (serviceTypes db !! ServiceReq.serviceTypeId req) as [ty|]; [|done].
  destruct (ServiceReq.scheduledDate req <? now)%Z; [done|].
  destruct (Service_findOne _ db) as [row|]; [done|].
  simpl. intros [= <-]. eexists _, _. simpl. split; [reflexivity|]. done.
Qed.

(** X12. A booking blocks its slot: after a createService call that was
    not refused (it committed its appointment and got no answer) and left
    the appointment SCHEDULED or IN_PROGRESS, every createService with
    existing references and a date from now on that lies within two hours
    of the booked date, both ends included, is refused as a conflict and
    changes nothing. *)
Theorem createService_blocks_slot (req1 req2 : ServiceReq.t) (now1 now2 : Z)
    (db db' : DB) :
  createService req1 now1 db = (NoResponse, db') →
  ServiceReq.status req1 = None ∨ ServiceReq.status req1 = Some Service.SCHEDULED
  ∨ ServiceReq.status req1 = Some Service.IN_PROGRESS →
  ServiceReq.validationResult req2 = true →
  ServiceReq.userId req2 ∈ users db →
  is_Some (cars db !! ServiceReq.carId req2) →
  is_Some (serviceTypes db !! ServiceReq.serviceTypeId req2) →
  (now2 ≤ ServiceReq.scheduledDate req2)%Z →
  (ServiceReq.scheduledDate req1 - 7200000
   ≤ ServiceReq.scheduledDate req2
   ≤ ServiceReq.scheduledDate req1 + 7200000)%Z →
  createService req2 now2 db' = (ScheduleConflict, db').
Proof.
  intros Hrun Hst Hval Hu Hcar Hty Hnow Hnear.
  destruct (createService_created _ _ _ _ Hrun)
    as (id & s & Hsvc & Hstatus & Hdate & Husers & Hcars & Htypes).
  apply createService_outcome; try done.
  - by rewrite Husers.
  - by rewrite Hcars.
  - by rewrite Htypes.
  - exists id, s. split; [by rewrite Hsvc, lookup_insert_eq|].
    unfold in_conflict. rewrite Hstatus, Hdate. split; [|lia].
    destruct Hst as [-> |[-> | ->]]; simpl; eauto.
Qed.

Lemma createService_blocks_slot_witness :
  createService (booking (tenOClock + 3600000) None) tenOClock shop
  = (NoResponse, bookedShop)
  ∧ createService (booking (tenOClock + 3 * 3600000) None) (tenOClock + 5) bookedShop
    = (ScheduleConflict, bookedShop).
Proof.
  split; [vm_compute; reflexivity|].
  apply (createService_blocks_slot (booking (tenOClock + 3600000) None)
           (booking (tenOClock + 3 * 3600000) None) tenOClock (tenOClock + 5)
           shop bookedShop).
  - vm_compute; reflexivity.
  - by left.
  - reflexivity.
  - simpl. by apply elem_of_singleton.
  - vm_compute; eauto.
  - vm_compute; eauto.
  - vm_compute; congruence.
  - vm_compute. split; congruence.
Defined.

(** ** cancelService *)

Lemma cancelService_refused (id : positive) (reason : option string)
    (nowISO : string) (db : DB) (s : Service.t) :
  services db !! id = Some s →
  Service.status s = Service.COMPLETED ∨ Service.status s = Service.CANCELLED →
  cancelService id reason nowISO db = (CannotCancelService (Service.status s), db).
Proof.
  intros Hs Hst. unfold cancelService. simpl. rewrite Hs, cancelService_guard.
  by destruct Hst as [-> | ->].
Qed.

Lemma cancelService_done (id : positive) (reason : option string)
    (nowISO : string) (db : DB) (s : Service.t) :
  services db !! id = Some s →
  Service.status s = Service.SCHEDULED ∨ Service.status s = Service.IN_PROGRESS →
  cancelService id reason nowISO db
  = (ServiceCancelled,
     with_services
       (insert id
          {| Service.userId := Service.userId s;
             Service.carId := Service.carId s;
             Service.serviceTypeId := Service.serviceTypeId s;
             Service.scheduledDate := Service.scheduledDate s;
             Service.status := Service.CANCELLED;
             Service.notes :=
               Some (appendNote (Service.notes s)
                       ("CANCELLED on " +:+ nowISO +:+ ": "
                        +:+ or_else reason "No reason provided"));
             Service.estimatedCost := Service.estimatedCost s;
             Service.completedDate := Service.completedDate s;
             Service.actualCost := Service.actualCost s;
             Service.technicianNotes := Service.technicianNotes s |}) db).
Proof.
  intros Hs Hst. unfold cancelService. simpl. rewrite Hs, cancelService_guard.
  assert (match Service.status s with
          | Service.COMPLETED | Service.CANCELLED => true
          | _ => false
          end = false) as -> by (by destruct Hst as [-> | ->]).
  unfold commit, exec, with_services. simpl.
  by rewrite (alter_as_insert _ _ id s Hs).
Qed.

(** X13. On an appointment it finds, cancelService fails exactly when the
    appointment is COMPLETED or CANCELLED, and then changes nothing;
    otherwise the appointment becomes CANCELLED, its notes get the
    timestamped cancellation entry appended (the entry alone when there
    were no notes, after the old notes and an empty line otherwise), every
    other column of it and every other appointment and table stay as they
    were, and a second cancelService on it is refused. *)
Theorem cancelService_contract (id : positive) (reason : option string)
    (nowISO : string) (db : DB) (s : Service.t) :
  services db !! id = Some s →
  let r := (cancelService id reason nowISO db).1 in
  let db' := (cancelService id reason nowISO db).2 in
  (failed r = true
   ↔ Service.status s = Service.COMPLETED ∨ Service.status s = Service.CANCELLED)
  ∧ (failed r = true → db' = db)
  ∧ (failed r = false →
     services db'
     = <[id := {| Service.userId := Service.userId s;
                  Service.carId := Service.carId s;
                  Service.serviceTypeId := Service.serviceTypeId s;
                  Service.scheduledDate := Service.scheduledDate s;
                  Service.status := Service.CANCELLED;
                  Service.notes :=
                    Some (note_after (Service.notes s)
                            (cancellation_entry nowISO reason));
                  Service.estimatedCost := Service.estimatedCost s;
                  Service.completedDate := Service.completedDate s;
                  Service.actualCost := Service.actualCost s;
                  Service.technicianNotes := Service.technicianNotes s |}]>
         (services db)
     ∧ users db' = users db ∧ cars db' = cars db ∧ spareParts db' = spareParts db
     ∧ orders db' = orders db ∧ orderItems db' = orderItems db
     ∧ serviceTypes db' = serviceTypes db
     ∧ ∀ reason2 t2,
         cancelService id reason2 t2 db' = (CannotCancelService Service.CANCELLED, db')).
Proof.
  intros Hs r db'. subst r db'.
  destruct (decide (Service.status s = Service.COMPLETED
                    ∨ Service.status s = Service.CANCELLED)) as [Hterm|Hlive].
  - rewrite (cancelService_refused id reason nowISO db s Hs Hterm). simpl.
    split_and!; done.
  - assert (Service.status s = Service.SCHEDULED
            ∨ Service.status s = Service.IN_PROGRESS) as Hact.
    { destruct (Service.status s); eauto; exfalso; apply Hlive; eauto. }
    rewrite (cancelService_done id reason nowISO db s Hs Hact). simpl.
    split_and!; [done|done|]. intros _. split_and!; try done.
    { do 3 f_equal. unfold appendNote, note_after, cancellation_entry.
      by destruct (Service.notes s) as [[|c rest]|], reason as [[|c' rest']|]. }
    intros reason2 t2.
    match goal with
    | |- cancelService _ _ _ (with_services (insert _ ?s') _) = _ =>
        rewrite (cancelService_refused id reason2 t2 _ s'); [done| |by right]
    end.
    simpl. by rewrite lookup_insert_eq.
Qed.

Lemma cancelService_contract_witness :
  services bookedShop !! 1%positive = Some booked1
  ∧ (let r := (cancelService 1 None stamp bookedShop).1 in
     let db' := (cancelService 1 None stamp bookedShop).2 in
     (failed r = true
      ↔ Service.status booked1 = Service.COMPLETED
        ∨ Service.status booked1 = Service.CANCELLED)
     ∧ (failed r = true → db' = bookedShop)
     ∧ (failed r = false →
        services db'
        = <[1%positive :=
              {| Service.userId := Service.userId booked1;
                 Service.carId := Service.carId booked1;
                 Service.serviceTypeId := Service.serviceTypeId booked1;
                 Service.scheduledDate := Service.scheduledDate booked1;
                 Service.status := Service.CANCELLED;
                 Service.notes :=
                   Some "CANCELLED on 2024-05-01T10:00:00.000Z: No reason provided"%string;
                 Service.estimatedCost := Service.estimatedCost booked1;
                 Service.completedDate := Service.completedDate booked1;
                 Service.actualCost := Service.actualCost booked1;
                 Service.technicianNotes := Service.technicianNotes booked1 |}]>
            (services bookedShop)
        ∧ users db' = users bookedShop ∧ cars db' = cars bookedShop
        ∧ spareParts db' = spareParts bookedShop
        ∧ orders db' = orders bookedShop ∧ orderItems db' = orderItems bookedShop
        ∧ serviceTypes db' = serviceTypes bookedShop
        ∧ ∀ reason2 t2,
            cancelService 1 reason2 t2 db'
            = (CannotCancelService Service.CANCELLED, db'))).
Proof.
  split; [exact bookedShop_service|].
  apply (cancelService_contract 1 None stamp bookedShop booked1).
  exact bookedShop_service.
Defined.

(** ** What updateService writes *)

Lemma updateService_date_inr (id : positive) (s : Service.t) (date : option Z)
    (now : Z) (tx : Transaction) (u : option Z) :
  updateService_date id s date now tx = inr u → u = date.
Proof.
  unfold updateService_date. destruct date as [t|]; [|by intros [= <-]].
  destruct (_ && _); [done|].
  destruct (String.eqb _ _); [|by intros [= <-]].
  destruct (Service_findOne _ _); [done|by intros [= <-]].
Qed.

Lemma updateService_type_inr (s : Service.t) (ty : option positive)
    (tx : Transaction) (u : option positive) (cost : option Q) :
  updateService_type s ty tx = inr (u, cost) →
  u = ty
  ∧ match ty with
    | Some t =>
        ∃ serviceType,
          serviceTypes (current tx) !! t = Some serviceType
          ∧ cost = None
    | None => cost = None
    end.
Proof.
  unfold updateService_type. destruct ty as [t|]; [|by intros [= <- <-]].
  destruct (serviceTypes (current tx) !! t) as [st|]; [|done].
  intros [= <- <-]. split; [done|]. by exists st.
Qed.

Lemma updateService_status_inr (s : Service.t) (status : option Service.Status)
    (completedDate : option Z) (now : Z) (u : option Service.Status)
    (stamped : option Z) :
  updateService_status s status completedDate now = inr (u, stamped) →
  u = status
  ∧ stamped = match status, completedDate with
              | Some Service.COMPLETED, None => Some now
              | _, _ => None
              end.
Proof.
  unfold updateService_status. destruct status as [q|]; [|by intros [= <- <-]].
  destruct (negb _); [done|]. intros [= <- <-]. split; [done|].
  by destruct q, completedDate.
Qed.

(** X14. An updateService call that is not refused gets no answer, and has
    committed a write of the appointment it was called on and of nothing
    else, never of its user or car: date, status and service type become
    the requested ones where the request gives them; the completion date is
    the requested one when given, else the time of the call when COMPLETED
    is requested, else unchanged; the actual cost is the requested one when
    given; notes and technician notes, when the request carries a text that
    is not empty, become that text behind the time of the call, after the
    old text and an empty line when there is an old text; and the estimated
    cost stays as it is, also when the service type changes. *)
Theorem updateService_effects (id : positive) (req : ServiceUpdateReq.t) (now : Z)
    (nowISO : string) (db : DB) (s : Service.t) :
  services db !! id = Some s →
  failed (updateService id req now nowISO db).1 = false →
  let db' := (updateService id req now nowISO db).2 in
  ∃ s',
    (updateService id req now nowISO db).1 = NoResponse
    ∧ services db' = <[id := s']> (services db)
    ∧ Service.userId s' = Service.userId s
    ∧ Service.carId s' = Service.carId s
    ∧ Service.scheduledDate s'
      = default (Service.scheduledDate s) (ServiceUpdateReq.scheduledDate req)
    ∧ Service.status s' = default (Service.status s) (ServiceUpdateReq.status req)
    ∧ Service.serviceTypeId s'
      = default (Service.serviceTypeId s) (ServiceUpdateReq.serviceTypeId req)
    ∧ Service.completedDate s'
      = match ServiceUpdateReq.completedDate req, ServiceUpdateReq.status req with
        | Some d, _ => Some d
        | None, Some Service.COMPLETED => Some now
        | None, _ => Service.completedDate s
        end
    ∧ Service.actualCost s'
      = match ServiceUpdateReq.actualCost req with
        | Some c => Some c
        | None => Service.actualCost s
        end
    ∧ Service.notes s'
      = match ServiceUpdateReq.notes req with
        | Some (String c rest) =>
            Some (note_after (Service.notes s) (nowISO +:+ ": " +:+ String c rest))
        | _ => Service.notes s
        end
    ∧ Service.technicianNotes s'
      = match ServiceUpdateReq.technicianNotes req with
        | Some (String c rest) =>
            Some (note_after (Service.technicianNotes s)
                    (nowISO +:+ ": " +:+ String c rest))
        | _ => Service.technicianNotes s
        end
    ∧ Service.estimatedCost s' = Service.estimatedCost s
    ∧ (∀ t, ServiceUpdateReq.serviceTypeId req = Some t → is_Some (serviceTypes db !! t))
    ∧ users db' = users db ∧ cars db' = cars db ∧ spareParts db' = spareParts db
    ∧ orders db' = orders db ∧ orderItems db' = orderItems db
    ∧ serviceTypes db' = serviceTypes db.
Proof.
  intros Hs. unfold updateService.
  destruct (ServiceUpdateReq.validationResult req); simpl; [|done].
  rewrite Hs.
  destruct (updateService_date _ _ _ _ _) as [r|u_date] eqn:Hdate.
  { apply updateService_date_failed in Hdate as [-> | ->]; done. }
  apply updateService_date_inr in Hdate as ->.
  destruct (updateService_type _ _ _) as [r|[u_ty u_cost]] eqn:Hty.
  { apply updateService_type_failed in Hty as ->. done. }
  apply updateService_type_inr in Hty as [-> Hcost]. simpl in Hcost.
  destruct (updateService_status _ _ _ _) as [r|[u_status stamped]] eqn:Hst.
  { pose proof (updateService_status_spec s (ServiceUpdateReq.status req)
                  (ServiceUpdateReq.completedDate req) now) as H.
    rewrite Hst in H. destruct H as (? & _ & _ & ->). done. }
  apply updateService_status_inr in Hst as [-> ->].
  intros _. cbv zeta. unfold respond_with_service, Service_findByPk_included.
  cbn [fst snd].
  match goal with
  | |- context [Service.has_keys ?d] => set (updateData := d)
  end.
  exists (Service.update s updateData).
  assert (∀ tx1 : Transaction,
             tx1 = (if Service.has_keys updateData
                    then exec (with_services
                                 (alter (λ s0, Service.update s0 updateData) id))
                           (begin db)
                    else begin db) →
             services (commit tx1) = <[id := Service.update s updateData]> (services db)
             ∧ users (commit tx1) = users db ∧ cars (commit tx1) = cars db
             ∧ spareParts (commit tx1) = spareParts db
             ∧ orders (commit tx1) = orders db
             ∧ orderItems (commit tx1) = orderItems db
             ∧ serviceTypes (commit tx1) = serviceTypes db) as Htx.
  { intros tx1 ->. destruct (Service.has_keys updateData) eqn:Hk; simpl.
    - split_and!; try done. by rewrite (alter_as_insert _ _ id s Hs).
    - split_and!; try done.
      rewrite Service_update_no_keys by done. by rewrite insert_id. }
  destruct (Htx _ eq_refl) as (F1 & F2 & F3 & F4 & F5 & F6 & F7).
  rewrite F1, F2, F3, F4, F5, F6, F7. subst updateData. simpl.
  split_and!; try done.
  - by destruct (ServiceUpdateReq.completedDate req),
                (ServiceUpdateReq.status req) as [[]|].
  - destruct (ServiceUpdateReq.notes req) as [[|c rest]|]; try done.
    simpl. f_equal. unfold appendNote, note_after.
    by destruct (Service.notes s) as [[|c0 rest0]|].
  - destruct (ServiceUpdateReq.technicianNotes req) as [[|c rest]|]; try done.
    simpl. f_equal. unfold appendNote, note_after.
    by destruct (Service.technicianNotes s) as [[|c0 rest0]|].
  - destruct (ServiceUpdateReq.serviceTypeId req) as [t|].
    + by destruct Hcost as (st & Hst & ->).
    + by rewrite Hcost.
  - intros t Ht. rewrite Ht in Hcost. destruct Hcost as (st & Hst & _). eauto.
Qed.

Lemma updateService_effects_witness :
  let req := setServiceStatus Service.IN_PROGRESS in
  services bookedShop !! 1%positive = Some booked1
  ∧ failed (updateService 1 req tenOClock stamp bookedShop).1 = false
  ∧ (Service.status
       <$> services (updateService 1 req tenOClock stamp bookedShop).2 !! 1%positive)
    = Some Service.IN_PROGRESS.
Proof.
  intros req. split; [exact bookedShop_service|].
  split; [vm_compute; reflexivity|].
  destruct (updateService_effects 1 req tenOClock stamp bookedShop booked1
              bookedShop_service) as (s' & _ & Hsvc & _ & _ & _ & Hst & _).
  { vm_compute; reflexivity. }
  rewrite Hsvc, lookup_insert_eq. simpl. by rewrite Hst.
Defined.

(** ** Rescheduling *)

Lemma conflicts_Some (id : positive) (t : Z) (j : positive) (x : Service.t) :
  conflicts (Some id) t (j, x) = true ↔ j ≠ id ∧ in_conflict t x.
Proof.
  unfold conflicts, in_conflict. cbn [fst snd].
  rewrite !andb_true_iff, negb_true_iff, Pos.eqb_neq, active_name, !Z.leb_le. tauto.
Qed.

Lemma scheduled_name (s : Service.Status) :
  String.eqb (Service.name s) "SCHEDULED" = true ↔ s = Service.SCHEDULED.
Proof. destruct s; cbn; split; congruence. Qed.

(** What updateService answers to a request that carries a new date and
    nothing else. *)
Lemma updateService_reschedule_eq (id : positive) (t now : Z) (nowISO : string)
    (db : DB) (s : Service.t) :
  services db !! id = Some s →
  updateService id (reschedule t) now nowISO db
  = if String.eqb (Service.name (Service.status s)) "SCHEDULED" then
      if (t <? now)%Z then (DateNotInFuture, db)
      else
        match Service_findOne (conflicts (Some id) t) db with
        | Some _ => (ScheduleConflict, db)
        | None =>
            (NoResponse,
             with_services
               (alter (λ s0, Service.update s0
                               {| Service.u_scheduledDate := Some t;
                                  Service.u_serviceTypeId := None;
                                  Service.u_estimatedCost := None;
                                  Service.u_status := None;
                                  Service.u_completedDate := None;
                                  Service.u_actualCost := None;
                                  Service.u_notes := None;
                                  Service.u_technicianNotes := None |}) id) db)
        end
    else
      (NoResponse,
       with_services
         (alter (λ s0, Service.update s0
                         {| Service.u_scheduledDate := Some t;
                            Service.u_serviceTypeId := None;
                            Service.u_estimatedCost := None;
                            Service.u_status := None;
                            Service.u_completedDate := None;
                            Service.u_actualCost := None;
                            Service.u_notes := None;
                            Service.u_technicianNotes := None |}) id) db).
Proof.
  intros Hs. unfold updateService. simpl. rewrite Hs.
  unfold updateService_date. simpl.
  destruct (String.eqb (Service.name (Service.status s)) "SCHEDULED").
  - destruct (t <? now)%Z; simpl; [done|].
    by destruct (Service_findOne _ db).
  - by rewrite andb_false_r.
Qed.

(** X15. Rescheduling an appointment through updateService: while the
    appointment is SCHEDULED, a date before now is refused, a date from now
    on is refused exactly when another active appointment lies within two
    hours of it, the appointment itself never counting as a conflict, and
    is stored otherwise; once the appointment is no longer SCHEDULED, every
    date is stored without any check. A refused call changes nothing; a
    call that stores the date commits it and gets no answer. *)
Theorem updateService_reschedule (id : positive) (t now : Z) (nowISO : string)
    (db : DB) (s : Service.t) :
  services db !! id = Some s →
  let r := (updateService id (reschedule t) now nowISO db).1 in
  let db' := (updateService id (reschedule t) now nowISO db).2 in
  (Service.status s = Service.SCHEDULED → (t < now)%Z →
   r = DateNotInFuture ∧ db' = db)
  ∧ (Service.status s = Service.SCHEDULED → (now ≤ t)%Z →
     (∃ j x, j ≠ id ∧ services db !! j = Some x ∧ in_conflict t x) →
     r = ScheduleConflict ∧ db' = db)
  ∧ (Service.status s = Service.SCHEDULED → (now ≤ t)%Z →
     (∀ j x, j ≠ id → services db !! j = Some x → ¬ in_conflict t x) →
     r = NoResponse
     ∧ (Service.scheduledDate <$> services db' !! id) = Some t)
  ∧ (Service.status s ≠ Service.SCHEDULED →
     r = NoResponse
     ∧ (Service.scheduledDate <$> services db' !! id) = Some t).
Proof.
  intros Hs r db'. subst r db'.
  rewrite (updateService_reschedule_eq id t now nowISO db s Hs).
  destruct (String.eqb (Service.name (Service.status s)) "SCHEDULED") eqn:Hname.
  - apply scheduled_name in Hname. split_and!.
    + intros _ Hlt. apply Z.ltb_lt in Hlt. by rewrite Hlt.
    + intros _ Hge (j & x & Hj & Hx & Hc). apply Z.ltb_ge in Hge. rewrite Hge.
      destruct (Service_findOne _ db) as [row|] eqn:Hfind; [done|].
      rewrite Service_findOne_None in Hfind.
      assert (conflicts (Some id) t (j, x) = true) as Hc'
        by (by apply conflicts_Some).
      by rewrite (Hfind _ _ Hx) in Hc'.
    + intros _ Hge Hno. apply Z.ltb_ge in Hge. rewrite Hge.
      destruct (Service_findOne _ db) as [[j x]|] eqn:Hfind.
      * apply Service_findOne_Some in Hfind as [Hx Hc]. simpl in Hx.
        apply conflicts_Some in Hc as [Hj Hc]. by apply (Hno j x) in Hc.
      * simpl. by rewrite lookup_alter_eq, Hs.
    + intros Hne. done.
  - split_and!.
    1-3: intros Heq; rewrite Heq in Hname; done.
    intros _. simpl. by rewrite lookup_alter_eq, Hs.
Qed.

Lemma updateService_reschedule_witness :
  services bookedShop !! 1%positive = Some booked1
  ∧ (let r := (updateService 1 (reschedule (tenOClock + 7200000)) tenOClock stamp
                 bookedShop).1 in
     let db' := (updateService 1 (reschedule (tenOClock + 7200000)) tenOClock stamp
                   bookedShop).2 in
     r = NoResponse
     ∧ (Service.scheduledDate <$> services db' !! 1%positive)
       = Some (tenOClock + 7200000)%Z).
Proof.
  split; [exact bookedShop_service|].
  destruct (updateService_reschedule 1 (tenOClock + 7200000) tenOClock stamp
              bookedShop booked1 bookedShop_service) as (_ & _ & H & _).
  apply H.
  - reflexivity.
  - vm_compute; congruence.
  - intros j x Hj Hx. exfalso. apply Hj.
    destruct (decide (j = 1%positive)) as [->|Hne]; [done|].
    assert (services bookedShop = {[ 1%positive := booked1 ]}) as Heq
      by (vm_compute; reflexivity).
    rewrite Heq, lookup_singleton_ne in Hx by done. done.
Defined.

(** ** Status paths *)

(** One scheduler operation moves an existing appointment along an edge of
    the state machine or leaves its status alone, and removes none. *)
Lemma service_step_edge (op : ServiceOp) (db : DB) (id : positive) (s : Service.t) :
  services db !! id = Some s →
  ∃ s', services (service_step op db).2 !! id = Some s'
        ∧ (Service.status s' = Service.status s
           ∨ spec_edge (Service.status s) (Service.status s')).
Proof.
  intros Hs. destruct op as [req now|id' req now nowISO|id' reason nowISO]; simpl.
  - pose proof (createService_cases req now db) as H.
    destruct (createService req now db) as [r db']. simpl.
    destruct H as [[_ ->]|(id' & s' & _ & Hfresh & -> & _)]; simpl; [eauto|].
    exists s. split; [|by left]. rewrite lookup_insert_ne; [done|congruence].
  - pose proof (updateService_cases id' req now nowISO db) as H.
    destruct (updateService id' req now nowISO db) as [r db']. simpl.
    destruct H as [(_ & -> & _)|(s0 & d & _ & Hs0 & -> & Hus & Hedge)]; simpl; [eauto|].
    destruct (decide (id' = id)) as [->|Hne].
    + rewrite lookup_insert_eq. eexists. split; [done|].
      rewrite Hs in Hs0. injection Hs0 as <-. simpl. rewrite Hus.
      destruct (ServiceUpdateReq.status req) as [q|]; simpl; [right; eauto|by left].
    + rewrite lookup_insert_ne by done. eauto.
  - pose proof (cancelService_cases id' reason nowISO db) as H.
    destruct (cancelService id' reason nowISO db) as [r db']. simpl.
    destruct H as [[_ ->]|(s0 & s' & _ & Hs0 & Hst & -> & Hc)]; simpl; [eauto|].
    destruct (decide (id' = id)) as [->|Hne].
    + rewrite lookup_insert_eq. eexists. split; [done|].
      rewrite Hs in Hs0. injection Hs0 as <-. right. rewrite Hc.
      unfold spec_edge. destruct Hst as [-> | ->]; eauto.
    + rewrite lookup_insert_ne by done. eauto.
Qed.

(** X16. Along every sequence of createService, updateService and
    cancelService calls an appointment is never removed and its status
    follows a path of the state machine; so an appointment that is COMPLETED
    or CANCELLED keeps that status for good, and one that has left SCHEDULED
    never is SCHEDULED again. *)
Theorem service_status_path (ops : list ServiceOp) (db : DB) (id : positive)
    (s : Service.t) :
  services db !! id = Some s →
  ∃ s', services (service_run ops db) !! id = Some s'
        ∧ rtc spec_edge (Service.status s) (Service.status s')
        ∧ (Service.status s = Service.COMPLETED ∨ Service.status s = Service.CANCELLED →
           Service.status s' = Service.status s)
        ∧ (Service.status s ≠ Service.SCHEDULED →
           Service.status s' ≠ Service.SCHEDULED).
Proof.
  intros Hs.
  assert (∃ s', services (service_run ops db) !! id = Some s'
                ∧ rtc spec_edge (Service.status s) (Service.status s'))
    as (s' & Hs' & Hpath).
  { revert db s Hs. induction ops as [|op rest IH]; intros db s Hs; simpl.
    - by exists s.
    - destruct (service_step_edge op db id s Hs) as (s1 & Hs1 & Hstep).
      destruct (IH _ _ Hs1) as (s' & Hs' & Hpath). exists s'. split; [done|].
      destruct Hstep as [<-|Hedge]; [done|]. by eapply rtc_l. }
  exists s'. split; [done|]. split; [done|]. split.
  - intros Hterm. destruct Hpath as [|a b c Hedge _]; [done|].
    exfalso. unfold spec_edge in Hedge.
    destruct Hterm as [Ht|Ht]; rewrite Ht in Hedge;
      destruct Hedge as [[? _]|[? _]]; congruence.
  - intros Hne. clear Hs Hs'. induction Hpath as [|a b c Hedge _ IH]; [done|].
    apply IH. unfold spec_edge in Hedge.
    destruct Hedge as [[_ [-> | ->]]|[_ [-> | ->]]]; congruence.
Qed.

Lemma service_status_path_witness :
  let ops :=
    [UpdateService 1 (setServiceStatus Service.IN_PROGRESS) tenOClock stamp;
     CreateService (booking (tenOClock + 5 * 3600000) None) tenOClock;
     UpdateService 1 (setServiceStatus Service.COMPLETED) tenOClock stamp;
     UpdateService 1 (setServiceStatus Service.SCHEDULED) tenOClock stamp;
     CancelService 1 None stamp] in
  services bookedShop !! 1%positive = Some booked1
  ∧ ∃ s', services (service_run ops bookedShop) !! 1%positive = Some s'
          ∧ rtc spec_edge (Service.status booked1) (Service.status s')
          ∧ (Service.status booked1 = Service.COMPLETED
             ∨ Service.status booked1 = Service.CANCELLED →
             Service.status s' = Service.status booked1)
          ∧ (Service.status booked1 ≠ Service.SCHEDULED →
             Service.status s' ≠ Service.SCHEDULED).
Proof.
  intros ops. split; [exact bookedShop_service|].
  apply (service_status_path ops bookedShop 1 booked1 bookedShop_service).
Defined.

(** ** Order statistics *)






Lemma filter_length_mono {A} (f g : A → bool) (l : list A) :
  (∀ a, f a = true → g a = true) →
  length (List.filter f l) ≤ length (List.filter g l).
Proof.
  intros Hfg. induction l as [|a l IH]; simpl; [done|].
  destruct (f a) eqn:Hf.
  - rewrite (Hfg a Hf). simpl. lia.
  - destruct (g a); simpl; lia.
Qed.














(** ** Service types *)

Lemma Service_count_zero (ty : positive) (db : DB) :
  Service_count ty db = 0 ↔
  ∀ id s, services db !! id = Some s → Service.serviceTypeId s ≠ ty.
Proof.
  unfold Service_count. split.
  - intros Hzero id s Hs Hty.
    apply elem_of_map_to_list, list_elem_of_In in Hs.
    assert (In (id, s) (List.filter (λ row, Pos.eqb (Service.serviceTypeId row.2) ty)
                          (map_to_list (services db)))) as Hin.
    { apply filter_In. split; [done|]. simpl. by apply Pos.eqb_eq. }
    destruct (List.filter _ _); [done|discriminate].
  - intros Hnone.
    destruct (List.filter _ _) as [|[id s] rest] eqn:Hf; [done|]. exfalso.
    assert (In (id, s) (List.filter (λ row, Pos.eqb (Service.serviceTypeId row.2) ty)
                          (map_to_list (services db)))) as Hin
      by (rewrite Hf; by left).
    apply filter_In in Hin as [Hin Hty]. simpl in Hty. apply Pos.eqb_eq in Hty.
    apply list_elem_of_In, elem_of_map_to_list in Hin. by apply (Hnone id s).
Qed.

(** deleteServiceType removes a service type exactly when it exists and no
    appointment uses it; every other call changes nothing. *)
Lemma deleteServiceType_cases (id : positive) (db : DB) :
  ((deleteServiceType id db).1 = ServiceTypeDeleted
   ∧ is_Some (serviceTypes db !! id)
   ∧ (∀ j s, services db !! j = Some s → Service.serviceTypeId s ≠ id)
   ∧ (deleteServiceType id db).2 = with_serviceTypes (delete id) db)
  ∨ ((deleteServiceType id db).1 ≠ ServiceTypeDeleted
     ∧ (serviceTypes db !! id = None
        ∨ ∃ j s, services db !! j = Some s ∧ Service.serviceTypeId s = id)
     ∧ (deleteServiceType id db).2 = db).
Proof.
  unfold deleteServiceType. simpl.
  destruct (serviceTypes db !! id) as [t|] eqn:Ht; [|right; simpl; auto].
  destruct (Nat.ltb_spec 0 (Service_count id db)) as [Hpos|Hzero].
  - right. simpl. split; [done|]. split; [|done]. right.
    unfold Service_count in Hpos.
    destruct (List.filter _ _) as [|[j s] rest] eqn:Hf; [simpl in Hpos; lia|].
    assert (In (j, s) (List.filter (λ row, Pos.eqb (Service.serviceTypeId row.2) id)
                         (map_to_list (services db)))) as Hin
      by (rewrite Hf; by left).
    apply filter_In in Hin as [Hin Hty]. simpl in Hty. apply Pos.eqb_eq in Hty.
    apply list_elem_of_In, elem_of_map_to_list in Hin. eauto.
  - left. simpl. split; [done|]. split; [eauto|]. split; [|done].
    apply Service_count_zero. lia.
Qed.

Lemma createService_typed (req : ServiceReq.t) (now : Z) (db : DB) :
  services_typed db → services_typed (createService req now db).2.
Proof.
  intros Hdb. unfold createService. simpl.
  destruct (ServiceReq.validationResult req); simpl; [|done].
  destruct (bool_decide (ServiceReq.userId req ∈ users db)); simpl; [|done].
  destruct (cars db !! ServiceReq.carId req); [|done].
  destruct (serviceTypes db !! ServiceReq.serviceTypeId req) as [ty|] eqn:Hty; [|done].
  destruct (ServiceReq.scheduledDate req <? now)%Z; [done|].
  destruct (Service_findOne _ db); [done|]. simpl.
  intros j x. simpl. destruct (decide (j = fresh (dom (services db)))) as [->|Hne].
  - rewrite lookup_insert_eq. intros [= <-]. simpl. by rewrite Hty.
  - rewrite lookup_insert_ne by done. apply Hdb.
Qed.

Lemma updateService_typed (id : positive) (req : ServiceUpdateReq.t) (now : Z)
    (nowISO : string) (db : DB) :
  services_typed db → services_typed (updateService id req now nowISO db).2.
Proof.
  intros Hdb. unfold updateService. simpl.
  destruct (ServiceUpdateReq.validationResult req); simpl; [|done].
  destruct (services db !! id) as [s|] eqn:Hs; [|done].
  destruct (updateService_date _ _ _ _ _); [done|].
  destruct (updateService_type _ _ _) as [|[u cost]] eqn:Htype; [done|].
  apply updateService_type_inr in Htype as [-> Hty].
  destruct (updateService_status _ _ _ _) as [|[u_status stamped]]; [done|].
  simpl. destruct (Service.has_keys _); [|done]. simpl.
  intros j x. simpl. destruct (decide (j = id)) as [->|Hne].
  - rewrite lookup_alter_eq, Hs. simpl. intros [= <-]. simpl.
    destruct (ServiceUpdateReq.serviceTypeId req) as [t|]; simpl.
    + destruct Hty as (ty & Hty & _). simpl in Hty. by rewrite Hty.
    + by apply (Hdb id).
  - rewrite lookup_alter_ne by done. apply Hdb.
Qed.

Lemma cancelService_typed (id : positive) (reason : option string) (nowISO : string)
    (db : DB) :
  services_typed db → services_typed (cancelService id reason nowISO db).2.
Proof.
  intros Hdb. unfold cancelService. simpl.
  destruct (services db !! id) as [s|] eqn:Hs; [|done].
  destruct (_ || _); [done|]. simpl.
  intros j x. simpl. destruct (decide (j = id)) as [->|Hne].
  - rewrite lookup_alter_eq, Hs. simpl. intros [= <-]. simpl. by apply (Hdb id).
  - rewrite lookup_alter_ne by done. apply Hdb.
Qed.

Lemma deleteServiceType_typed (id : positive) (db : DB) :
  services_typed db → services_typed (deleteServiceType id db).2.
Proof.
  intros Hdb.
  destruct (deleteServiceType_cases id db) as [(_ & _ & Hfree & ->)|(_ & _ & ->)];
    [|done].
  intros j x Hx. simpl in *. rewrite lookup_delete_ne; [by apply (Hdb j)|].
  intros Heq. by apply (Hfree j x Hx).
Qed.

(** X20. Service types in use are never lost: if every appointment has its
    service type, then so it is after every sequence of createService,
    updateService, cancelService and deleteServiceType calls; and every
    appointment of the start is still stored at the end, with a service type
    that exists. deleteServiceType deletes a service type exactly when it
    exists and no appointment uses it, whatever the appointment's status. *)
Theorem services_keep_their_types (ops : list SchedulerOp) (db : DB) :
  services_typed db →
  services_typed (scheduler_run ops db)
  ∧ (∀ id s, services db !! id = Some s →
             ∃ s' ty, services (scheduler_run ops db) !! id = Some s'
                      ∧ serviceTypes (scheduler_run ops db) !! Service.serviceTypeId s'
                        = Some ty)
  ∧ (∀ ty, (deleteServiceType ty db).1 = ServiceTypeDeleted
           ↔ is_Some (serviceTypes db !! ty)
             ∧ ∀ j s, services db !! j = Some s → Service.serviceTypeId s ≠ ty).
Proof.
  intros Hdb.
  assert (∀ ty, (deleteServiceType ty db).1 = ServiceTypeDeleted
                ↔ is_Some (serviceTypes db !! ty)
                  ∧ ∀ j s, services db !! j = Some s → Service.serviceTypeId s ≠ ty)
    as Hdelete.
  { intros ty.
    destruct (deleteServiceType_cases ty db)
      as [(Hr & Hty & Hfree & _)|(Hr & Hwhy & _)]; [done|].
    split; [done|]. intros [[t Hty] Hfree].
    destruct Hwhy as [Hnone|(j & s & Hs & Huse)]; [congruence|].
    by destruct (Hfree j s Hs). }
  cut (services_typed (scheduler_run ops db)
       ∧ (∀ id s, services db !! id = Some s →
                  ∃ s' ty, services (scheduler_run ops db) !! id = Some s'
                           ∧ serviceTypes (scheduler_run ops db)
                               !! Service.serviceTypeId s' = Some ty)).
  { intros [? ?]. by split_and!. }
  clear Hdelete. revert db Hdb. induction ops as [|op ops IH]; intros db Hdb.
  - split; [done|]. intros id s Hs. destruct (Hdb id s Hs) as [ty Hty]. eauto.
  - assert (services_typed (scheduler_step op db)) as Hstep.
    { destruct op as [[req now|id req now nowISO|id reason nowISO]|id]; simpl.
      - by apply createService_typed.
      - by apply updateService_typed.
      - by apply cancelService_typed.
      - by apply deleteServiceType_typed. }
    destruct (IH _ Hstep) as [Hend Hkept]. split; [done|].
    intros id s Hs.
    assert (∃ s1, services (scheduler_step op db) !! id = Some s1) as [s1 Hs1].
    { destruct op as [op|ty]; simpl.
      - destruct (service_step_edge op db id s Hs) as (s1 & Hs1 & _). eauto.
      - destruct (deleteServiceType_cases ty db) as [(_ & _ & _ & ->)|(_ & _ & ->)];
          eauto. }
    by apply (Hkept id s1).
Qed.

Lemma services_keep_their_types_witness :
  let ops :=
    [DeleteServiceType 1;
     OnService (CancelService 1 None stamp);
     DeleteServiceType 1;
     OnService (CreateService (booking (tenOClock + 9 * 3600000) None) tenOClock)] in
  services_typed bookedShop
  ∧ services_typed (scheduler_run ops bookedShop)
  ∧ ∀ id s, services bookedShop !! id = Some s →
            ∃ s' ty, services (scheduler_run ops bookedShop) !! id = Some s'
                     ∧ serviceTypes (scheduler_run ops bookedShop)
                         !! Service.serviceTypeId s' = Some ty.
Proof.
  cut (∀ P Q R : Prop, P ∧ Q ∧ R → P ∧ Q); [|tauto]. intros Hweaken.
  intros ops.
  assert (services_typed bookedShop) as Hdb.
  { intros id s Hs.
    assert (services bookedShop = {[ 1%positive := booked1 ]}) as Heq
      by (vm_compute; reflexivity).
    rewrite Heq in Hs. apply lookup_singleton_Some in Hs as [_ <-].
    vm_compute. eauto. }
  split; [exact Hdb|].
  exact (Hweaken _ _ _ (services_keep_their_types ops bookedShop Hdb)).
Defined.

(** ** Accounts *)

Section Accounts.
Context `{L : Libraries}.

Lemma User_findOne_Some (email : string) (st : Accounts) (row : positive * User.t) :
  User_findOne email st = Some row →
  accounts st !! row.1 = Some row.2 ∧ User.email row.2 = email.
Proof.
  unfold User_findOne. intros [Hin Hw]%find_some. split.
  - apply list_elem_of_In in Hin. destruct row. by apply elem_of_map_to_list.
  - by apply String.eqb_eq.
Qed.

Lemma User_findOne_None (email : string) (st : Accounts) :
  User_findOne email st = None →
  ∀ id u, accounts st !! id = Some u → User.email u ≠ email.
Proof.
  unfold User_findOne. intros H id u Hu Heq.
  eapply find_none in H; [|apply list_elem_of_In, elem_of_map_to_list, Hu].
  simpl in H. apply String.eqb_neq in H. done.
Qed.

(** The query by email finds the one account that has it. *)
Lemma User_findOne_unique (st : Accounts) (id : positive) (u : User.t) :
  accounts st !! id = Some u →
  (∀ j v, accounts st !! j = Some v → User.email v = User.email u → j = id) →
  User_findOne (User.email u) st = Some (id, u).
Proof.
  intros Hu Hunique. destruct (User_findOne (User.email u) st) as [[j v]|] eqn:Hf.
  - apply User_findOne_Some in Hf as [Hv He]. simpl in *.
    pose proof (Hunique j v Hv He) as ->. rewrite Hu in Hv. by injection Hv as ->.
  - exfalso. by apply (User_findOne_None _ _ Hf id u Hu).
Qed.

Lemma Role_findOne_Some (name : string) (st : Accounts) (row : positive * Role.t) :
  Role_findOne name st = Some row →
  roles st !! row.1 = Some row.2 ∧ Role.name row.2 = name.
Proof.
  unfold Role_findOne. intros [Hin Hw]%find_some. split.
  - apply list_elem_of_In in Hin. destruct row. by apply elem_of_map_to_list.
  - by apply String.eqb_eq.
Qed.

(** A signup that fails changes nothing; one that succeeds adds one row under
    a fresh key, for an email no account had, active, in the CUSTOMER role,
    with the password the hook made of the handler's hash. *)
Lemma signup_cases (req : SignupReq.t) (salt hookSalt : string) (st : Accounts) :
  ((∀ id role, (signup req salt hookSalt st).1 ≠ SignedUp id role)
   ∧ (signup req salt hookSalt st).2 = st)
  ∨ (∃ id rid role u,
       signup req salt hookSalt st = (SignedUp id (Role.name role), with_accounts (insert id u) st)
       ∧ id = fresh (dom (accounts st))
       ∧ accounts st !! id = None
       ∧ SignupReq.validationResult req = true
       ∧ (∀ j v, accounts st !! j = Some v → User.email v ≠ SignupReq.email req)
       ∧ roles st !! rid = Some role ∧ Role.name role = "CUSTOMER"%string
       ∧ User.email u = SignupReq.email req
       ∧ User.roleId u = rid
       ∧ User.isActive u = true
       ∧ User.password u
         = let hashedPassword := bcrypt_hash salt (SignupReq.password req) in
           if truthy (Some hashedPassword)
           then bcrypt_hash hookSalt hashedPassword else hashedPassword).
Proof.
  unfold signup.
  destruct (SignupReq.validationResult req) eqn:Hvalid; simpl; [|by left].
  destruct (User_findOne (SignupReq.email req) st) eqn:Hfind; [by left|].
  destruct (Role_findOne "CUSTOMER" st) as [[rid role]|] eqn:Hrole; [|by left].
  unfold User_create. destruct (User.validate _); [|by left].
  right. apply Role_findOne_Some in Hrole as [Hrole Hname]. cbn [fst snd] in *.
  eexists _, rid, role, _. split; [reflexivity|]. split; [done|].
  split; [apply not_elem_of_dom, is_fresh|]. split; [done|].
  split; [by apply User_findOne_None|]. split; [done|]. split; [done|].
  unfold User.beforeCreate, truthy. cbv zeta. cbn [User.password].
  destruct (negb (String.eqb (bcrypt_hash salt (SignupReq.password req)) ""));
    repeat split; reflexivity.
Qed.



(** The accounts after a call that needs no token: the roles are as before;
    an existing account keeps its key and its credentials; and a row that
    is new has the next free key and an email no account had. *)
Lemma public_step_accounts (call : PublicCall) (st : Accounts) :
  roles (public_step call st) = roles st
  ∧ (∀ id u, accounts st !! id = Some u →
             ∃ u', accounts (public_step call st) !! id = Some u'
                   ∧ same_credentials u u')
  ∧ (∀ j v, accounts (public_step call st) !! j = Some v →
            (∃ u, accounts st !! j = Some u ∧ same_credentials u v)
            ∨ (j = fresh (dom (accounts st))
               ∧ ∀ i u, accounts st !! i = Some u → User.email u ≠ User.email v)).
Proof.
  assert (Hsame : ∀ u, same_credentials u u) by (by intros u).
  assert (Halter : ∀ (f : User.t → User.t) (id : positive),
    (∀ u, same_credentials u (f u)) →
    roles (User_update f id st) = roles st
    ∧ (∀ i u, accounts st !! i = Some u →
              ∃ u', accounts (User_update f id st) !! i = Some u'
                    ∧ same_credentials u u')
    ∧ (∀ j v, accounts (User_update f id st) !! j = Some v →
              (∃ u, accounts st !! j = Some u ∧ same_credentials u v)
              ∨ (j = fresh (dom (accounts st))
                 ∧ ∀ i u, accounts st !! i = Some u → User.email u ≠ User.email v))).
  { intros f id Hf. split; [done|]. simpl. split.
    - intros i u Hu. destruct (decide (i = id)) as [->|Hne].
      + rewrite lookup_alter_eq, Hu. simpl. eauto.
      + rewrite lookup_alter_ne by done. eauto.
    - intros j v. destruct (decide (j = id)) as [->|Hne].
      + rewrite lookup_alter_eq. destruct (accounts st !! id) as [u|]; [|done].
        simpl. intros [= <-]. left. eauto.
      + rewrite lookup_alter_ne by done. intros Hv. left. eauto. }
  assert (Hid : roles st = roles st
    ∧ (∀ i u, accounts st !! i = Some u →
              ∃ u', accounts st !! i = Some u' ∧ same_credentials u u')
    ∧ (∀ j v, accounts st !! j = Some v →
              (∃ u, accounts st !! j = Some u ∧ same_credentials u v)
              ∨ (j = fresh (dom (accounts st))
                 ∧ ∀ i u, accounts st !! i = Some u → User.email u ≠ User.email v)))
    by (split_and!; eauto).
  destruct call as [email password now|email token now|token password|req salt hookSalt];
    simpl.
  - unfold login. destruct (negb _); [done|].
    destruct (User_findOne email st) as [[id user]|]; [|done].
    destruct (negb (User.isActive user)); [done|].
    destruct (negb (User.checkPassword user password)); [done|].
    destruct (roles st !! User.roleId user); simpl; by apply Halter.
  - unfold forgotPassword. destruct (User_findOne email st) as [[id user]|]; [|done].
    simpl. by apply Halter.
  - done.
  - destruct (signup_cases req salt hookSalt st)
      as [[_ ->]|(id & rid & role & u & -> & -> & Hfresh & _ & Hnew & _ & _
                  & Hemail & _)]; [done|].
    simpl. split; [done|]. split.
    + intros i x Hx. rewrite lookup_insert_ne; [eauto|]. congruence.
    + intros j v. destruct (decide (j = fresh (dom (accounts st)))) as [->|Hne].
      * rewrite lookup_insert_eq. intros [= <-]. right. split; [done|].
        intros i x Hx. rewrite Hemail. by apply (Hnew i x).
      * rewrite lookup_insert_ne by done. eauto.
Qed.

Lemma same_credentials_trans (u v w : User.t) :
  same_credentials u v → same_credentials v w → same_credentials u w.
Proof. unfold same_credentials. intros (-> & -> & -> & ->) (-> & -> & -> & ->). done. Qed.

Lemma public_step_emails_unique (call : PublicCall) (st : Accounts) :
  emails_unique st → emails_unique (public_step call st).
Proof.
  intros Hst i j u v Hu Hv Heq.
  destruct (public_step_accounts call st) as (_ & _ & Hback).
  destruct (Hback i u Hu) as [(u0 & Hu0 & Hcu)|[-> Hnew_u]],
           (Hback j v Hv) as [(v0 & Hv0 & Hcv)|[-> Hnew_v]]; [| | |done].
  - apply (Hst i j u0 v0 Hu0 Hv0).
    destruct Hcu as [-> _], Hcv as [-> _]. done.
  - exfalso. apply (Hnew_v i u0 Hu0). destruct Hcu as [-> _]. done.
  - exfalso. apply (Hnew_u j v0 Hv0). destruct Hcv as [-> _]. done.
Qed.



(** X23. The public routes keep the accounts table sound and leave
    credentials alone: over every sequence of login, forgotPassword,
    resetPassword and signup calls the emails stay unique, the roles are
    untouched, and every account that existed at the start is still there
    with the email, password, role and active flag it had. *)
Theorem public_calls_keep_credentials (calls : list PublicCall) (st : Accounts) :
  emails_unique st →
  emails_unique (public_run calls st)
  ∧ roles (public_run calls st) = roles st
  ∧ ∀ id u, accounts st !! id = Some u →
            ∃ u', accounts (public_run calls st) !! id = Some u'
                  ∧ same_credentials u u'.
Proof.
  revert st. induction calls as [|call calls IH]; intros st Hst.
  - split; [done|]. split; [done|]. intros id u Hu. by exists u.
  - destruct (IH (public_step call st) (public_step_emails_unique call st Hst))
      as (Hunique & Hroles & Hkeep).
    destruct (public_step_accounts call st) as (Hroles1 & Hkeep1 & _).
    split; [done|]. split; [simpl; by rewrite Hroles|].
    intros id u Hu. destruct (Hkeep1 id u Hu) as (u1 & Hu1 & Hc1).
    destruct (Hkeep id u1 Hu1) as (u' & Hu' & Hc').
    exists u'. split; [done|]. by eapply same_credentials_trans.
Qed.

(** X24. changePassword stores the new password hashed once, so the login
    that follows with it succeeds: for an active account with a role, a
    token that verifies to it and the right current password, the route
    answers 200, the stored password is the hash of the new one, and a
    login with the account's email and the new password is accepted. The
    handler never looks at the validation result: the new password may be
    of any length. *)
Theorem changePassword_then_login (id : positive) (u : User.t) (role : Role.t)
    (currentPassword newPassword salt : string) (now later : Z) (st : Accounts) :
  bcrypt_complete →
  emails_unique st →
  accounts st !! id = Some u →
  User.isActive u = true →
  roles st !! User.roleId u = Some role →
  isEmail (User.email u) = true →
  newPassword ≠ ""%string →
  User.checkPassword u currentPassword = true →
  let answer := change_password_route (Some id) currentPassword newPassword salt now st in
  answer.1 = PasswordChanged
  ∧ (User.password <$> accounts answer.2 !! id) = Some (bcrypt_hash salt newPassword)
  ∧ (login (User.email u) newPassword later answer.2).1 = LoggedIn id (Role.name role).
Proof.
  intros Hcomplete Hunique Hu Hactive Hrole Hmail Hnew Hcurrent answer. subst answer.
  unfold change_password_route, authenticate. rewrite Hu, Hactive. cbn [negb].
  unfold changePassword. cbn [fst snd]. rewrite Hcurrent. cbn [negb fst snd].
  set (u1 := User.with_password (User.with_lastLogin u now) (bcrypt_hash salt newPassword)).
  assert (accounts (User_update (λ u0, User.with_password u0 (bcrypt_hash salt newPassword))
                      id (User_update (λ u0, User.with_lastLogin u0 now) id st))
          !! id = Some u1) as Hu1.
  { simpl. by rewrite !lookup_alter_eq, Hu. }
  split; [done|]. split; [by rewrite Hu1|].
  apply String.eqb_neq in Hnew.
  unfold login. rewrite Hmail, Hnew. cbn [negb andb].
  change (User.email u) with (User.email u1).
  rewrite (User_findOne_unique _ id u1 Hu1).
  - cbn [User.isActive u1 User.with_password User.with_lastLogin]. rewrite Hactive.
    cbn [negb]. unfold User.checkPassword. cbn [User.password u1 User.with_password].
    rewrite Hcomplete. cbn [negb]. simpl. by rewrite Hrole.
  - intros j v Hv Hsame. simpl in Hv.
    destruct (decide (j = id)) as [->|Hj]; [done|].
    rewrite !lookup_alter_ne in Hv by done.
    by apply (Hunique j id v u Hv Hu).
Qed.

End Accounts.


Lemma toy_complete : @bcrypt_complete toy.
Proof. intros salt data. simpl. apply String.eqb_refl. Qed.



Lemma club_emails_unique : emails_unique club.
Proof.
  intros i j u v Hu Hv _. simpl in Hu, Hv.
  apply lookup_singleton_Some in Hu as [<- _].
  by apply lookup_singleton_Some in Hv as [<- _].
Qed.

Lemma public_calls_keep_credentials_witness :
  let calls :=
    [Signup ada "s1" "s2";
     ForgotPassword "bob@example.com" "c0ffee" tenOClock;
     ResetPassword "c0ffee" "password1";
     Login "bob@example.com" "hunter2" tenOClock] in
  emails_unique club
  ∧ emails_unique (@public_run toy calls club)
  ∧ roles (@public_run toy calls club) = roles club
  ∧ ∀ id u, accounts club !! id = Some u →
            ∃ u', accounts (@public_run toy calls club) !! id = Some u'
                  ∧ same_credentials u u'.
Proof.
  intros calls. split; [exact club_emails_unique|].
  exact (@public_calls_keep_credentials toy calls club club_emails_unique).
Defined.

Lemma changePassword_then_login_witness :
  let answer := @change_password_route toy (Some 7%positive) "hunter2" "abc" "s3"
                  tenOClock club in
  answer.1 = PasswordChanged
  ∧ (User.password <$> accounts answer.2 !! 7%positive) = Some ("#abc"%string)
  ∧ (@login toy "bob@example.com" "abc" (tenOClock + 1) answer.2).1
    = LoggedIn 7 "CUSTOMER".
Proof.
  exact (@changePassword_then_login toy 7 bob {| Role.name := "CUSTOMER" |}
           "hunter2" "abc" "s3" tenOClock (tenOClock + 1) club
           toy_complete club_emails_unique
           ltac:(vm_compute; reflexivity) ltac:(reflexivity)
           ltac:(vm_compute; reflexivity) ltac:(vm_compute; reflexivity)
           ltac:(discriminate) ltac:(vm_compute; reflexivity)).
Defined.
(** ** Reopening a cancelled order *)



